(** * builtin-zip-tree.c: the ZIP writer of git-zip-tree

    A shallow embedding of [src/builtin-zip-tree.c] and the properties of
    its entry encoder ([write_zip_entry]) and finalizer
    ([write_zip_trailer]).

    Conventions of the embedding.
    - C integers are values of [Z]; every place where the C code converts
      to [unsigned int] (32 bits) or [unsigned long] wraps explicitly with
      [uint] and [ulong].  The data model is LP64: [unsigned long] and
      [size_t] have 64 bits, [int] and [unsigned int] have 32.
    - [int] arithmetic on path lengths is exact: the lengths are taken
      to fit [int] ([name_fits_int]).  Beyond that the conversion of
      [strlen]'s result at line 122 is implementation-defined and signed
      overflow is undefined behaviour; neither is modelled, and the
      properties on the length of a path ask for lengths that fit.
    - [unsigned char] is [Byte.byte]; a buffer handed to a function
      together with its length is a [list byte].
    - The central-directory buffer [zip_dir] is a block of memory, a
      function from offsets to bytes; bytes never written hold whatever
      [xmalloc]/[xrealloc] left there.
    - File descriptor 1 is an append-only list of bytes; [error] and [die]
      append a diagnostic to a separate log.
    - A call ends by returning, by [die], or not at all: the only loop
      that may run forever is the growth of the directory buffer. *)

From Stdlib Require Import ZArith List Lia Bool.
From Stdlib Require Import Init.Byte Strings.Byte.
Import ListNotations.
Local Open Scope Z_scope.

(** ** Machine integers *)

Module CInt.

Definition UINT_BITS : Z := 32.
Definition ULONG_BITS : Z := 64.

(** Conversion to [unsigned int]. *)
Definition uint (n : Z) : Z := n mod 2 ^ UINT_BITS.

(** Conversion to [unsigned long]. *)
Definition ulong (n : Z) : Z := n mod 2 ^ ULONG_BITS.

(** The values of an [unsigned int]. *)
Definition is_uint (n : Z) : Prop := 0 <= n < 2 ^ UINT_BITS.

End CInt.
Import CInt.

(** ** Bytes and memory blocks *)

Definition uchar (z : Z) : byte :=
  match Byte.of_N (Z.to_N (z mod 256)) with
  | Some b => b
  | None => x00
  end.

Definition byte_val (b : byte) : Z := Z.of_N (Byte.to_N b).

Definition zlen {A : Type} (l : list A) : Z := Z.of_nat (length l).

(** A block of memory addressed from offset 0. *)
Definition mem : Type := Z -> byte.

(** [memcpy(m + off, src, length src)]. *)
Definition memcpy (m : mem) (off : Z) (src : list byte) : mem :=
  fun i =>
    if (off <=? i) && (i <? off + zlen src)
    then nth (Z.to_nat (i - off)) src x00
    else m i.

(** The [n] bytes of [m] starting at [off]. *)
Definition mem_read (m : mem) (off : Z) (n : nat) : list byte :=
  map (fun k => m (off + Z.of_nat k)) (seq 0 n).

(** ** Little-endian field packing (lines 72-84) *)

(** [copy_le16(dest, n)]: the two bytes stored at [dest].  The parameter
    is an [unsigned int], so the argument is converted on entry. *)
Definition copy_le16 (n : Z) : list byte :=
  let n := uint n in
  [ uchar (Z.land 255 n);
    uchar (Z.land 255 (Z.shiftr n 8)) ].

(** [copy_le32(dest, n)]: the four bytes stored at [dest]. *)
Definition copy_le32 (n : Z) : list byte :=
  let n := uint n in
  [ uchar (Z.land 255 n);
    uchar (Z.land 255 (Z.shiftr n 8));
    uchar (Z.land 255 (Z.shiftr n 16));
    uchar (Z.land 255 (Z.shiftr n 24)) ].

(** ** Reading an archive back

    What a ZIP reader sees: the unsigned little-endian number held by a
    run of bytes, and the field of [len] bytes at offset [off] of a
    record. *)

Fixpoint le_value (bs : list byte) : Z :=
  match bs with
  | [] => 0
  | b :: r => byte_val b + 256 * le_value r
  end.

Definition field (off len : nat) (rec : list byte) : list byte :=
  firstn len (skipn off rec).

Definition field_value (off len : nat) (rec : list byte) : Z :=
  le_value (field off len rec).

(** ** Collaborators

    Functions the file calls but does not define: zlib's [crc32] and
    [deflate], and the object store's [read_sha1_file].  They are taken as
    parameters. *)

Record collab : Type := {
  (** [crc32(crc, buf, len)] of zlib.h, whose [len] is a [uInt] of 32
      bits; [Z_NULL] is the empty buffer. *)
  crc32 : Z -> list byte -> Z -> Z;
  (** The [deflateInit]/[deflateBound]/[deflate(Z_FINISH)] sequence of
      lines 94-106 run at a compression level on [size] bytes of [data]:
      the last result code of the loop and the [total_out] bytes it left
      in the output buffer. *)
  deflate_finish : Z -> list byte -> Z -> Z * list byte;
  (** [read_sha1_file(sha1, type, &size)]: the object's bytes, [None] for
      a null pointer. *)
  read_sha1_file : list byte -> option (list byte)
}.

(** What zlib documents for [crc32]: the initial value is zero and the
    result is a 32-bit number. *)
Record zlib_contract (C : collab) : Prop := {
  crc32_initial : crc32 C 0 [] 0 = 0;
  crc32_range : forall c buf n, 0 <= crc32 C c buf n < 2 ^ 32
}.

(** From zlib.h. *)
Definition Z_STREAM_END : Z := 1.

(** A finished zlib stream has a two-byte header and a four-byte
    Adler-32 trailer (RFC 1950), and [total_out] is a [uLong]. *)
Definition deflate_framed (C : collab) : Prop :=
  forall level data size d,
    deflate_finish C level data size = (Z_STREAM_END, d) ->
    6 <= zlen d < 2 ^ 64.

(** From stdint.h: no object is larger than [PTRDIFF_MAX] bytes. *)
Definition PTRDIFF_MAX : Z := 2 ^ 63 - 1.

(** The objects of the store are objects in memory. *)
Definition objects_fit (C : collab) : Prop :=
  forall sha1 buffer,
    read_sha1_file C sha1 = Some buffer -> zlen buffer <= PTRDIFF_MAX.

(** From tree.h. *)
Definition READ_TREE_RECURSIVE : Z := 1.

(** From sys/stat.h. *)
Definition S_IFMT : Z := 61440.   (* 0170000 *)
Definition S_IFDIR : Z := 16384.  (* 0040000 *)
Definition S_IFREG : Z := 32768.  (* 0100000 *)
Definition S_ISDIR (mode : Z) : bool := Z.land mode S_IFMT =? S_IFDIR.
Definition S_ISREG (mode : Z) : bool := Z.land mode S_IFMT =? S_IFREG.

(** The sixteen lowercase hexadecimal digits. *)
Definition hex_digit (n : Z) : byte :=
  nth (Z.to_nat n)
    [x30; x31; x32; x33; x34; x35; x36; x37; x38; x39;
     x61; x62; x63; x64; x65; x66] x30.

(** Modelled from the spec: [sha1_to_hex] (sha1_file.c) is missing from
    the sources; it gives the lowercase hexadecimal text of a digest, two
    characters per byte, 40 characters for the 20 bytes of a SHA-1. *)
Definition sha1_to_hex (sha1 : list byte) : list byte :=
  flat_map (fun b => [hex_digit (Z.shiftr (byte_val b) 4);
                      hex_digit (Z.land (byte_val b) 15)]) sha1.

(** ** Program state (lines 15-23) *)

Inductive diag : Type :=
| PathTooLong (pathlen : Z) (sha1 path : list byte)
| UnsupportedMode (mode : Z) (sha1 : list byte)
| CannotRead (sha1 : list byte).

Record zip_state : Type := {
  zip_date : Z;
  zip_time : Z;
  zip_dir : mem;
  zip_dir_size : Z;
  zip_offset : Z;
  zip_dir_offset : Z;
  zip_dir_entries : Z;
  zlib_compression_level : Z;
  (** standard output, the archive stream *)
  fd1 : list byte;
  (** what [error] and [die] printed *)
  fd2 : list diag
}.

Definition ZIP_DIRECTORY_MIN_SIZE : Z := 1024 * 1024.

(** How a call ends: it returns, the process exits in [die], or the
    call never returns; each with the state reached by then. *)
Inductive outcome : Type :=
| Ret (result : Z) (s : zip_state)
| Die (s : zip_state)
| Loop (s : zip_state).

(** [error(...)]: a line on standard error. *)
Definition error (d : diag) (s : zip_state) : zip_state :=
  {| zip_date := zip_date s; zip_time := zip_time s;
     zip_dir := zip_dir s; zip_dir_size := zip_dir_size s;
     zip_offset := zip_offset s; zip_dir_offset := zip_dir_offset s;
     zip_dir_entries := zip_dir_entries s;
     zlib_compression_level := zlib_compression_level s;
     fd1 := fd1 s; fd2 := fd2 s ++ [d] |}.

(** [write_or_die(1, buf, n)]: the [n] bytes at [buf] go to standard
    output.  Writes to the stream do not fail. *)
Definition write_or_die (buf : list byte) (n : Z) (s : zip_state) : zip_state :=
  {| zip_date := zip_date s; zip_time := zip_time s;
     zip_dir := zip_dir s; zip_dir_size := zip_dir_size s;
     zip_offset := zip_offset s; zip_dir_offset := zip_dir_offset s;
     zip_dir_entries := zip_dir_entries s;
     zlib_compression_level := zlib_compression_level s;
     fd1 := fd1 s ++ firstn (Z.to_nat n) buf; fd2 := fd2 s |}.

Definition set_zip_offset (v : Z) (s : zip_state) : zip_state :=
  {| zip_date := zip_date s; zip_time := zip_time s;
     zip_dir := zip_dir s; zip_dir_size := zip_dir_size s;
     zip_offset := v; zip_dir_offset := zip_dir_offset s;
     zip_dir_entries := zip_dir_entries s;
     zlib_compression_level := zlib_compression_level s;
     fd1 := fd1 s; fd2 := fd2 s |}.

Definition set_zip_dir_size (v : Z) (s : zip_state) : zip_state :=
  {| zip_date := zip_date s; zip_time := zip_time s;
     zip_dir := zip_dir s; zip_dir_size := v;
     zip_offset := zip_offset s; zip_dir_offset := zip_dir_offset s;
     zip_dir_entries := zip_dir_entries s;
     zlib_compression_level := zlib_compression_level s;
     fd1 := fd1 s; fd2 := fd2 s |}.

Definition set_zip_dir (m : mem) (s : zip_state) : zip_state :=
  {| zip_date := zip_date s; zip_time := zip_time s;
     zip_dir := m; zip_dir_size := zip_dir_size s;
     zip_offset := zip_offset s; zip_dir_offset := zip_dir_offset s;
     zip_dir_entries := zip_dir_entries s;
     zlib_compression_level := zlib_compression_level s;
     fd1 := fd1 s; fd2 := fd2 s |}.

Definition set_zip_dir_offset (v : Z) (s : zip_state) : zip_state :=
  {| zip_date := zip_date s; zip_time := zip_time s;
     zip_dir := zip_dir s; zip_dir_size := zip_dir_size s;
     zip_offset := zip_offset s; zip_dir_offset := v;
     zip_dir_entries := zip_dir_entries s;
     zlib_compression_level := zlib_compression_level s;
     fd1 := fd1 s; fd2 := fd2 s |}.

Definition set_zip_dir_entries (v : Z) (s : zip_state) : zip_state :=
  {| zip_date := zip_date s; zip_time := zip_time s;
     zip_dir := zip_dir s; zip_dir_size := zip_dir_size s;
     zip_offset := zip_offset s; zip_dir_offset := zip_dir_offset s;
     zip_dir_entries := v;
     zlib_compression_level := zlib_compression_level s;
     fd1 := fd1 s; fd2 := fd2 s |}.

(** ** Record layouts (lines 27-70)

    Every member is an array of [unsigned char], so a struct has no
    padding and its bytes are its members in order. *)

Record zip_local_header : Type := {
  lh_magic : list byte;
  lh_version : list byte;
  lh_flags : list byte;
  lh_compression_method : list byte;
  lh_mtime : list byte;
  lh_mdate : list byte;
  lh_crc32 : list byte;
  lh_compressed_size : list byte;
  lh_size : list byte;
  lh_filename_length : list byte;
  lh_extra_length : list byte
}.

Definition local_header_bytes (h : zip_local_header) : list byte :=
  lh_magic h ++ lh_version h ++ lh_flags h ++ lh_compression_method h ++
  lh_mtime h ++ lh_mdate h ++ lh_crc32 h ++ lh_compressed_size h ++
  lh_size h ++ lh_filename_length h ++ lh_extra_length h.

Definition sizeof_zip_local_header : Z := 30.

Record zip_dir_header : Type := {
  dh_magic : list byte;
  dh_creator_version : list byte;
  dh_version : list byte;
  dh_flags : list byte;
  dh_compression_method : list byte;
  dh_mtime : list byte;
  dh_mdate : list byte;
  dh_crc32 : list byte;
  dh_compressed_size : list byte;
  dh_size : list byte;
  dh_filename_length : list byte;
  dh_extra_length : list byte;
  dh_comment_length : list byte;
  dh_disk : list byte;
  dh_attr1 : list byte;
  dh_attr2 : list byte;
  dh_offset : list byte
}.

Definition dir_header_bytes (d : zip_dir_header) : list byte :=
  dh_magic d ++ dh_creator_version d ++ dh_version d ++ dh_flags d ++
  dh_compression_method d ++ dh_mtime d ++ dh_mdate d ++ dh_crc32 d ++
  dh_compressed_size d ++ dh_size d ++ dh_filename_length d ++
  dh_extra_length d ++ dh_comment_length d ++ dh_disk d ++ dh_attr1 d ++
  dh_attr2 d ++ dh_offset d.

Definition sizeof_zip_dir_header : Z := 46.

Record zip_dir_trailer : Type := {
  tr_magic : list byte;
  tr_disk : list byte;
  tr_directory_start_disk : list byte;
  tr_entries_on_this_disk : list byte;
  tr_entries : list byte;
  tr_size : list byte;
  tr_offset : list byte;
  tr_comment_length : list byte
}.

Definition dir_trailer_bytes (t : zip_dir_trailer) : list byte :=
  tr_magic t ++ tr_disk t ++ tr_directory_start_disk t ++
  tr_entries_on_this_disk t ++ tr_entries t ++ tr_size t ++
  tr_offset t ++ tr_comment_length t.

Definition sizeof_zip_dir_trailer : Z := 22.

(** ** The encoder and the finalizer *)

(** One descriptor of the enumeration: the arguments the tree walker
    passes to the callback. *)
Record entry : Type := {
  e_sha1 : list byte;
  e_base : list byte;
  e_filename : list byte;
  e_mode : Z
}.

(** [struct tm], the members [dos_time] reads. *)
Record tm : Type := {
  tm_sec : Z; tm_min : Z; tm_hour : Z;
  tm_mday : Z; tm_mon : Z; tm_year : Z
}.

(** The loop of lines 209-212 revisits a capacity after [2^32 / 2^20]
    rounds, so this many rounds decide whether it ever exits. *)
Definition GROW_ROUNDS : nat := 4096.

(** Lines 209-212: the capacity the loop ends with, [None] when the
    rounds are used up. *)
Fixpoint grow_dir (rounds : nat) (dir_size need : Z) : option Z :=
  if dir_size <? need then
    match rounds with
    | O => None
    | S r => grow_dir r (uint (dir_size + ZIP_DIRECTORY_MIN_SIZE)) need
    end
  else Some dir_size.

Section Encoder.

Variable C : collab.

(** Lines 86-117.  The buffer returned holds [total_out] bytes. *)
Definition zlib_deflate (level : Z) (data : list byte) (size : Z)
  : option (list byte * Z) :=
  let '(result, buffer) := deflate_finish C level data size in
  if negb (result =? Z_STREAM_END) then None
  else Some (buffer, zlen buffer).

(** Lines 119-141.  [base] stands for the [baselen] bytes at [base];
    the result is the path and [*pathlen].  The lengths are [int]s in
    the code (line 122 converts what [strlen] returns); they are taken
    to fit, which [name_fits_int] below says, and the sums are then
    exact. *)
Definition construct_path (base filename : list byte) (isdir : bool)
  : list byte * Z :=
  let filenamelen := zlen filename in
  let len := zlen base + filenamelen in
  let len := if isdir then len + 1 else len in
  (base ++ filename ++ (if isdir then [x2f] else []), len).

(** Lines 194-205: the method, the payload pointer and the compressed
    size after the attempt to deflate. *)
Definition try_deflate (level method : Z) (buffer : list byte) (size : Z)
    (out : list byte) (compressed_size : Z) : Z * list byte * Z :=
  if method =? 8 then
    match zlib_deflate level buffer size with
    | Some (deflated, compressed_size) =>
        if ulong (compressed_size - 6) <? size
        then (method, skipn 2 deflated, ulong (compressed_size - 6))
        else (0, out, size)
    | None => (0, out, size)
    end
  else (method, out, compressed_size).

(** Lines 214-230. *)
Definition make_dirent (method crc compressed_size uncompressed_size
    pathlen : Z) (s : zip_state) : zip_dir_header :=
  {| dh_magic := copy_le32 0x02014b50;
     dh_creator_version := copy_le16 0;
     dh_version := copy_le16 20;
     dh_flags := copy_le16 0;
     dh_compression_method := copy_le16 method;
     dh_mtime := copy_le16 (zip_time s);
     dh_mdate := copy_le16 (zip_date s);
     dh_crc32 := copy_le32 crc;
     dh_compressed_size := copy_le32 compressed_size;
     dh_size := copy_le32 uncompressed_size;
     dh_filename_length := copy_le16 pathlen;
     dh_extra_length := copy_le16 0;
     dh_comment_length := copy_le16 0;
     dh_disk := copy_le16 0;
     dh_attr1 := copy_le16 0;
     dh_attr2 := copy_le32 0;
     dh_offset := copy_le32 (zip_offset s) |}.

(** Lines 237-247. *)
Definition make_header (method crc compressed_size uncompressed_size
    pathlen : Z) (s : zip_state) : zip_local_header :=
  {| lh_magic := copy_le32 0x04034b50;
     lh_version := copy_le16 20;
     lh_flags := copy_le16 0;
     lh_compression_method := copy_le16 method;
     lh_mtime := copy_le16 (zip_time s);
     lh_mdate := copy_le16 (zip_date s);
     lh_crc32 := copy_le32 crc;
     lh_compressed_size := copy_le32 compressed_size;
     lh_size := copy_le32 uncompressed_size;
     lh_filename_length := copy_le16 pathlen;
     lh_extra_length := copy_le16 0 |}.

(** The locals of [write_zip_entry] that are live at line 207. *)
Record locals : Type := {
  path : list byte;
  pathlen : Z;
  method : Z;
  result : Z;
  out : list byte;
  uncompressed_size : Z;
  compressed_size : Z;
  crc : Z
}.

(** How lines 163-205 end: at [goto out] after [error], in [die], or
    at line 207. *)
Inductive prepared : Type :=
| Skip (d : diag)
| Fatal (d : diag)
| Encode (l : locals).

(** Lines 163-205.  In the directory branch [size] and [buffer] are
    not set; they are not read there, and stand as [0] and [[]].  At
    line 184 the [unsigned long size] is converted to the [uInt] that
    [crc32] takes. *)
Definition prepare_entry (sha1 base filename : list byte) (mode : Z)
    (level : Z) : prepared :=
  let crc := crc32 C 0 [] 0 in
  let '(path, pathlen) := construct_path base filename (S_ISDIR mode) in
  if pathlen >? 0xffff then
    Skip (PathTooLong pathlen sha1 path)
  else if S_ISDIR mode then
    let '(method, out, compressed_size) :=
      try_deflate level 0 [] 0 [] 0 in
    Encode {| path := path; pathlen := pathlen; method := method;
              result := READ_TREE_RECURSIVE; out := out;
              uncompressed_size := 0;
              compressed_size := compressed_size; crc := crc |}
  else if S_ISREG mode then
    let method := if level =? 0 then 0 else 8 in
    match read_sha1_file C sha1 with
    | None => Fatal (CannotRead sha1)
    | Some buffer =>
      let size := zlen buffer in
      let crc := crc32 C crc buffer (uint size) in
      let '(method, out, compressed_size) :=
        try_deflate level method buffer size buffer size in
      Encode {| path := path; pathlen := pathlen; method := method;
                result := 0; out := out;
                uncompressed_size := size;
                compressed_size := compressed_size; crc := crc |}
    end
  else
    Skip (UnsupportedMode mode sha1).

(** Lines 207-255: the directory record is appended, then the local
    header, the path and the payload are written. *)
Definition append_entry (l : locals) (s : zip_state) : outcome :=
  let direntsize := ulong (sizeof_zip_dir_header + pathlen l) in
  match grow_dir GROW_ROUNDS (zip_dir_size s)
          (ulong (zip_dir_offset s + direntsize)) with
  | None => Loop s
  | Some dir_size =>
    let s := set_zip_dir_size dir_size s in
    let dirent :=
      make_dirent (method l) (crc l) (compressed_size l)
        (uncompressed_size l) (pathlen l) s in
    let s := set_zip_dir
               (memcpy (zip_dir s) (zip_dir_offset s)
                  (dir_header_bytes dirent)) s in
    let s := set_zip_dir_offset
               (uint (ulong (zip_dir_offset s + sizeof_zip_dir_header))) s in
    let s := set_zip_dir
               (memcpy (zip_dir s) (zip_dir_offset s)
                  (firstn (Z.to_nat (pathlen l)) (path l))) s in
    let s := set_zip_dir_offset (uint (zip_dir_offset s + pathlen l)) s in
    let s := set_zip_dir_entries (uint (zip_dir_entries s + 1)) s in
    let header :=
      make_header (method l) (crc l) (compressed_size l)
        (uncompressed_size l) (pathlen l) s in
    let s := write_or_die (local_header_bytes header)
               sizeof_zip_local_header s in
    let s := set_zip_offset
               (uint (ulong (zip_offset s + sizeof_zip_local_header))) s in
    let s := write_or_die (path l) (pathlen l) s in
    let s := set_zip_offset (uint (zip_offset s + pathlen l)) s in
    let s := if compressed_size l >? 0
             then set_zip_offset
                    (uint (ulong (zip_offset s + compressed_size l)))
                    (write_or_die (out l) (compressed_size l) s)
             else s in
    Ret (result l) s
  end.

(** Lines 143-263. *)
Definition write_zip_entry (sha1 base filename : list byte) (mode : Z)
    (stage : Z) (s : zip_state) : outcome :=
  match prepare_entry sha1 base filename mode
          (zlib_compression_level s) with
  | Skip d => Ret (-1) (error d s)
  | Fatal d => Die (error d s)
  | Encode l => append_entry l s
  end.

(** Lines 265-282. *)
Definition write_zip_trailer (sha1 : option (list byte)) (s : zip_state)
  : zip_state :=
  let trailer :=
    {| tr_magic := copy_le32 0x06054b50;
       tr_disk := copy_le16 0;
       tr_directory_start_disk := copy_le16 0;
       tr_entries_on_this_disk := copy_le16 (zip_dir_entries s);
       tr_entries := copy_le16 (zip_dir_entries s);
       tr_size := copy_le32 (zip_dir_offset s);
       tr_offset := copy_le32 (zip_offset s);
       tr_comment_length :=
         copy_le16 (match sha1 with Some _ => 40 | None => 0 end) |} in
  let s := write_or_die
             (mem_read (zip_dir s) 0 (Z.to_nat (zip_dir_offset s)))
             (zip_dir_offset s) s in
  let s := write_or_die (dir_trailer_bytes trailer)
             sizeof_zip_dir_trailer s in
  match sha1 with
  | Some h => write_or_die (sha1_to_hex h) 40 s
  | None => s
  end.

(** Lines 284-291; [/] of C truncates. *)
Definition dos_time (t : tm) : Z * Z :=
  (tm_mday t + (tm_mon t + 1) * 32 + (tm_year t + 1900 - 1980) * 512,
   Z.quot (tm_sec t) 2 + tm_min t * 32 + tm_hour t * 2048).

(** Modelled from the spec: the tree walker [read_tree_recursive]
    (tree.c), "a depth-first enumeration of (content-hash, base-path,
    mode) triples": every descriptor is handed to the encoder in turn,
    a skipped entry does not stop the enumeration, and a fatal error
    ends the build.  The results of the calls that returned are
    collected. *)
Fixpoint read_tree_recursive (es : list entry) (s : zip_state)
  : list Z * outcome :=
  match es with
  | [] => ([], Ret 0 s)
  | e :: es' =>
    match write_zip_entry (e_sha1 e) (e_base e) (e_filename e)
            (e_mode e) 0 s with
    | Ret r s' =>
      let '(rs, o) := read_tree_recursive es' s' in (r :: rs, o)
    | Die s' => ([], Die s')
    | Loop s' => ([], Loop s')
    end
  end.

(** The state [cmd_zip_tree] sets up (lines 302-333): the statics are
    zero, the directory buffer is a fresh [xmalloc] block. *)
Definition initial_state (fresh : mem) (level date time : Z) : zip_state :=
  {| zip_date := date; zip_time := time;
     zip_dir := fresh; zip_dir_size := ZIP_DIRECTORY_MIN_SIZE;
     zip_offset := 0; zip_dir_offset := 0; zip_dir_entries := 0;
     zlib_compression_level := level;
     fd1 := []; fd2 := [] |}.

(** Lines 339-347: the optional entry for the base directory (mode
    040777), the enumeration, the trailer.  [cmd_zip_tree] ignores what
    the first two return. *)
Definition zip_tree (fresh : mem) (level date time : Z)
    (tree_sha1 base : list byte) (es : list entry)
    (commit : option (list byte)) : outcome :=
  let s := initial_state fresh level date time in
  let o := if zlen base >? 0
           then write_zip_entry tree_sha1 [] base 16895 0 s
           else Ret 0 s in
  match o with
  | Ret _ s =>
    match snd (read_tree_recursive es s) with
    | Ret _ s => Ret 0 (write_zip_trailer commit s)
    | o => o
    end
  | o => o
  end.

End Encoder.

(** ** Executable collaborators for concrete runs *)

Module Sample.

(** The CRC-32 of zlib, bit by bit (polynomial [0xEDB88320]). *)
Definition crc_bit (c : Z) : Z :=
  if Z.odd c then Z.lxor (Z.shiftr c 1) 0xEDB88320 else Z.shiftr c 1.

Definition crc_byte (c : Z) (b : byte) : Z :=
  Nat.iter 8 crc_bit (Z.lxor c (byte_val b)).

Definition zcrc32 (crc : Z) (buf : list byte) (len : Z) : Z :=
  (Z.lxor
     (fold_left crc_byte (firstn (Z.to_nat len) buf)
        (Z.lxor (crc mod 2 ^ 32) 0xFFFFFFFF))
     0xFFFFFFFF) mod 2 ^ 32.

Fixpoint bytes_eqb (a b : list byte) : bool :=
  match a, b with
  | [], [] => true
  | x :: a', y :: b' => Byte.eqb x y && bytes_eqb a' b'
  | _, _ => false
  end.

Definition bytes_of (l : list Z) : list byte := map uchar l.

(** "hello" *)
Definition hello : list byte := bytes_of [104; 101; 108; 108; 111].
(** twenty times "a" *)
Definition twenty_a : list byte := repeat x61 20.

(** What zlib 1.2 returns for [hello], [twenty_a] and the empty input
    at the default level; any other input fails with [Z_BUF_ERROR]. *)
Definition zdeflate (level : Z) (data : list byte) (size : Z)
  : Z * list byte :=
  if bytes_eqb data twenty_a then
    (1, bytes_of [120; 156; 75; 76; 196; 4; 0; 79; 166; 7; 149])
  else if bytes_eqb data hello then
    (1, bytes_of [120; 156; 203; 72; 205; 201; 201; 7; 0; 6; 44; 2; 21])
  else if bytes_eqb data [] then
    (1, bytes_of [120; 156; 3; 0; 0; 0; 0; 1])
  else (-5, []).

(** Digests are told apart by their first byte. *)
Definition sha (b : byte) : list byte := repeat b 20.

Definition store (sha1 : list byte) : option (list byte) :=
  match sha1 with
  | x01 :: _ => Some hello
  | x02 :: _ => Some twenty_a
  | x03 :: _ => Some []
  | _ => None
  end.

Definition git : collab :=
  {| crc32 := zcrc32;
     deflate_finish := zdeflate;
     read_sha1_file := store |}.

(** A deflate that claims success with three bytes of output. *)
Definition stub_zlib : collab :=
  {| crc32 := zcrc32;
     deflate_finish := fun _ _ _ => (1, bytes_of [1; 2; 3]);
     read_sha1_file := store |}.

(** An object store holding one blob of [2^32] zero bytes. *)
Definition huge_len : nat := Z.to_nat (2 ^ 32).
Definition huge : list byte := repeat x00 huge_len.

Definition huge_store : collab :=
  {| crc32 := zcrc32;
     deflate_finish := zdeflate;
     read_sha1_file := fun _ => Some huge |}.

(** Two blobs of [2^32] bytes that differ in the last byte only, and a
    store that holds them. *)
Definition almost_huge : list byte := repeat x00 (Z.to_nat (2 ^ 32 - 1)).
Definition huge_ending (b : byte) : list byte := almost_huge ++ [b].

Definition twin_store : collab :=
  {| crc32 := zcrc32;
     deflate_finish := zdeflate;
     read_sha1_file :=
       fun sha1 =>
         match sha1 with
         | x01 :: _ => Some (huge_ending x00)
         | _ => Some (huge_ending x01)
         end |}.

Definition fresh : mem := fun _ => xff.

Definition file_txt : list byte :=
  bytes_of [102; 105; 108; 101; 46; 116; 120; 116].
Definition dir_name : list byte := bytes_of [100; 105; 114].

(** The tree of the spec's scenario: directory "dir" holding "file.txt"
    with content "hello", mode 0100644. *)
Definition scenario : list entry :=
  [ {| e_sha1 := sha x09; e_base := []; e_filename := dir_name;
       e_mode := 16384 |};
    {| e_sha1 := sha x01; e_base := dir_name ++ [x2f];
       e_filename := file_txt; e_mode := 33188 |} ].

End Sample.

(** * Notions the properties are stated with *)

(** ** States, locals and what one call did *)

(** The statics hold values of their type, [unsigned int]. *)
Definition wf_state (s : zip_state) : Prop :=
  is_uint (zip_dir_size s) /\ is_uint (zip_offset s) /\
  is_uint (zip_dir_offset s) /\ is_uint (zip_dir_entries s).

(** The bytes line 253 writes. *)
Definition payload (l : locals) : list byte :=
  if compressed_size l >? 0
  then firstn (Z.to_nat (compressed_size l)) (out l)
  else [].

(** The capacity the directory record of [l] asks for at line 209. *)
Definition dir_need (l : locals) (s : zip_state) : Z :=
  ulong (zip_dir_offset s + ulong (sizeof_zip_dir_header + pathlen l)).

(** What lines 207-255 did when they are left at line 257. *)
Record appended (l : locals) (s s' : zip_state) : Prop := {
  ap_grow : grow_dir GROW_ROUNDS (zip_dir_size s) (dir_need l s)
            = Some (zip_dir_size s');
  ap_date : zip_date s' = zip_date s;
  ap_time : zip_time s' = zip_time s;
  ap_level : zlib_compression_level s' = zlib_compression_level s;
  ap_fd2 : fd2 s' = fd2 s;
  ap_dir :
    zip_dir s' =
    memcpy
      (memcpy (zip_dir s) (zip_dir_offset s)
         (dir_header_bytes
            (make_dirent (method l) (crc l) (compressed_size l)
               (uncompressed_size l) (pathlen l) s)))
      (uint (zip_dir_offset s + sizeof_zip_dir_header))
      (firstn (Z.to_nat (pathlen l)) (path l));
  ap_dir_offset :
    zip_dir_offset s' =
    uint (zip_dir_offset s + sizeof_zip_dir_header + pathlen l);
  ap_dir_entries : zip_dir_entries s' = uint (zip_dir_entries s + 1);
  ap_offset :
    zip_offset s' =
    uint (zip_offset s + sizeof_zip_local_header + pathlen l
          + Z.max 0 (compressed_size l));
  ap_fd1 :
    fd1 s' =
    fd1 s ++
    local_header_bytes
      (make_header (method l) (crc l) (compressed_size l)
         (uncompressed_size l) (pathlen l) s) ++
    firstn (Z.to_nat (pathlen l)) (path l) ++ payload l
}.

(** The directory buffer can take the record of a path of [n] bytes
    without the capacity counter wrapping. *)
Definition has_room (n : Z) (s : zip_state) : Prop :=
  zip_dir_offset s + sizeof_zip_dir_header + n
  <= 2 ^ 32 - ZIP_DIRECTORY_MIN_SIZE.

(** The capacity after [k] rounds of the loop. *)
Definition capacity_after (k : nat) (sz : Z) : Z :=
  Nat.iter k (fun x => uint (x + ZIP_DIRECTORY_MIN_SIZE)) sz.

(** ** Paths, contents and the ways lines 163-205 end *)

(** The full path of an entry and the content its CRC is taken of. *)
Definition full_path (base filename : list byte) (mode : Z) : list byte :=
  base ++ filename ++ (if S_ISDIR mode then [x2f] else []).

(** From limits.h. *)
Definition INT_MAX : Z := 2 ^ 31 - 1.

(** The lengths of lines 122-127 and the size of line 127 fit [int]:
    [strlen(filename)], [len] and [len + 1]. *)
Definition name_fits_int (base filename : list byte) (mode : Z) : Prop :=
  zlen (full_path base filename mode) < INT_MAX.

Definition entry_fits_int (e : entry) : Prop :=
  name_fits_int (e_base e) (e_filename e) (e_mode e).

Definition entry_content (C : collab) (sha1 : list byte) (mode : Z)
  : list byte :=
  if S_ISDIR mode then []
  else match read_sha1_file C sha1 with
       | Some buffer => buffer
       | None => []
       end.

(** The two ways lines 194-205 end for a regular file. *)
Inductive deflate_choice (C : collab) (level : Z) (buffer : list byte)
  : Z -> list byte -> Z -> Prop :=
| Deflated d :
    deflate_finish C level buffer (zlen buffer) = (Z_STREAM_END, d) ->
    ulong (zlen d - 6) < zlen buffer ->
    deflate_choice C level buffer 8 (skipn 2 d) (ulong (zlen d - 6))
| Stored :
    (forall d,
       deflate_finish C level buffer (zlen buffer) = (Z_STREAM_END, d) ->
       zlen buffer <= ulong (zlen d - 6)) ->
    deflate_choice C level buffer 0 buffer (zlen buffer).

(** What line 207 finds in the locals. *)
Inductive prepared_as (C : collab) (sha1 base filename : list byte)
  (mode level : Z)
  (l : locals) : Prop :=
| PreparedDir :
    S_ISDIR mode = true ->
    method l = 0 -> result l = READ_TREE_RECURSIVE -> out l = [] ->
    uncompressed_size l = 0 -> compressed_size l = 0 ->
    crc l = crc32 C 0 [] 0 ->
    prepared_as C sha1 base filename mode level l
| PreparedFile buffer :
    S_ISDIR mode = false -> S_ISREG mode = true ->
    read_sha1_file C sha1 = Some buffer ->
    result l = 0 ->
    uncompressed_size l = zlen buffer ->
    crc l = crc32 C (crc32 C 0 [] 0) buffer (uint (zlen buffer)) ->
    (level = 0 /\ method l = 0 /\ out l = buffer /\
     compressed_size l = zlen buffer \/
     level <> 0 /\
     deflate_choice C level buffer (method l) (out l) (compressed_size l)) ->
    prepared_as C sha1 base filename mode level l.

(** ** Reading the archive back *)

(** The local header a call wrote: the first 30 bytes it sent to the
    archive stream. *)
Definition local_header_of (s s' : zip_state) : list byte :=
  field (length (fd1 s)) 30 (fd1 s').

(** The directory record a call appended: the 46 bytes at the old end
    of the central directory. *)
Definition dir_record_of (s s' : zip_state) : list byte :=
  mem_read (zip_dir s') (zip_dir_offset s) 46.

(** Everything a call sent to the archive stream. *)
Definition emitted (s s' : zip_state) : list byte :=
  skipn (length (fd1 s)) (fd1 s').

(** The 22 bytes the finalizer writes after the central directory. *)
Definition trailer_of (sha1 : option (list byte)) (s : zip_state)
  : list byte :=
  field (length (fd1 s) + Z.to_nat (zip_dir_offset s)) 22
    (fd1 (write_zip_trailer sha1 s)).

(** What follows the trailer. *)
Definition comment_of (sha1 : option (list byte)) (s : zip_state)
  : list byte :=
  skipn (length (fd1 s) + Z.to_nat (zip_dir_offset s) + 22)
    (fd1 (write_zip_trailer sha1 s)).

Definition is_lower_hex (b : byte) : bool :=
  let v := byte_val b in
  ((48 <=? v) && (v <=? 57)) || ((97 <=? v) && (v <=? 102)).

(** ** Skipped entries, runs and what a build shows *)

(** The archive state a skipped entry leaves alone. *)
Definition same_archive (s s' : zip_state) : Prop :=
  zip_offset s' = zip_offset s /\
  zip_dir_offset s' = zip_dir_offset s /\
  zip_dir_entries s' = zip_dir_entries s /\
  zip_dir_size s' = zip_dir_size s /\
  zip_dir s' = zip_dir s /\
  fd1 s' = fd1 s.

(** The calls of a run that encoded their entry. *)
Definition successes (rs : list Z) : Z :=
  zlen (filter (fun r => negb (r =? -1)) rs).

(** The cursor is the length of the archive stream, as far as 32 bits
    can tell. *)
Definition offset_inv (s : zip_state) : Prop :=
  wf_state s /\ zip_offset s = zlen (fd1 s) mod 2 ^ 32.

(** Every directory record takes at least 46 bytes of the buffer. *)
Definition dir_inv (s : zip_state) : Prop :=
  wf_state s /\
  sizeof_zip_dir_header * zip_dir_entries s <= zip_dir_offset s.

(** What a run shows to the outside: how it ended, the archive stream
    and the diagnostics. *)
Inductive ending : Type :=
| Returned (r : Z)
| Exited
| Hung.

Definition observe (o : outcome) : ending * list byte * list diag :=
  match o with
  | Ret r s => (Returned r, fd1 s, fd2 s)
  | Die s => (Exited, fd1 s, fd2 s)
  | Loop s => (Hung, fd1 s, fd2 s)
  end.

(** Two states that differ at most in the bytes of the directory buffer
    that were never written. *)
Definition same_written (s1 s2 : zip_state) : Prop :=
  s2 = set_zip_dir (zip_dir s2) s1 /\
  forall i, 0 <= i < zip_dir_offset s1 -> zip_dir s1 i = zip_dir s2 i.

Inductive same_outcome : outcome -> outcome -> Prop :=
| SameRet r s1 s2 :
    wf_state s1 -> same_written s1 s2 -> same_outcome (Ret r s1) (Ret r s2)
| SameDie s1 s2 :
    same_written s1 s2 -> same_outcome (Die s1) (Die s2)
| SameLoop s1 s2 :
    same_written s1 s2 -> same_outcome (Loop s1) (Loop s2).

(** ** Sample runs *)

(** The state a build starts in and the states after the entries of
    the sample tree. *)
Definition sample_start (level : Z) : zip_state :=
  initial_state Sample.fresh level 100 200.

Definition state_of (o : outcome) : zip_state :=
  match o with
  | Ret _ s' => s'
  | Die s' => s'
  | Loop s' => s'
  end.

(** The state after "file.txt" with content "hello" was archived at
    level 6, where deflate does not pay. *)
Definition hello_written : zip_state :=
  state_of (write_zip_entry Sample.git (Sample.sha x01) []
              Sample.file_txt 33188 0 (sample_start 6)).




(** The directory number [i], named by four hexadecimal digits. *)
Definition numbered_dir (i : nat) : entry :=
  let n := Z.of_nat i in
  {| e_sha1 := Sample.sha x09; e_base := [];
     e_filename :=
       [hex_digit (Z.shiftr n 12 mod 16); hex_digit (Z.shiftr n 8 mod 16);
        hex_digit (Z.shiftr n 4 mod 16); hex_digit (n mod 16)];
     e_mode := 16384 |}.

Definition many_dirs (n : Z) : list entry :=
  map numbered_dir (seq 0 (Z.to_nat n)).

Definition short_dir (e : entry) : Prop :=
  S_ISDIR (e_mode e) = true /\
  zlen (full_path (e_base e) (e_filename e) (e_mode e)) <= 16.

(** ** DOS dates and times, read back *)

(** What [localtime] promises of a [struct tm] (C89 allows 61 seconds),
    with a year for which line 289 stays within [int]. *)
Definition valid_tm (t : tm) : Prop :=
  0 <= tm_sec t <= 61 /\ 0 <= tm_min t <= 59 /\ 0 <= tm_hour t <= 23 /\
  1 <= tm_mday t <= 31 /\ 0 <= tm_mon t <= 11 /\
  -2097152 <= tm_year t <= 2097152.

(** The parts of a 16-bit DOS date and of a 16-bit DOS time. *)
Definition dos_day (date : Z) : Z := date mod 32.
Definition dos_month (date : Z) : Z := (date / 32) mod 16.
Definition dos_year (date : Z) : Z := 1980 + date / 512.
Definition dos_second (time : Z) : Z := 2 * (time mod 32).
Definition dos_minute (time : Z) : Z := (time / 32) mod 64.
Definition dos_hour (time : Z) : Z := time / 2048.

(** Calendar order of two broken-down times. *)
Definition tm_key (t : tm) : list Z :=
  [tm_year t; tm_mon t; tm_mday t; tm_hour t; tm_min t; tm_sec t].

Fixpoint lex_le (a b : list Z) : Prop :=
  match a, b with
  | x :: a', y :: b' => x < y \/ (x = y /\ lex_le a' b')
  | _, _ => True
  end.

(** The date and the time as the headers hold them (lines 219-220 and
    241-242), and the 32-bit DOS timestamp, date above time. *)
Definition stored_date (t : tm) : Z := le_value (copy_le16 (fst (dos_time t))).
Definition stored_time (t : tm) : Z := le_value (copy_le16 (snd (dos_time t))).

Definition dos_stamp (t : tm) : Z :=
  stored_date t * 2 ^ 16 + stored_time t.

(** The years a DOS date has room for, as [tm_year] counts them. *)
Definition dos_era (t : tm) : Prop := 80 <= tm_year t <= 207.

Definition noon_2006 : tm :=
  {| tm_sec := 59; tm_min := 30; tm_hour := 13;
     tm_mday := 24; tm_mon := 7; tm_year := 106 |}.

Definition epoch : tm :=
  {| tm_sec := 0; tm_min := 0; tm_hour := 0;
     tm_mday := 1; tm_mon := 0; tm_year := 70 |}.

Definition millennium : tm :=
  {| tm_sec := 0; tm_min := 0; tm_hour := 0;
     tm_mday := 1; tm_mon := 0; tm_year := 100 |}.

(** ** The directory buffer *)

(** The capacity is a whole number of steps, the records fit in it, and
    it is no more than one step ahead of them once it has grown. *)
Definition buffer_inv (s : zip_state) : Prop :=
  wf_state s /\
  zip_dir_offset s <= zip_dir_size s /\
  exists k, 1 <= k /\ zip_dir_size s = k * ZIP_DIRECTORY_MIN_SIZE /\
            (1 < k -> zip_dir_size s - ZIP_DIRECTORY_MIN_SIZE < zip_dir_offset s).

(** A state whose central directory ends 40 bytes below the last
    capacity the counter can hold. *)
Definition nearly_full : zip_state :=
  {| zip_date := 100; zip_time := 200;
     zip_dir := Sample.fresh;
     zip_dir_size := 2 ^ 32 - ZIP_DIRECTORY_MIN_SIZE;
     zip_offset := 0;
     zip_dir_offset := 2 ^ 32 - ZIP_DIRECTORY_MIN_SIZE - 40;
     zip_dir_entries := 70000;
     zlib_compression_level := 0;
     fd1 := []; fd2 := [] |}.

(** ** A reader of the archive

    The archive is read the way the format asks for: the trailer is
    looked for from the end, it tells where the central directory is and
    how many records it has, and every record leads to a local header
    and to the data behind it. *)

(** The [len] bytes of [a] from offset [off] on. *)
Definition slice (off len : Z) (a : list byte) : list byte :=
  firstn (Z.to_nat len) (skipn (Z.to_nat off) a).

Record member : Type := {
  m_name : list byte;
  m_method : Z;
  m_time : Z;
  m_date : Z;
  m_crc : Z;
  m_size : Z;
  m_data : list byte
}.

(** One record of the central directory at the head of [dir]: the
    member it describes and the bytes the record takes.  The local
    header has to repeat the record and the name, and the data has to be
    there. *)
Definition read_record (a dir : list byte) : option (member * Z) :=
  let namelen := field_value 28 2 dir in
  let offset := field_value 42 4 dir in
  let lh := slice offset 30 a in
  let name := slice 46 namelen dir in
  let start := offset + 30 + field_value 26 2 lh + field_value 28 2 lh in
  let data := slice start (field_value 20 4 dir) a in
  if (field_value 0 4 dir =? 0x02014b50)
     && (field_value 0 4 lh =? 0x04034b50)
     && Sample.bytes_eqb (field 4 26 lh) (field 6 26 dir)
     && Sample.bytes_eqb (slice (offset + 30) namelen a) name
     && (zlen name =? namelen)
     && (zlen data =? field_value 20 4 dir)
  then Some ({| m_name := name;
                m_method := field_value 10 2 dir;
                m_time := field_value 12 2 dir;
                m_date := field_value 14 2 dir;
                m_crc := field_value 16 4 dir;
                m_size := field_value 24 4 dir;
                m_data := data |},
             46 + namelen + field_value 30 2 dir + field_value 32 2 dir)
  else None.

Fixpoint read_directory (a : list byte) (n : nat) (dir : list byte)
  : option (list member) :=
  match n with
  | O => Some []
  | S n' =>
    match read_record a dir with
    | Some (m, used) =>
      match read_directory a n' (skipn (Z.to_nat used) dir) with
      | Some ms => Some (m :: ms)
      | None => None
      end
    | None => None
    end
  end.

(** The 22 bytes that are the trailer if the comment has [k] bytes. *)
Definition trailer_at (k : Z) (a : list byte) : list byte :=
  slice (zlen a - 22 - k) 22 a.

Definition is_trailer (k : Z) (a : list byte) : bool :=
  (0 <=? zlen a - 22 - k)
  && (field_value 0 4 (trailer_at k a) =? 0x06054b50)
  && (field_value 20 2 (trailer_at k a) =? k).

(** The shortest comment, from [k] bytes on, that has a trailer in
    front of it. *)
Fixpoint find_trailer (n : nat) (k : Z) (a : list byte) : option Z :=
  match n with
  | O => None
  | S n' => if is_trailer k a then Some k else find_trailer n' (k + 1) a
  end.

(** The members and the comment of an archive. *)
Definition unzip (a : list byte) : option (list member * list byte) :=
  match find_trailer (Z.to_nat 65536) 0 a with
  | None => None
  | Some k =>
    let t := trailer_at k a in
    match read_directory a (Z.to_nat (field_value 10 2 t))
            (slice (field_value 16 4 t) (field_value 12 4 t) a) with
    | Some ms => Some (ms, slice (zlen a - k) k a)
    | None => None
    end
  end.

(** ** What a build puts into the archive *)

(** The member the locals of line 207 describe. *)
Definition member_of (date time : Z) (l : locals) : member :=
  {| m_name := path l;
     m_method := method l;
     m_time := time mod 2 ^ 16;
     m_date := date mod 2 ^ 16;
     m_crc := crc l;
     m_size := uncompressed_size l mod 2 ^ 32;
     m_data := payload l |}.

(** The members of the entries that get as far as line 207. *)
Fixpoint archived (C : collab) (level date time : Z) (es : list entry)
  : list member :=
  match es with
  | [] => []
  | e :: es' =>
    match prepare_entry C (e_sha1 e) (e_base e) (e_filename e) (e_mode e)
            level with
    | Encode l => member_of date time l :: archived C level date time es'
    | _ => archived C level date time es'
    end
  end.

(** The entries that get as far as line 207 and past the loop: the path
    fits, and the entry is a directory or a regular file whose blob can
    be read. *)
Definition encodable (C : collab) (e : entry) : bool :=
  (zlen (full_path (e_base e) (e_filename e) (e_mode e)) <=? 65535)
  && (S_ISDIR (e_mode e)
      || (S_ISREG (e_mode e)
          && match read_sha1_file C (e_sha1 e) with
             | Some _ => true
             | None => false
             end)).

(** The sizes of an entry that the code holds in narrower types fit
    them: the lengths of the name fit [int], and the content is shorter
    than 2^32 bytes, so that the [uInt] lengths of zlib hold its size. *)
Definition entry_in_bounds (C : collab) (e : entry) : Prop :=
  entry_fits_int e /\
  zlen (entry_content C (e_sha1 e) (e_mode e)) < 2 ^ 32.

(** What a member tells of the entry it was made from: the path, the
    timestamp of the build, the size and the checksum of the content,
    and the content itself, as it is or as the inside of the zlib
    stream [deflate] made of it. *)
Definition describes (C : collab) (level date time : Z) (e : entry)
    (m : member) : Prop :=
  let content := entry_content C (e_sha1 e) (e_mode e) in
  m_name m = full_path (e_base e) (e_filename e) (e_mode e) /\
  m_date m = date mod 2 ^ 16 /\ m_time m = time mod 2 ^ 16 /\
  m_size m = zlen content /\
  m_crc m = crc32 C 0 content (zlen content) /\
  (m_method m = 0 /\ m_data m = content \/
   m_method m = 8 /\ level <> 0 /\ zlen (m_data m) < zlen content /\
   exists hd tl,
     deflate_finish C level content (zlen content)
       = (Z_STREAM_END, hd ++ m_data m ++ tl) /\
     length hd = 2%nat /\ length tl = 4%nat).

(** The descriptor of line 340, for a base that is not empty. *)
Definition base_entry (tree_sha1 base : list byte) : list entry :=
  if zlen base >? 0
  then [ {| e_sha1 := tree_sha1; e_base := []; e_filename := base;
            e_mode := 16895 |} ]
  else [].

(** The bytes of the central directory written so far. *)
Definition dir_bytes (s : zip_state) : list byte :=
  mem_read (zip_dir s) 0 (Z.to_nat (zip_dir_offset s)).

(** ** The command (lines 293-353) *)

(** What [cmd_zip_tree] asks of the repository, the clock and the
    allocator; none of it is defined in this file. *)
Record repo : Type := {
  (** [zlib_compression_level] after [git_config(git_default_config)] *)
  configured_level : Z;
  (** [get_sha1(name, sha1)]: the digest, [None] for a nonzero result *)
  get_sha1 : list byte -> option (list byte);
  (** [lookup_commit_reference_gently(sha1, 1)]: the digest and the
      date of the commit found, [None] for a null pointer *)
  lookup_commit_reference_gently : list byte -> option (list byte * Z);
  (** [time(NULL)] *)
  time_now : Z;
  (** [localtime(time)]: the broken-down time, [None] for a null
      pointer *)
  localtime : Z -> option tm;
  (** [parse_tree_indirect(sha1)]: the digest of the tree, [None] for a
      null pointer *)
  parse_tree_indirect : list byte -> option (list byte);
  (** the descriptors the walker hands to the callback for a tree and a
      base, in the order of [read_tree_recursive] above *)
  tree_entries : list byte -> list byte -> list entry;
  (** what the block of [xmalloc] holds *)
  fresh_block : mem
}.

(** The ways the command ends before it writes: [usage], the two calls
    of [die] of lines 326 and 337, and [dos_time] reading through the
    null pointer of a [localtime] that failed (lines 286-289), where
    the behaviour is undefined. *)
Inductive fatal : Type :=
| Usage
| NotAValidObjectName (name : list byte)
| LocaltimeFailed
| NotATreeObject.

(** [s[i]] for a C string, whose bytes are followed by a NUL. *)
Definition char_at (s : list byte) (i : nat) : byte := nth i s x00.

(** From ctype.h, in the C locale. *)
Definition isdigit (c : byte) : bool :=
  (48 <=? byte_val c) && (byte_val c <=? 57).

(** Lines 304-310: the level and what is left of [argv]. *)
Definition parse_level (R : repo) (argv : list (list byte))
  : Z * list (list byte) :=
  let argc := zlen argv in
  if (argc >? 1) && (byte_val (char_at (nth 1 argv []) 0) =? 45) then
    if isdigit (char_at (nth 1 argv []) 1)
       && (byte_val (char_at (nth 1 argv []) 2) =? 0)
    then (byte_val (char_at (nth 1 argv []) 1) - 48, tl argv)
    else (configured_level R, argv)
  else (configured_level R, argv).

Section Command.

Variable C : collab.

(** Lines 325-352, for the name [argv[1]] and the base of lines
    313-320.  The base the walker gets ends in a slash. *)
Definition archive_named (R : repo) (level : Z) (name base : list byte)
  : fatal + outcome :=
  match get_sha1 R name with
  | None => inl (NotAValidObjectName name)
  | Some sha1 =>
    let commit := lookup_commit_reference_gently R sha1 in
    let archive_time :=
      match commit with
      | Some (_, date) => date
      | None => time_now R
      end in
    match localtime R archive_time with
    | None => inl LocaltimeFailed
    | Some t =>
      let '(date, time) := dos_time t in
      match parse_tree_indirect R sha1 with
      | None => inl NotATreeObject
      | Some tree =>
        inr (zip_tree C (fresh_block R) level date time tree base
               (tree_entries R tree
                  (if zlen base >? 0 then base ++ [x2f] else base))
               (match commit with
                | Some (commit_sha1, _) => Some commit_sha1
                | None => None
                end))
      end
    end
  end.

(** Lines 293-353. *)
Definition cmd_zip_tree (R : repo) (argv : list (list byte))
  : fatal + outcome :=
  let '(level, argv) := parse_level R argv in
  let argc := zlen argv in
  if argc =? 3 then archive_named R level (nth 1 argv []) (nth 2 argv [])
  else if argc =? 2 then archive_named R level (nth 1 argv []) []
  else inl Usage.

End Command.

(** The level a command-line word asks for: a dash and one digit. *)
Definition level_of (word : list byte) : option Z :=
  match word with
  | [dash; d] =>
      if (byte_val dash =? 45) && isdigit d then Some (byte_val d - 48)
      else None
  | _ => None
  end.

(** A C string holds no NUL. *)
Definition c_string (s : list byte) : Prop := ~ In x00 s.

(** A repository for concrete runs: every name leads to one commit of
    24 August 2006 whose tree is the sample tree, put under the base. *)
Definition sample_repo : repo :=
  {| configured_level := -1;
     get_sha1 := fun _ => Some (Sample.sha x0b);
     lookup_commit_reference_gently :=
       fun _ => Some (Sample.sha x0a, 1156426259);
     time_now := 0;
     localtime := fun _ => Some noon_2006;
     parse_tree_indirect := fun _ => Some (Sample.sha x07);
     tree_entries :=
       fun _ base =>
         map (fun e => {| e_sha1 := e_sha1 e; e_base := base ++ e_base e;
                          e_filename := e_filename e; e_mode := e_mode e |})
           Sample.scenario;
     fresh_block := Sample.fresh |}.

(** "git-zip-tree", "-9", "HEAD" and "b" *)
Definition word_cmd : list byte :=
  Sample.bytes_of [103; 105; 116; 45; 122; 105; 112; 45; 116; 114; 101; 101].
Definition word_9 : list byte := Sample.bytes_of [45; 57].
Definition word_HEAD : list byte := Sample.bytes_of [72; 69; 65; 68].
Definition word_b : list byte := Sample.bytes_of [98].

(** ** Builds that encode nothing, stores that agree *)

(** The entries lines 163-190 send to [out] without a record. *)
Definition skipped (e : entry) : Prop :=
  65535 < zlen (full_path (e_base e) (e_filename e) (e_mode e)) \/
  S_ISDIR (e_mode e) = false /\ S_ISREG (e_mode e) = false.

(** The archive without members: the trailer with zero counts, and the
    comment. *)
Definition empty_archive (commit : option (list byte)) : list byte :=
  copy_le32 0x06054b50 ++ repeat x00 16 ++
  match commit with
  | Some h => copy_le16 40 ++ firstn 40 (sha1_to_hex h)
  | None => copy_le16 0
  end.

(** Two sets of collaborators that differ at most in [deflate]. *)
Definition same_store (C1 C2 : collab) : Prop :=
  (forall c buf n, crc32 C1 c buf n = crc32 C2 c buf n) /\
  (forall sha1, read_sha1_file C1 sha1 = read_sha1_file C2 sha1).

(** A symbolic link "lnk". *)
Definition sample_link : entry :=
  {| e_sha1 := Sample.sha x01; e_base := [];
     e_filename := Sample.bytes_of [108; 110; 107]; e_mode := 40960 |}.

(** A regular file "file.txt" whose blob the sample store does not
    have. *)
Definition lost_file : entry :=
  {| e_sha1 := Sample.sha x09; e_base := [];
     e_filename := Sample.file_txt; e_mode := 33188 |}.

(** The state a command ends in. *)
Definition built (x : fatal + outcome) : zip_state :=
  match x with
  | inr o => state_of o
  | inl _ => sample_start 0
  end.

(** * Properties *)

(** ** Integers and bytes *)

Lemma uint_range n : 0 <= uint n < 2 ^ 32.
Proof. unfold uint, UINT_BITS. apply Z.mod_pos_bound. lia. Qed.

Lemma ulong_range n : 0 <= ulong n < 2 ^ 64.
Proof. unfold ulong, ULONG_BITS. apply Z.mod_pos_bound. lia. Qed.

Lemma uint_small n : 0 <= n < 2 ^ 32 -> uint n = n.
Proof. intros. unfold uint, UINT_BITS. apply Z.mod_small. lia. Qed.

Lemma ulong_small n : 0 <= n < 2 ^ 64 -> ulong n = n.
Proof. intros. unfold ulong, ULONG_BITS. apply Z.mod_small. lia. Qed.

Lemma uint_ulong n : uint (ulong n) = uint n.
Proof.
  unfold uint, ulong, UINT_BITS, ULONG_BITS.
  apply Z.mod_mod_divide. exists (2 ^ 32). reflexivity.
Qed.

Lemma uint_add_l a b : uint (uint a + b) = uint (a + b).
Proof. unfold uint. apply Zplus_mod_idemp_l. Qed.

Lemma byte_val_uchar z : byte_val (uchar z) = z mod 256.
Proof.
  unfold uchar, byte_val.
  assert (R : 0 <= z mod 256 < 256) by (apply Z.mod_pos_bound; lia).
  destruct (Byte.of_N (Z.to_N (z mod 256))) as [b|] eqn:E.
  - apply Byte.to_of_N in E. rewrite E. apply Z2N.id. lia.
  - apply Byte.of_N_None_iff in E. lia.
Qed.

Lemma land_255 n : Z.land 255 n = n mod 256.
Proof. rewrite Z.land_comm. apply (Z.land_ones n 8). lia. Qed.

(** A reader gets back the value written, reduced to the width of the
    field. *)
Lemma le_value_copy_le16 n : le_value (copy_le16 n) = n mod 2 ^ 16.
Proof.
  unfold copy_le16. cbn [le_value].
  rewrite !byte_val_uchar, !land_255, !Z.mod_mod by lia.
  rewrite Z.shiftr_div_pow2 by lia.
  pose proof (uint_range n) as R. unfold uint, UINT_BITS in *.
  set (m := n mod 2 ^ 32) in *.
  assert (E : n mod 2 ^ 16 = m mod 2 ^ 16).
  { subst m. symmetry. apply Z.mod_mod_divide.
    exists (2 ^ 16). reflexivity. }
  rewrite E.
  change (2 ^ 16) with (256 * 256). rewrite Z.rem_mul_r by lia.
  change (2 ^ 8) with 256. lia.
Qed.

Lemma le_value_copy_le32 n : le_value (copy_le32 n) = n mod 2 ^ 32.
Proof.
  unfold copy_le32. cbn [le_value].
  rewrite !byte_val_uchar, !land_255, !Z.mod_mod by lia.
  rewrite !Z.shiftr_div_pow2 by lia.
  pose proof (uint_range n) as R. unfold uint, UINT_BITS in *.
  set (m := n mod 2 ^ 32) in *.
  change (2 ^ 8) with 256. change (2 ^ 16) with (256 * 256).
  change (2 ^ 24) with (256 * 256 * 256).
  rewrite <- !Z.div_div by lia.
  pose proof (Z.div_mod m 256 ltac:(lia)) as E0.
  pose proof (Z.div_mod (m / 256) 256 ltac:(lia)) as E1.
  pose proof (Z.div_mod (m / 256 / 256) 256 ltac:(lia)) as E2.
  assert (S3 : m / 256 / 256 / 256 < 256).
  { rewrite !Z.div_div by lia. apply Z.div_lt_upper_bound; lia. }
  assert (P3 : 0 <= m / 256 / 256 / 256).
  { repeat apply Z.div_pos; lia. }
  rewrite (Z.mod_small (m / 256 / 256 / 256)) by lia.
  lia.
Qed.

(** ** Lists and memory blocks *)

Lemma zlen_nonneg {A} (l : list A) : 0 <= zlen l.
Proof. unfold zlen. lia. Qed.

Lemma zlen_app {A} (a b : list A) : zlen (a ++ b) = zlen a + zlen b.
Proof. unfold zlen. rewrite length_app. lia. Qed.

Lemma firstn_zlen {A} (l : list A) : firstn (Z.to_nat (zlen l)) l = l.
Proof. unfold zlen. rewrite Nat2Z.id. apply firstn_all. Qed.

Lemma mem_read_length m off n : length (mem_read m off n) = n.
Proof. unfold mem_read. rewrite length_map, length_seq. reflexivity. Qed.

Lemma mem_read_ext m1 m2 off n :
  (forall i, off <= i < off + Z.of_nat n -> m1 i = m2 i) ->
  mem_read m1 off n = mem_read m2 off n.
Proof.
  intros H. unfold mem_read. apply map_ext_in.
  intros k Hk. apply in_seq in Hk. apply H. lia.
Qed.

Lemma memcpy_outside m off src i :
  i < off \/ off + zlen src <= i -> memcpy m off src i = m i.
Proof.
  intros H. unfold memcpy.
  destruct (off <=? i) eqn:E1; destruct (i <? off + zlen src) eqn:E2;
    cbn; try reflexivity; lia.
Qed.

Lemma memcpy_inside m off src i :
  off <= i < off + zlen src ->
  memcpy m off src i = nth (Z.to_nat (i - off)) src x00.
Proof.
  intros H. unfold memcpy.
  destruct (off <=? i) eqn:E1; destruct (i <? off + zlen src) eqn:E2;
    cbn; try reflexivity; lia.
Qed.

Lemma mem_read_memcpy m off src :
  mem_read (memcpy m off src) off (length src) = src.
Proof.
  apply nth_ext with (d := x00) (d' := x00).
  - apply mem_read_length.
  - intros k Hk. rewrite mem_read_length in Hk.
    unfold mem_read.
    rewrite (nth_indep _ x00 ((fun j => memcpy m off src (off + Z.of_nat j)) 0%nat))
      by (rewrite length_map, length_seq; exact Hk).
    rewrite (map_nth (fun j => memcpy m off src (off + Z.of_nat j))).
    rewrite seq_nth by exact Hk. cbn [Nat.add].
    rewrite memcpy_inside by (unfold zlen; lia).
    f_equal. lia.
Qed.

Lemma mem_read_memcpy_disjoint m off src a n :
  a + Z.of_nat n <= off \/ off + zlen src <= a ->
  mem_read (memcpy m off src) a n = mem_read m a n.
Proof.
  intros H. apply mem_read_ext. intros i Hi.
  apply memcpy_outside. lia.
Qed.

(** ** The growth loop of the directory buffer *)

Lemma grow_dir_ge r : forall sz need sz',
  grow_dir r sz need = Some sz' -> need <= sz'.
Proof.
  induction r as [|r IH]; intros sz need sz'; cbn [grow_dir];
    destruct (sz <? need) eqn:E; intros H; try discriminate.
  - injection H as <-. lia.
  - eapply IH; eassumption.
  - injection H as <-. lia.
Qed.

Lemma grow_dir_uint r : forall sz need sz',
  is_uint sz -> grow_dir r sz need = Some sz' -> is_uint sz'.
Proof.
  induction r as [|r IH]; intros sz need sz' U; cbn [grow_dir];
    destruct (sz <? need) eqn:E; intros H; try discriminate.
  - injection H as <-. exact U.
  - eapply IH; [|eassumption]. apply uint_range.
  - injection H as <-. exact U.
Qed.

Lemma grow_dir_reaches r : forall sz need,
  0 <= sz -> need <= 2 ^ 32 - ZIP_DIRECTORY_MIN_SIZE ->
  need <= sz + Z.of_nat r * ZIP_DIRECTORY_MIN_SIZE ->
  exists sz', grow_dir r sz need = Some sz'.
Proof.
  unfold ZIP_DIRECTORY_MIN_SIZE.
  induction r as [|r IH]; intros sz need P B R; cbn [grow_dir];
    destruct (sz <? need) eqn:E; eauto.
  - lia.
  - apply IH; try rewrite uint_small; unfold ZIP_DIRECTORY_MIN_SIZE; lia.
Qed.

(** Below the last capacity the counter can hold, the loop exits. *)
Lemma grow_dir_terminates sz need :
  0 <= sz -> need <= 2 ^ 32 - ZIP_DIRECTORY_MIN_SIZE ->
  exists sz', grow_dir GROW_ROUNDS sz need = Some sz'.
Proof.
  intros P B. apply grow_dir_reaches; try assumption.
  unfold GROW_ROUNDS, ZIP_DIRECTORY_MIN_SIZE in *. lia.
Qed.

Lemma capacity_after_succ k sz :
  capacity_after k (uint (sz + ZIP_DIRECTORY_MIN_SIZE)) =
  capacity_after (S k) sz.
Proof. unfold capacity_after. rewrite Nat.iter_succ_r. reflexivity. Qed.

Lemma grow_dir_None r : forall sz need,
  grow_dir r sz need = None <->
  (forall k, (k <= r)%nat -> capacity_after k sz < need).
Proof.
  induction r as [|r IH]; intros sz need; cbn [grow_dir];
    destruct (sz <? need) eqn:E; split; intros H; try discriminate.
  - intros k Hk. assert (k = 0%nat) as -> by lia. cbn. lia.
  - reflexivity.
  - specialize (H 0%nat ltac:(lia)). cbn in H. lia.
  - intros [|k] Hk; [cbn; lia|].
    rewrite <- capacity_after_succ. apply IH; [assumption | lia].
  - apply IH. intros k Hk. rewrite capacity_after_succ. apply H. lia.
  - specialize (H 0%nat ltac:(lia)). cbn in H. lia.
Qed.

Lemma capacity_after_closed k sz :
  capacity_after (S k) sz =
  uint (sz + Z.of_nat (S k) * ZIP_DIRECTORY_MIN_SIZE).
Proof.
  induction k as [|k IH].
  - unfold capacity_after. cbn [Nat.iter].
    change (Z.of_nat 1) with 1. rewrite Z.mul_1_l. reflexivity.
  - change (capacity_after (S (S k)) sz)
      with (uint (capacity_after (S k) sz + ZIP_DIRECTORY_MIN_SIZE)).
    rewrite IH, uint_add_l. f_equal. lia.
Qed.

Lemma capacity_after_period k sz :
  capacity_after (S k + GROW_ROUNDS) sz = capacity_after (S k) sz.
Proof.
  change (S k + GROW_ROUNDS)%nat with (S (k + GROW_ROUNDS)).
  rewrite !capacity_after_closed.
  unfold uint, UINT_BITS, GROW_ROUNDS, ZIP_DIRECTORY_MIN_SIZE.
  replace (sz + Z.of_nat (S (k + 4096)) * (1024 * 1024))
    with (sz + Z.of_nat (S k) * (1024 * 1024) + 1 * 2 ^ 32) by lia.
  apply Z.mod_add. lia.
Qed.

(** [GROW_ROUNDS] rounds are enough: when they are used up the loop of
    lines 209-212 never exits, whatever the number of rounds. *)
Lemma grow_dir_rounds_enough sz need :
  grow_dir GROW_ROUNDS sz need = None ->
  forall r, grow_dir r sz need = None.
Proof.
  intros H r. apply grow_dir_None. intros k _.
  pose proof (proj1 (grow_dir_None _ _ _) H) as B. clear H.
  induction k as [k IH] using lt_wf_ind.
  destruct (le_lt_dec k GROW_ROUNDS) as [L|L]; [apply B; exact L|].
  assert (E : k = (S (k - GROW_ROUNDS - 1) + GROW_ROUNDS)%nat).
  { unfold GROW_ROUNDS in *. lia. }
  rewrite E, capacity_after_period. apply IH.
  unfold GROW_ROUNDS in *. lia.
Qed.

(** ** One call of the encoder *)

Ltac state_simpl :=
  cbn [zip_date zip_time zip_dir zip_dir_size zip_offset zip_dir_offset
       zip_dir_entries zlib_compression_level fd1 fd2
       set_zip_dir_size set_zip_dir set_zip_dir_offset set_zip_dir_entries
       set_zip_offset write_or_die error].

Lemma uint_add3 a b c : uint (uint a + b + c) = uint (a + b + c).
Proof.
  replace (uint a + b + c) with (uint a + (b + c)) by lia.
  rewrite uint_add_l. f_equal. lia.
Qed.

Lemma append_entry_Ret l s r s' :
  append_entry l s = Ret r s' -> r = result l /\ appended l s s'.
Proof.
  unfold append_entry. fold (dir_need l s).
  destruct (grow_dir GROW_ROUNDS (zip_dir_size s) (dir_need l s))
    as [dsz|] eqn:G; [|discriminate].
  intros H. injection H as <- <-. split; [reflexivity|].
  rewrite Z.gtb_ltb.
  destruct (Z.ltb_spec 0 (compressed_size l)) as [E|E];
    (constructor; [exact G | ..]);
    unfold payload, make_header, make_dirent; rewrite ?Z.gtb_ltb;
    try (destruct (Z.ltb_spec 0 (compressed_size l)); [|lia]);
    try (destruct (Z.ltb_spec 0 (compressed_size l)); [lia|]);
    state_simpl; try reflexivity;
    rewrite ?uint_ulong, ?uint_add_l, ?uint_add3,
      ?app_nil_r, <- ?app_assoc;
    try reflexivity; try (f_equal; lia).
Qed.

(** A call is given up as never returning only when the loop of lines
    209-212 exits for no number of rounds. *)
Lemma append_entry_Loop l s s' :
  append_entry l s = Loop s' ->
  s' = s /\
  forall rounds, grow_dir rounds (zip_dir_size s) (dir_need l s) = None.
Proof.
  unfold append_entry. fold (dir_need l s).
  destruct (grow_dir GROW_ROUNDS (zip_dir_size s) (dir_need l s)) eqn:G;
    [discriminate|].
  intros [= <-]. split; [reflexivity|].
  apply grow_dir_rounds_enough. exact G.
Qed.

Lemma append_entry_not_Die l s s' : append_entry l s <> Die s'.
Proof.
  unfold append_entry.
  destruct (grow_dir _ _ _); discriminate.
Qed.

(** Lines 207-255 either run to the end or stay in the loop. *)
Lemma append_entry_cases l s :
  (exists s', append_entry l s = Ret (result l) s' /\ appended l s s') \/
  (append_entry l s = Loop s /\
   grow_dir GROW_ROUNDS (zip_dir_size s) (dir_need l s) = None).
Proof.
  destruct (append_entry l s) as [r s'|s'|s'] eqn:E.
  - left. exists s'. apply append_entry_Ret in E as [-> A]. auto.
  - exfalso. exact (append_entry_not_Die _ _ _ E).
  - right. apply append_entry_Loop in E as [-> G]. auto.
Qed.

(** With room left below the last capacity, lines 207-255 run to the
    end. *)
Lemma append_entry_returns l s :
  0 <= zip_dir_size s ->
  dir_need l s <= 2 ^ 32 - ZIP_DIRECTORY_MIN_SIZE ->
  exists s', append_entry l s = Ret (result l) s'.
Proof.
  intros P B.
  destruct (grow_dir_terminates _ _ P B) as [dsz G].
  unfold append_entry. fold (dir_need l s). rewrite G. eauto.
Qed.

Section Prepare.

Variable C : collab.

Lemma construct_path_len base filename isdir :
  snd (construct_path base filename isdir) =
  zlen (fst (construct_path base filename isdir)).
Proof.
  unfold construct_path. cbn [fst snd].
  rewrite !zlen_app. destruct isdir; unfold zlen; cbn [length]; lia.
Qed.

Lemma construct_path_full base filename mode :
  construct_path base filename (S_ISDIR mode) =
  (full_path base filename mode, zlen (full_path base filename mode)).
Proof.
  rewrite (surjective_pairing (construct_path _ _ _)).
  rewrite construct_path_len. reflexivity.
Qed.

Lemma try_deflate_method0 level buffer size o cs :
  try_deflate C level 0 buffer size o cs = (0, o, cs).
Proof. reflexivity. Qed.

Lemma try_deflate_method8 level buffer m o cs :
  try_deflate C level 8 buffer (zlen buffer) buffer (zlen buffer)
    = (m, o, cs) ->
  deflate_choice C level buffer m o cs.
Proof.
  unfold try_deflate, zlib_deflate. cbn [Z.eqb Pos.eqb].
  destruct (deflate_finish C level buffer (zlen buffer)) as [r d] eqn:D.
  destruct (r =? Z_STREAM_END) eqn:R; cbn [negb].
  - apply Z.eqb_eq in R. subst r.
    destruct (Z.ltb_spec (ulong (zlen d - 6)) (zlen buffer)) as [L|L];
      intros H; injection H as <- <- <-.
    + apply Deflated; assumption.
    + apply Stored. intros d' Hd. rewrite D in Hd.
      injection Hd as <-. exact L.
  - intros H. injection H as <- <- <-.
    apply Stored. intros d' Hd. rewrite D in Hd.
    injection Hd as E _. rewrite E in R. discriminate.
Qed.

Lemma prepare_entry_Encode sha1 base filename mode level l :
  prepare_entry C sha1 base filename mode level = Encode l ->
  path l = full_path base filename mode /\
  pathlen l = zlen (path l) /\
  pathlen l <= 65535 /\
  prepared_as C sha1 base filename mode level l.
Proof.
  unfold prepare_entry. rewrite construct_path_full.
  set (p := full_path base filename mode).
  rewrite Z.gtb_ltb.
  destruct (Z.ltb_spec 65535 (zlen p)) as [L|L]; [discriminate|].
  destruct (S_ISDIR mode) eqn:D.
  - rewrite try_deflate_method0. intros [= <-]. cbn.
    repeat split; try assumption.
    apply PreparedDir; auto.
  - destruct (S_ISREG mode) eqn:R; [|discriminate].
    destruct (read_sha1_file C sha1) as [buffer|] eqn:B; [|discriminate].
    destruct (Z.eqb_spec level 0) as [E|E].
    + rewrite try_deflate_method0. intros [= <-]. cbn.
      repeat split; try assumption.
      eapply PreparedFile; eauto.
    + destruct (try_deflate C level 8 buffer (zlen buffer) buffer
                  (zlen buffer)) as [[m o] cs] eqn:T.
      intros [= <-]. cbn.
      repeat split; try assumption.
      eapply PreparedFile; eauto. right. split; [exact E|].
      cbn. apply try_deflate_method8. exact T.
Qed.

End Prepare.

Section Calls.

Variable C : collab.

Lemma write_zip_entry_Ret sha1 base filename mode stage s r s' :
  write_zip_entry C sha1 base filename mode stage s = Ret r s' ->
  (exists d,
     prepare_entry C sha1 base filename mode (zlib_compression_level s)
       = Skip d /\ r = -1 /\ s' = error d s) \/
  (exists l,
     prepare_entry C sha1 base filename mode (zlib_compression_level s)
       = Encode l /\ r = result l /\ appended l s s').
Proof.
  unfold write_zip_entry.
  destruct (prepare_entry C sha1 base filename mode
              (zlib_compression_level s)) as [d|d|l] eqn:P.
  - intros [= <- <-]. left. eauto.
  - discriminate.
  - intros H. apply append_entry_Ret in H. right. exists l. tauto.
Qed.

Lemma prepared_result sha1 base filename mode level l :
  prepared_as C sha1 base filename mode level l ->
  result l = 0 \/ result l = 1.
Proof.
  intros [D _ R _ _ _ _ | b _ _ _ R _ _ _]; rewrite R; auto.
Qed.

(** A call that returns something else than [-1] went through lines
    207-255. *)
Lemma write_zip_entry_encoded sha1 base filename mode stage s r s' :
  write_zip_entry C sha1 base filename mode stage s = Ret r s' ->
  r <> -1 ->
  exists l,
    prepare_entry C sha1 base filename mode (zlib_compression_level s)
      = Encode l /\ r = result l /\ appended l s s'.
Proof.
  intros H N.
  destruct (write_zip_entry_Ret _ _ _ _ _ _ _ _ H)
    as [(d & _ & E & _) | X]; [contradiction | exact X].
Qed.

(** The payload has as many bytes as [compressed_size] says. *)
Lemma prepared_payload sha1 base filename mode level l :
  objects_fit C ->
  prepared_as C sha1 base filename mode level l ->
  zlen (payload l) = compressed_size l /\
  0 <= compressed_size l <= PTRDIFF_MAX.
Proof.
  intros F [D _ _ O _ S _ | b _ _ B _ U _ X].
  - unfold payload. rewrite S. cbn. unfold PTRDIFF_MAX. lia.
  - pose proof (F _ _ B) as Fb. pose proof (zlen_nonneg b) as Pb.
    assert (St : out l = b -> compressed_size l = zlen b ->
                 zlen (payload l) = compressed_size l /\
                 0 <= compressed_size l <= PTRDIFF_MAX).
    { intros O E. unfold payload. rewrite O, E, firstn_zlen.
      destruct (zlen b >? 0) eqn:G; [lia|].
      rewrite Z.gtb_ltb in G. apply Z.ltb_ge in G.
      unfold zlen in *. cbn [length]. lia. }
    destruct X as [(_ & _ & O & S) | (_ & X)]; [auto|].
    clear St. unfold payload.
    remember (method l) as m eqn:Em.
    remember (out l) as o eqn:Eo.
    remember (compressed_size l) as cs eqn:Es.
    destruct X as [d Df L | Df].
    + pose proof (ulong_range (zlen d - 6)) as R.
      pose proof (zlen_nonneg d) as Pd.
      assert (6 <= zlen d).
      { destruct (Z_lt_le_dec (zlen d) 6) as [Lt|]; [|assumption].
        exfalso. unfold ulong, ULONG_BITS, PTRDIFF_MAX in *.
        replace (zlen d - 6) with (zlen d - 6 + 2 ^ 64 + (-1) * 2 ^ 64)
          in L by lia.
        rewrite Z.mod_add, Z.mod_small in L by lia. lia. }
      assert (Le : ulong (zlen d - 6) <= zlen d - 6).
      { unfold ulong, ULONG_BITS. apply Z.mod_le; lia. }
      split; [|lia].
      destruct (ulong (zlen d - 6) >? 0) eqn:G.
      * unfold zlen in *. rewrite length_firstn, length_skipn. lia.
      * rewrite Z.gtb_ltb in G. apply Z.ltb_ge in G.
        unfold zlen in *. cbn [length]. lia.
    + rewrite firstn_zlen.
      destruct (zlen b >? 0) eqn:G; [lia|].
      rewrite Z.gtb_ltb in G. apply Z.ltb_ge in G.
      unfold zlen in *. cbn [length]. lia.
Qed.

Lemma appended_wf l s s' :
  appended l s s' -> wf_state s -> wf_state s'.
Proof.
  intros A (W1 & W2 & W3 & W4). unfold wf_state, is_uint, UINT_BITS.
  rewrite (ap_dir_offset _ _ _ A), (ap_dir_entries _ _ _ A),
    (ap_offset _ _ _ A).
  repeat split; try apply uint_range;
    apply (grow_dir_uint _ _ _ _ W1 (ap_grow _ _ _ A)).
Qed.

(** Where the directory record of a call lies in the buffer. *)
Lemma appended_dir l s s' :
  appended l s s' -> wf_state s ->
  pathlen l = zlen (path l) -> pathlen l <= 65535 ->
  zip_dir_offset s' =
    zip_dir_offset s + sizeof_zip_dir_header + pathlen l /\
  zip_dir_offset s' <= zip_dir_size s' /\
  mem_read (zip_dir s') (zip_dir_offset s) 46 =
    dir_header_bytes
      (make_dirent (method l) (crc l) (compressed_size l)
         (uncompressed_size l) (pathlen l) s) /\
  mem_read (zip_dir s') (zip_dir_offset s + sizeof_zip_dir_header)
    (length (path l)) = path l /\
  (forall i, i < zip_dir_offset s -> zip_dir s' i = zip_dir s i).
Proof.
  intros A (W1 & W2 & W3 & W4) PL PB.
  pose proof (zlen_nonneg (path l)) as PP.
  pose proof (grow_dir_ge _ _ _ _ (ap_grow _ _ _ A)) as GE.
  pose proof (grow_dir_uint _ _ _ _ W1 (ap_grow _ _ _ A)) as GU.
  unfold dir_need, sizeof_zip_dir_header, is_uint, UINT_BITS in *.
  rewrite !ulong_small in GE by (rewrite ?ulong_small; lia).
  rewrite (ap_dir_offset _ _ _ A), (ap_dir _ _ _ A).
  unfold sizeof_zip_dir_header.
  rewrite !uint_small by lia.
  replace (firstn (Z.to_nat (pathlen l)) (path l)) with (path l)
    by (rewrite PL; symmetry; apply firstn_zlen).
  repeat split; try lia.
  - rewrite mem_read_memcpy_disjoint by lia.
    apply (mem_read_memcpy (zip_dir s) (zip_dir_offset s)
             (dir_header_bytes (make_dirent _ _ _ _ _ s))).
  - apply mem_read_memcpy.
  - intros i Hi. rewrite !memcpy_outside by lia. reflexivity.
Qed.

End Calls.

(** ** Reading one entry back *)

Lemma skipn_length_app {A} (a b : list A) : skipn (length a) (a ++ b) = b.
Proof. induction a; [reflexivity | assumption]. Qed.

Lemma firstn_length_app {A} (a b : list A) : firstn (length a) (a ++ b) = a.
Proof. induction a; cbn; [reflexivity | f_equal; assumption]. Qed.

Lemma local_header_length m c cs us p s :
  length (local_header_bytes (make_header m c cs us p s)) = 30%nat.
Proof. reflexivity. Qed.

Lemma appended_emitted l s s' :
  appended l s s' ->
  emitted s s' =
  local_header_bytes
    (make_header (method l) (crc l) (compressed_size l)
       (uncompressed_size l) (pathlen l) s) ++
  firstn (Z.to_nat (pathlen l)) (path l) ++ payload l.
Proof.
  intros A. unfold emitted. rewrite (ap_fd1 _ _ _ A).
  apply skipn_length_app.
Qed.

Lemma appended_local_header l s s' :
  appended l s s' ->
  local_header_of s s' =
  local_header_bytes
    (make_header (method l) (crc l) (compressed_size l)
       (uncompressed_size l) (pathlen l) s).
Proof.
  intros A. unfold local_header_of, field.
  fold (emitted s s'). rewrite (appended_emitted _ _ _ A).
  apply (firstn_length_app
           (local_header_bytes (make_header _ _ _ _ _ s))).
Qed.

(** The CRC the locals hold is taken over the content, with its length
    as 32 bits hold it. *)
Lemma prepared_crc C sha1 base filename mode level l :
  crc32 C 0 [] 0 = 0 ->
  prepared_as C sha1 base filename mode level l ->
  crc l = crc32 C 0 (entry_content C sha1 mode)
            (uint (zlen (entry_content C sha1 mode))).
Proof.
  intros I [D _ _ _ _ _ K | b D _ B _ _ K _]; unfold entry_content;
    rewrite D, K.
  - reflexivity.
  - rewrite B, I. reflexivity.
Qed.

(** ** The sample collaborators keep the contracts *)

Lemma sample_zlib_contract : zlib_contract Sample.git.
Proof.
  constructor.
  - reflexivity.
  - intros c buf n. cbn [crc32 Sample.git]. unfold Sample.zcrc32.
    apply Z.mod_pos_bound. lia.
Qed.

Lemma sample_objects_fit : objects_fit Sample.git.
Proof.
  intros sha1 b H. cbn [read_sha1_file Sample.git] in H.
  unfold Sample.store in H.
  destruct sha1 as [|x t]; [discriminate|].
  destruct x; try discriminate; injection H as <-;
    vm_compute; discriminate.
Qed.

Lemma sample_deflate_framed : deflate_framed Sample.git.
Proof.
  intros level data size d H. cbn [deflate_finish Sample.git] in H.
  unfold Sample.zdeflate in H.
  destruct (Sample.bytes_eqb data Sample.twenty_a);
    [injection H as <-; vm_compute; split; [discriminate|reflexivity]|].
  destruct (Sample.bytes_eqb data Sample.hello);
    [injection H as <-; vm_compute; split; [discriminate|reflexivity]|].
  destruct (Sample.bytes_eqb data []);
    [injection H as <-; vm_compute; split; [discriminate|reflexivity]|].
  discriminate.
Qed.

(** ** The sample tree, run *)

Example copy_le32_magic :
  map byte_val (copy_le32 0x04034b50) = [80; 75; 3; 4].
Proof. reflexivity. Qed.

Example crc32_hello : Sample.zcrc32 0 Sample.hello 5 = 0x3610a686.
Proof. vm_compute. reflexivity. Qed.

Example dos_time_2006 :
  dos_time {| tm_sec := 59; tm_min := 30; tm_hour := 13;
              tm_mday := 24; tm_mon := 7; tm_year := 106 |}
  = (13592, 27613).
Proof. reflexivity. Qed.

(** The scenario of the spec: "dir/" and "dir/file.txt" with content
    "hello", compression disabled.  Two entries, the file stored with
    size 5, 81 bytes of entries, 108 bytes of directory. *)
Example scenario_archive :
  exists s,
    zip_tree Sample.git Sample.fresh 0 100 200 [] [] Sample.scenario None
      = Ret 0 s /\
    zip_dir_entries s = 2 /\ zip_offset s = 81 /\ zip_dir_offset s = 108 /\
    zlen (fd1 s) = 81 + 108 + 22 /\
    field 64 17 (fd1 s) =
      Sample.dir_name ++ [x2f] ++ Sample.file_txt ++ Sample.hello.
Proof.
  eexists. split; [vm_compute; reflexivity|].
  vm_compute. intuition reflexivity.
Qed.

(** ** Calls that are sure to return *)

Lemma write_zip_entry_returns C sha1 base filename mode stage s l :
  prepare_entry C sha1 base filename mode (zlib_compression_level s)
    = Encode l ->
  wf_state s -> has_room (pathlen l) s -> 0 <= pathlen l ->
  exists s',
    write_zip_entry C sha1 base filename mode stage s = Ret (result l) s' /\
    appended l s s'.
Proof.
  intros P (W1 & W2 & W3 & W4) R N.
  unfold write_zip_entry. rewrite P.
  destruct (append_entry_returns l s) as [s' E].
  - unfold is_uint in W1. lia.
  - unfold dir_need, has_room, is_uint, UINT_BITS, sizeof_zip_dir_header,
      ZIP_DIRECTORY_MIN_SIZE in *.
    rewrite !ulong_small by (rewrite ?ulong_small; lia). lia.
  - exists s'. split; [exact E|].
    apply append_entry_Ret in E. tauto.
Qed.

Lemma prepare_entry_directory C sha1 base filename mode level :
  S_ISDIR mode = true ->
  zlen (full_path base filename mode) <= 65535 ->
  prepare_entry C sha1 base filename mode level =
  Encode {| path := full_path base filename mode;
            pathlen := zlen (full_path base filename mode);
            method := 0; result := READ_TREE_RECURSIVE; out := [];
            uncompressed_size := 0; compressed_size := 0;
            crc := crc32 C 0 [] 0 |}.
Proof.
  intros D L. unfold prepare_entry. rewrite construct_path_full.
  rewrite Z.gtb_ltb.
  destruct (Z.ltb_spec 65535 (zlen (full_path base filename mode)));
    [lia|].
  rewrite D. reflexivity.
Qed.

Lemma prepare_entry_stored C sha1 base filename mode level buffer :
  S_ISDIR mode = false -> S_ISREG mode = true ->
  read_sha1_file C sha1 = Some buffer ->
  zlen (full_path base filename mode) <= 65535 ->
  level = 0 ->
  prepare_entry C sha1 base filename mode level =
  Encode {| path := full_path base filename mode;
            pathlen := zlen (full_path base filename mode);
            method := 0; result := 0; out := buffer;
            uncompressed_size := zlen buffer;
            compressed_size := zlen buffer;
            crc := crc32 C (crc32 C 0 [] 0) buffer (uint (zlen buffer)) |}.
Proof.
  intros D R B L ->. unfold prepare_entry. rewrite construct_path_full.
  rewrite Z.gtb_ltb.
  destruct (Z.ltb_spec 65535 (zlen (full_path base filename mode)));
    [lia|].
  rewrite D, R, B. reflexivity.
Qed.

Lemma prepare_entry_too_long C sha1 base filename mode level :
  65535 < zlen (full_path base filename mode) ->
  prepare_entry C sha1 base filename mode level =
  Skip (PathTooLong (zlen (full_path base filename mode)) sha1
          (full_path base filename mode)).
Proof.
  intros L. unfold prepare_entry. rewrite construct_path_full.
  rewrite Z.gtb_ltb.
  destruct (Z.ltb_spec 65535 (zlen (full_path base filename mode)));
    [reflexivity|lia].
Qed.

Lemma prepare_entry_unsupported C sha1 base filename mode level :
  zlen (full_path base filename mode) <= 65535 ->
  S_ISDIR mode = false -> S_ISREG mode = false ->
  prepare_entry C sha1 base filename mode level =
  Skip (UnsupportedMode mode sha1).
Proof.
  intros L D R. unfold prepare_entry. rewrite construct_path_full.
  rewrite Z.gtb_ltb.
  destruct (Z.ltb_spec 65535 (zlen (full_path base filename mode)));
    [lia|].
  rewrite D, R. reflexivity.
Qed.

Lemma prepare_entry_unreadable C sha1 base filename mode level :
  zlen (full_path base filename mode) <= 65535 ->
  S_ISDIR mode = false -> S_ISREG mode = true ->
  read_sha1_file C sha1 = None ->
  prepare_entry C sha1 base filename mode level =
  Fatal (CannotRead sha1).
Proof.
  intros L D R B. unfold prepare_entry. rewrite construct_path_full.
  rewrite Z.gtb_ltb.
  destruct (Z.ltb_spec 65535 (zlen (full_path base filename mode)));
    [lia|].
  rewrite D, R, B. reflexivity.
Qed.

(** A stored file, whatever its size: the call returns 0, the cursor
    and the size fields hold the byte counts reduced modulo [2^32]. *)
Lemma stored_file_entry C sha1 base filename mode stage s buffer :
  S_ISDIR mode = false -> S_ISREG mode = true ->
  read_sha1_file C sha1 = Some buffer ->
  zlen (full_path base filename mode) <= 65535 ->
  zlib_compression_level s = 0 ->
  wf_state s -> has_room (zlen (full_path base filename mode)) s ->
  exists s',
    write_zip_entry C sha1 base filename mode stage s = Ret 0 s' /\
    fd2 s' = fd2 s /\
    emitted s s' =
      local_header_of s s' ++ full_path base filename mode ++ buffer /\
    length (local_header_of s s') = 30%nat /\
    field_value 18 4 (local_header_of s s') = zlen buffer mod 2 ^ 32 /\
    field_value 22 4 (local_header_of s s') = zlen buffer mod 2 ^ 32 /\
    zip_offset s' =
      (zip_offset s + 30 + zlen (full_path base filename mode)
       + zlen buffer) mod 2 ^ 32.
Proof.
  intros D R B L Lv W Rm.
  pose proof (prepare_entry_stored C _ base filename _ _ _ D R B L Lv) as P.
  destruct (write_zip_entry_returns _ _ _ _ _ stage _ _ P W Rm)
    as (s' & E & A); [apply zlen_nonneg|].
  exists s'. cbn [result] in E. split; [exact E|].
  pose proof (appended_local_header _ _ _ A) as H.
  pose proof (appended_emitted _ _ _ A) as Em.
  cbn [method crc compressed_size uncompressed_size pathlen path] in H, Em.
  rewrite firstn_zlen in Em. unfold payload in Em.
  cbn [compressed_size out] in Em. rewrite firstn_zlen in Em.
  assert (Pb : (if zlen buffer >? 0 then buffer else []) = buffer).
  { destruct buffer; reflexivity. }
  rewrite Pb in Em. clear Pb.
  rewrite H, Em.
  split; [exact (ap_fd2 _ _ _ A)|].
  split; [reflexivity|].
  split; [reflexivity|].
  split; [exact (le_value_copy_le32 (zlen buffer))|].
  split; [exact (le_value_copy_le32 (zlen buffer))|].
  rewrite (ap_offset _ _ _ A).
  cbn [compressed_size pathlen]. unfold uint, UINT_BITS, sizeof_zip_local_header.
  pose proof (zlen_nonneg buffer). f_equal. lia.
Qed.

Lemma zlen_huge : zlen Sample.huge = 2 ^ 32.
Proof.
  unfold zlen, Sample.huge. rewrite repeat_length.
  unfold Sample.huge_len. apply Z2Nat.id. lia.
Qed.

(** What one encoded entry adds to the stream and to the cursor. *)
Lemma encoded_entry_stream C sha1 base filename mode stage s s' r :
  objects_fit C -> wf_state s ->
  write_zip_entry C sha1 base filename mode stage s = Ret r s' ->
  r <> -1 ->
  exists l,
    prepare_entry C sha1 base filename mode (zlib_compression_level s)
      = Encode l /\
    appended l s s' /\
    emitted s s' =
      local_header_of s s' ++ full_path base filename mode ++ payload l /\
    zlen (payload l) = compressed_size l /\
    zlen (emitted s s') =
      30 + zlen (full_path base filename mode) + zlen (payload l) /\
    zip_offset s' = uint (zip_offset s + zlen (emitted s s')).
Proof.
  intros F W H N.
  destruct (write_zip_entry_encoded _ _ _ _ _ _ _ _ _ H N)
    as (l & P & _ & A).
  exists l. split; [exact P|]. split; [exact A|].
  apply prepare_entry_Encode in P as (PP & PL & PB & P).
  destruct (prepared_payload _ _ _ _ _ _ _ F P) as (Q & Q0 & _).
  pose proof (appended_emitted _ _ _ A) as Em.
  assert (Fp : firstn (Z.to_nat (pathlen l)) (path l)
               = full_path base filename mode)
    by (rewrite PL, firstn_zlen; exact PP).
  rewrite Fp in Em.
  rewrite (appended_local_header _ _ _ A).
  assert (Z : zlen (emitted s s') =
              30 + zlen (full_path base filename mode) + zlen (payload l)).
  { rewrite Em, !zlen_app. unfold zlen at 1.
    rewrite local_header_length. lia. }
  split; [exact Em|]. split; [exact Q|]. split; [exact Z|].
  rewrite (ap_offset _ _ _ A), Z, PL, PP, Q.
  unfold sizeof_zip_local_header. f_equal. lia.
Qed.

(** ** What a reader finds in the fields of a local header *)

Section HeaderFields.

Variables (m c cs us p : Z) (s : zip_state).

Let h := local_header_bytes (make_header m c cs us p s).

Lemma header_method : field_value 8 2 h = m mod 2 ^ 16.
Proof. exact (le_value_copy_le16 m). Qed.

Lemma header_crc : field_value 14 4 h = c mod 2 ^ 32.
Proof. exact (le_value_copy_le32 c). Qed.

Lemma header_compressed_size : field_value 18 4 h = cs mod 2 ^ 32.
Proof. exact (le_value_copy_le32 cs). Qed.

Lemma header_size : field_value 22 4 h = us mod 2 ^ 32.
Proof. exact (le_value_copy_le32 us). Qed.

Lemma header_filename_length : field_value 26 2 h = p mod 2 ^ 16.
Proof. exact (le_value_copy_le16 p). Qed.

Lemma header_version : field_value 4 2 h = 20.
Proof. vm_compute. reflexivity. Qed.

Lemma header_extra_length : field_value 28 2 h = 0.
Proof. vm_compute. reflexivity. Qed.

End HeaderFields.

(** A call whose locals at line 207 are known. *)
Lemma encode_locals C sha1 base filename mode stage s l :
  prepare_entry C sha1 base filename mode (zlib_compression_level s)
    = Encode l ->
  wf_state s -> has_room (pathlen l) s ->
  exists s',
    write_zip_entry C sha1 base filename mode stage s = Ret (result l) s' /\
    appended l s s' /\
    local_header_of s s' =
      local_header_bytes
        (make_header (method l) (crc l) (compressed_size l)
           (uncompressed_size l) (pathlen l) s) /\
    emitted s s' =
      local_header_of s s' ++ full_path base filename mode ++ payload l.
Proof.
  intros P W R.
  pose proof (prepare_entry_Encode _ _ _ _ _ _ _ P) as (PP & PL & _ & _).
  destruct (write_zip_entry_returns _ _ _ _ _ stage _ _ P W R)
    as (s' & E & A); [rewrite PL; apply zlen_nonneg|].
  exists s'. split; [exact E|]. split; [exact A|].
  pose proof (appended_local_header _ _ _ A) as H.
  split; [exact H|].
  rewrite H, (appended_emitted _ _ _ A), PL, firstn_zlen, PP.
  reflexivity.
Qed.

Lemma S_ISREG_not_DIR mode : S_ISREG mode = true -> S_ISDIR mode = false.
Proof.
  unfold S_ISDIR, S_ISREG, S_IFDIR, S_IFREG.
  intros H. apply Z.eqb_eq in H. rewrite H. reflexivity.
Qed.

Lemma prepare_entry_deflating C sha1 base filename mode level buffer :
  S_ISREG mode = true ->
  read_sha1_file C sha1 = Some buffer ->
  zlen (full_path base filename mode) <= 65535 ->
  level <> 0 ->
  prepare_entry C sha1 base filename mode level =
  let '(m, o, cs) :=
    try_deflate C level 8 buffer (zlen buffer) buffer (zlen buffer) in
  Encode {| path := full_path base filename mode;
            pathlen := zlen (full_path base filename mode);
            method := m; result := 0; out := o;
            uncompressed_size := zlen buffer;
            compressed_size := cs;
            crc := crc32 C (crc32 C 0 [] 0) buffer (uint (zlen buffer)) |}.
Proof.
  intros R B L N. unfold prepare_entry. rewrite construct_path_full.
  rewrite Z.gtb_ltb.
  destruct (Z.ltb_spec 65535 (zlen (full_path base filename mode)));
    [lia|].
  rewrite (S_ISREG_not_DIR _ R), R, B.
  destruct (Z.eqb_spec level 0); [contradiction|]. reflexivity.
Qed.

(** Taking the two-byte header and the four-byte checksum off a zlib
    stream. *)
Lemma zlib_stream_stripped (d : list byte) :
  6 <= zlen d ->
  exists hd tl,
    d = hd ++ firstn (Z.to_nat (zlen d - 6)) (skipn 2 d) ++ tl /\
    length hd = 2%nat /\ length tl = 4%nat.
Proof.
  intros L.
  exists (firstn 2 d), (skipn (Z.to_nat (zlen d - 6)) (skipn 2 d)).
  rewrite firstn_skipn, firstn_skipn.
  unfold zlen in *.
  rewrite length_firstn, !length_skipn. repeat split; lia.
Qed.

(** ** The finalizer *)

Lemma sha1_to_hex_length h : length (sha1_to_hex h) = (2 * length h)%nat.
Proof.
  unfold sha1_to_hex. induction h as [|b h IH]; [reflexivity|].
  cbn [flat_map length app]. rewrite IH. lia.
Qed.

Lemma sha1_to_hex_lower h :
  Forall (fun b => is_lower_hex b = true) (sha1_to_hex h).
Proof.
  unfold sha1_to_hex. induction h as [|b h IH]; [constructor|].
  cbn [flat_map app].
  constructor; [|constructor; [|exact IH]]; destruct b; reflexivity.
Qed.

Lemma write_zip_trailer_fd1 sha1 s :
  fd1 (write_zip_trailer sha1 s) =
  fd1 s ++ mem_read (zip_dir s) 0 (Z.to_nat (zip_dir_offset s)) ++
  dir_trailer_bytes
    {| tr_magic := copy_le32 0x06054b50;
       tr_disk := copy_le16 0;
       tr_directory_start_disk := copy_le16 0;
       tr_entries_on_this_disk := copy_le16 (zip_dir_entries s);
       tr_entries := copy_le16 (zip_dir_entries s);
       tr_size := copy_le32 (zip_dir_offset s);
       tr_offset := copy_le32 (zip_offset s);
       tr_comment_length :=
         copy_le16 (match sha1 with Some _ => 40 | None => 0 end) |} ++
  match sha1 with
  | Some h => firstn 40 (sha1_to_hex h)
  | None => []
  end.
Proof.
  unfold write_zip_trailer.
  assert (F : forall m n, firstn n (mem_read m 0 n) = mem_read m 0 n).
  { intros m n. rewrite <- (mem_read_length m 0 n) at 1. apply firstn_all. }
  destruct sha1 as [h|]; state_simpl; rewrite F, <- !app_assoc;
    rewrite ?app_nil_r; reflexivity.
Qed.

Lemma write_zip_trailer_split sha1 s :
  fd1 (write_zip_trailer sha1 s) =
  (fd1 s ++ mem_read (zip_dir s) 0 (Z.to_nat (zip_dir_offset s))) ++
  trailer_of sha1 s ++ comment_of sha1 s /\
  trailer_of sha1 s =
  dir_trailer_bytes
    {| tr_magic := copy_le32 0x06054b50;
       tr_disk := copy_le16 0;
       tr_directory_start_disk := copy_le16 0;
       tr_entries_on_this_disk := copy_le16 (zip_dir_entries s);
       tr_entries := copy_le16 (zip_dir_entries s);
       tr_size := copy_le32 (zip_dir_offset s);
       tr_offset := copy_le32 (zip_offset s);
       tr_comment_length :=
         copy_le16 (match sha1 with Some _ => 40 | None => 0 end) |} /\
  comment_of sha1 s =
  match sha1 with
  | Some h => firstn 40 (sha1_to_hex h)
  | None => []
  end.
Proof.
  unfold trailer_of, comment_of, field.
  rewrite write_zip_trailer_fd1.
  set (dir := mem_read (zip_dir s) 0 (Z.to_nat (zip_dir_offset s))).
  set (t := dir_trailer_bytes _).
  set (c := match sha1 with Some h => firstn 40 (sha1_to_hex h)
                          | None => [] end).
  assert (Ld : (length (fd1 s) + Z.to_nat (zip_dir_offset s))%nat
               = length (fd1 s ++ dir)).
  { rewrite length_app. unfold dir. rewrite mem_read_length. reflexivity. }
  assert (Lt : length t = 22%nat) by reflexivity.
  assert (E1 : skipn (length (fd1 s) + Z.to_nat (zip_dir_offset s))
                 (fd1 s ++ dir ++ t ++ c) = t ++ c).
  { rewrite Ld, app_assoc. apply skipn_length_app. }
  assert (E2 : skipn (length (fd1 s) + Z.to_nat (zip_dir_offset s) + 22)
                 (fd1 s ++ dir ++ t ++ c) = c).
  { rewrite Ld, <- Lt, <- length_app.
    rewrite (app_assoc (fd1 s)), (app_assoc (fd1 s ++ dir)).
    apply skipn_length_app. }
  rewrite E1, E2. rewrite <- Lt. rewrite firstn_length_app.
  rewrite <- app_assoc. auto.
Qed.

Lemma trailer_fields sha1 s :
  length (trailer_of sha1 s) = 22%nat /\
  field_value 8 2 (trailer_of sha1 s) = zip_dir_entries s mod 2 ^ 16 /\
  field_value 10 2 (trailer_of sha1 s) = zip_dir_entries s mod 2 ^ 16 /\
  field_value 12 4 (trailer_of sha1 s) = zip_dir_offset s mod 2 ^ 32 /\
  field_value 16 4 (trailer_of sha1 s) = zip_offset s mod 2 ^ 32.
Proof.
  destruct (write_zip_trailer_split sha1 s) as (_ & T & _). rewrite T.
  split; [reflexivity|].
  split; [exact (le_value_copy_le16 (zip_dir_entries s))|].
  split; [exact (le_value_copy_le16 (zip_dir_entries s))|].
  split; [exact (le_value_copy_le32 (zip_dir_offset s))|].
  exact (le_value_copy_le32 (zip_offset s)).
Qed.

(** ** Skipped entries and runs *)


Lemma initial_state_inv fresh level date time :
  dir_inv (initial_state fresh level date time).
Proof.
  unfold dir_inv, wf_state, is_uint. cbn. lia.
Qed.

Section Runs.

Variable C : collab.

Lemma write_zip_entry_counts sha1 base filename mode stage s r s' :
  dir_inv s ->
  write_zip_entry C sha1 base filename mode stage s = Ret r s' ->
  dir_inv s' /\
  zip_dir_entries s' = zip_dir_entries s + successes [r].
Proof.
  intros [W I] H.
  destruct (write_zip_entry_Ret _ _ _ _ _ _ _ _ _ H)
    as [(d & _ & -> & ->) | (l & P & E & A)].
  - split; [split; assumption|]. cbn. lia.
  - apply prepare_entry_Encode in P as (PP & PL & PB & P).
    destruct (appended_dir _ _ _ A W PL PB) as (Do & Ds & _).
    pose proof (appended_wf _ _ _ A W) as W'.
    pose proof (zlen_nonneg (path l)).
    assert (N : zip_dir_entries s' = zip_dir_entries s + 1).
    { rewrite (ap_dir_entries _ _ _ A).
      destruct W as (_ & _ & _ & W4). destruct W' as (W1' & _).
      unfold is_uint, UINT_BITS, sizeof_zip_dir_header in *.
      apply uint_small. lia. }
    split.
    + split; [exact W'|]. rewrite N, Do.
      unfold sizeof_zip_dir_header in *. lia.
    + rewrite N. apply prepared_result in P.
      unfold successes. destruct P as [R|R]; rewrite E, R; reflexivity.
Qed.

Lemma successes_cons r rs :
  successes (r :: rs) = successes [r] + successes rs.
Proof.
  unfold successes. cbn [filter].
  destruct (negb (r =? -1)); unfold zlen; cbn [length]; lia.
Qed.

(** Over a run the counter is the number of encoded entries: it does
    not wrap, the directory buffer is full long before. *)
Lemma read_tree_recursive_counts es : forall s rs r s',
  dir_inv s ->
  read_tree_recursive C es s = (rs, Ret r s') ->
  dir_inv s' /\ length rs = length es /\
  zip_dir_entries s' = zip_dir_entries s + successes rs.
Proof.
  induction es as [|e es IH]; intros s rs r s' I H; cbn in H.
  - injection H as <- _ <-. repeat split; try apply I. cbn. lia.
  - destruct (write_zip_entry C (e_sha1 e) (e_base e) (e_filename e)
                (e_mode e) 0 s) as [r1 s1|?|?] eqn:E1; try discriminate.
    destruct (read_tree_recursive C es s1) as [rs1 o1] eqn:E2.
    injection H as <- ->.
    destruct (write_zip_entry_counts _ _ _ _ _ _ _ _ I E1) as [I1 N1].
    destruct (IH _ _ _ _ I1 E2) as (I' & L & N).
    repeat split; try apply I'.
    + cbn [length]. rewrite L. reflexivity.
    + rewrite N, N1, (successes_cons r1 rs1). lia.
Qed.

End Runs.

(** An entry whose locals at line 207 say "stored". *)
Lemma stored_locals_written C sha1 base filename mode stage s buffer k :
  prepare_entry C sha1 base filename mode (zlib_compression_level s) =
  Encode {| path := full_path base filename mode;
            pathlen := zlen (full_path base filename mode);
            method := 0; result := 0; out := buffer;
            uncompressed_size := zlen buffer;
            compressed_size := zlen buffer;
            crc := k |} ->
  wf_state s ->
  has_room (zlen (full_path base filename mode)) s ->
  exists s',
    write_zip_entry C sha1 base filename mode stage s = Ret 0 s' /\
    emitted s s' =
      local_header_of s s' ++ full_path base filename mode ++ buffer /\
    length (local_header_of s s') = 30%nat /\
    field_value 8 2 (local_header_of s s') = 0 /\
    field_value 18 4 (local_header_of s s') = zlen buffer mod 2 ^ 32 /\
    field_value 22 4 (local_header_of s s') = zlen buffer mod 2 ^ 32.
Proof.
  intros P W Rm.
  destruct (encode_locals _ _ _ _ _ stage _ _ P W Rm)
    as (s' & E & _ & H & Em).
  exists s'. split; [exact E|].
  unfold payload in Em.
  cbn [method crc compressed_size uncompressed_size pathlen out] in H, Em.
  rewrite firstn_zlen in Em.
  assert (Pb : (if zlen buffer >? 0 then buffer else []) = buffer)
    by (destruct buffer; reflexivity).
  rewrite Pb in Em. split; [exact Em|]. rewrite H.
  split; [reflexivity|]. split; [apply (header_method 0)|].
  split; [apply header_compressed_size | apply header_size].
Qed.

(** ** A tree of many directories *)

Lemma many_dirs_short n : Forall short_dir (many_dirs n).
Proof.
  unfold many_dirs. apply Forall_forall. intros e H.
  apply in_map_iff in H as (i & <- & _). split; reflexivity || (cbn; lia).
Qed.

Lemma many_dirs_length n : 0 <= n -> zlen (many_dirs n) = n.
Proof.
  intros P. unfold many_dirs, zlen.
  rewrite length_map, length_seq. apply Z2Nat.id. exact P.
Qed.

(** A run over short directory names returns, and counts every one of
    them, as long as the buffer has room. *)
Lemma read_tree_recursive_dirs C es : forall s,
  Forall short_dir es -> dir_inv s ->
  zip_dir_offset s + 62 * zlen es <= 2 ^ 32 - ZIP_DIRECTORY_MIN_SIZE ->
  exists rs s',
    read_tree_recursive C es s = (rs, Ret 0 s') /\
    dir_inv s' /\
    zip_dir_entries s' = zip_dir_entries s + zlen es /\
    fd2 s' = fd2 s.
Proof.
  induction es as [|e es IH]; intros s F I B.
  - exists [], s. repeat split; try apply I.
    unfold zlen. cbn [length Z.of_nat]. lia.
  - inversion F as [|e' es' [D L] F' Ee]. subst e' es'.
    pose proof (prepare_entry_directory C (e_sha1 e) (e_base e)
                  (e_filename e) (e_mode e) (zlib_compression_level s)
                  D ltac:(lia)) as P.
    assert (Z1 : zlen (e :: es) = 1 + zlen es)
      by (unfold zlen; cbn [length]; lia).
    pose proof (zlen_nonneg es) as Pe.
    pose proof (zlen_nonneg (full_path (e_base e) (e_filename e) (e_mode e)))
      as Pp.
    assert (Rm : has_room (zlen (full_path (e_base e) (e_filename e)
                                   (e_mode e))) s).
    { unfold has_room, sizeof_zip_dir_header in *. lia. }
    destruct (encode_locals _ _ _ _ _ 0 _ _ P (proj1 I) Rm)
      as (s1 & E & A & _ & _).
    cbn [result] in E.
    destruct (write_zip_entry_counts C _ _ _ _ _ _ _ _ I E) as [I1 N1].
    destruct (appended_dir _ _ _ A (proj1 I) eq_refl ltac:(cbn; lia))
      as (Do & _).
    cbn [pathlen] in Do. unfold sizeof_zip_dir_header in Do.
    destruct (IH s1 F' I1) as (rs & s' & R & I' & N & E2); [lia|].
    exists (READ_TREE_RECURSIVE :: rs), s'.
    cbn [read_tree_recursive]. rewrite E, R.
    repeat split; try apply I'.
    + change (successes [READ_TREE_RECURSIVE]) with 1 in N1.
      rewrite N, N1, Z1. lia.
    + rewrite E2. exact (ap_fd2 _ _ _ A).
Qed.

Lemma many_dirs_counted C fresh level date time n :
  0 <= n <= 1000000 ->
  exists rs s',
    read_tree_recursive C (many_dirs n) (initial_state fresh level date time)
      = (rs, Ret 0 s') /\
    wf_state s' /\ zip_dir_entries s' = n /\ fd2 s' = [].
Proof.
  intros B.
  destruct (read_tree_recursive_dirs C (many_dirs n)
              (initial_state fresh level date time)
              (many_dirs_short n)
              (initial_state_inv fresh level date time))
    as (rs & s' & R & I & N & E).
  - rewrite many_dirs_length by lia.
    unfold ZIP_DIRECTORY_MIN_SIZE. cbn [zip_dir_offset initial_state]. lia.
  - exists rs, s'. rewrite many_dirs_length in N by lia.
    repeat split; try assumption; apply I.
Qed.

(** ** The cursor over a run *)

Lemma initial_state_offset fresh level date time :
  offset_inv (initial_state fresh level date time).
Proof.
  split; [apply (initial_state_inv fresh level date time) | reflexivity].
Qed.

Lemma write_zip_entry_offset C sha1 base filename mode stage s r s' :
  objects_fit C -> offset_inv s ->
  write_zip_entry C sha1 base filename mode stage s = Ret r s' ->
  offset_inv s'.
Proof.
  intros F [W I] H.
  destruct (Z.eq_dec r (-1)) as [E|N].
  - destruct (write_zip_entry_Ret _ _ _ _ _ _ _ _ _ H)
      as [(d & _ & _ & ->) | (l & P & Er & _)].
    + split; assumption.
    + apply prepare_entry_Encode in P as (_ & _ & _ & P).
      apply prepared_result in P. lia.
  - destruct (encoded_entry_stream _ _ _ _ _ _ _ _ _ F W H N)
      as (l & _ & A & _ & _ & _ & O).
    split; [exact (appended_wf _ _ _ A W)|].
    rewrite O, I, (ap_fd1 _ _ _ A), <- (appended_emitted _ _ _ A), zlen_app.
    unfold uint, UINT_BITS. apply Zplus_mod_idemp_l.
Qed.

Lemma read_tree_recursive_offset C es : forall s rs r s',
  objects_fit C -> offset_inv s ->
  read_tree_recursive C es s = (rs, Ret r s') ->
  offset_inv s'.
Proof.
  induction es as [|e es IH]; intros s rs r s' F I H; cbn in H.
  - injection H as _ _ <-. exact I.
  - destruct (write_zip_entry C (e_sha1 e) (e_base e) (e_filename e)
                (e_mode e) 0 s) as [r1 s1|?|?] eqn:E1; try discriminate.
    destruct (read_tree_recursive C es s1) as [rs1 o1] eqn:E2.
    injection H as _ ->.
    apply (IH s1 rs1 r s' F); [|exact E2].
    exact (write_zip_entry_offset _ _ _ _ _ _ _ _ _ F I E1).
Qed.

(** ** Builds that differ in fresh memory only *)

Lemma same_written_fields s1 s2 :
  same_written s1 s2 ->
  zip_date s2 = zip_date s1 /\ zip_time s2 = zip_time s1 /\
  zip_dir_size s2 = zip_dir_size s1 /\ zip_offset s2 = zip_offset s1 /\
  zip_dir_offset s2 = zip_dir_offset s1 /\
  zip_dir_entries s2 = zip_dir_entries s1 /\
  zlib_compression_level s2 = zlib_compression_level s1 /\
  fd1 s2 = fd1 s1 /\ fd2 s2 = fd2 s1.
Proof.
  intros [E _]. rewrite E. repeat split.
Qed.

Lemma same_written_intro s1 s2 :
  zip_date s2 = zip_date s1 -> zip_time s2 = zip_time s1 ->
  zip_dir_size s2 = zip_dir_size s1 -> zip_offset s2 = zip_offset s1 ->
  zip_dir_offset s2 = zip_dir_offset s1 ->
  zip_dir_entries s2 = zip_dir_entries s1 ->
  zlib_compression_level s2 = zlib_compression_level s1 ->
  fd1 s2 = fd1 s1 -> fd2 s2 = fd2 s1 ->
  (forall i, 0 <= i < zip_dir_offset s1 -> zip_dir s1 i = zip_dir s2 i) ->
  same_written s1 s2.
Proof.
  destruct s1, s2. cbn. intros. subst. split; [reflexivity | assumption].
Qed.

Lemma same_written_observe o1 o2 :
  same_outcome o1 o2 -> observe o1 = observe o2.
Proof.
  intros [r s1 s2 _ S | s1 s2 S | s1 s2 S];
    destruct (same_written_fields _ _ S) as (_ & _ & _ & _ & _ & _ & _ & A & B);
    cbn; rewrite A, B; reflexivity.
Qed.

Lemma error_same_written d s1 s2 :
  same_written s1 s2 -> same_written (error d s1) (error d s2).
Proof.
  intros S.
  destruct (same_written_fields _ _ S) as (A & B & D & E & F & G & H & I & J).
  destruct S as [_ M].
  apply same_written_intro; cbn; try congruence. exact M.
Qed.

Section Determinism.

Variable C : collab.

Lemma append_entry_same l s1 s2 :
  pathlen l = zlen (path l) -> pathlen l <= 65535 ->
  wf_state s1 -> same_written s1 s2 ->
  same_outcome (append_entry l s1) (append_entry l s2).
Proof.
  intros PL PB W S.
  destruct (same_written_fields _ _ S) as (A & B & D & E & F & G & H & I & J).
  assert (N2 : dir_need l s2 = dir_need l s1)
    by (unfold dir_need; rewrite F; reflexivity).
  destruct (append_entry_cases l s1) as [(t1 & E1 & A1) | (E1 & G1)];
    destruct (append_entry_cases l s2) as [(t2 & E2 & A2) | (E2 & G2)];
    rewrite E1, E2.
  - apply SameRet; [exact (appended_wf _ _ _ A1 W)|].
    destruct (appended_dir _ _ _ A1 W PL PB) as (Do & _).
    pose proof (ap_grow _ _ _ A1) as G1.
    pose proof (ap_grow _ _ _ A2) as G2.
    rewrite N2, D, G1 in G2. injection G2 as G2.
    apply same_written_intro.
    + rewrite (ap_date _ _ _ A1), (ap_date _ _ _ A2). exact A.
    + rewrite (ap_time _ _ _ A1), (ap_time _ _ _ A2). exact B.
    + symmetry. exact G2.
    + rewrite (ap_offset _ _ _ A1), (ap_offset _ _ _ A2), E. reflexivity.
    + rewrite (ap_dir_offset _ _ _ A1), (ap_dir_offset _ _ _ A2), F.
      reflexivity.
    + rewrite (ap_dir_entries _ _ _ A1), (ap_dir_entries _ _ _ A2), G.
      reflexivity.
    + rewrite (ap_level _ _ _ A1), (ap_level _ _ _ A2). exact H.
    + rewrite (ap_fd1 _ _ _ A1), (ap_fd1 _ _ _ A2), I.
      unfold make_header. rewrite A, B. reflexivity.
    + rewrite (ap_fd2 _ _ _ A1), (ap_fd2 _ _ _ A2). exact J.
    + intros i Hi. rewrite Do in Hi.
      rewrite (ap_dir _ _ _ A1), (ap_dir _ _ _ A2), F.
      assert (Dh : dir_header_bytes
                     (make_dirent (method l) (crc l) (compressed_size l)
                        (uncompressed_size l) (pathlen l) s2)
                   = dir_header_bytes
                       (make_dirent (method l) (crc l) (compressed_size l)
                          (uncompressed_size l) (pathlen l) s1))
        by (unfold make_dirent; rewrite A, B, E; reflexivity).
      rewrite Dh.
      destruct W as (_ & _ & W3 & _).
      pose proof (ap_dir_offset _ _ _ A1) as Ao. rewrite Do in Ao.
      pose proof (uint_range (zip_dir_offset s1 + sizeof_zip_dir_header
                              + pathlen l)) as Ur.
      pose proof (zlen_nonneg (path l)) as Pp.
      unfold is_uint, UINT_BITS, sizeof_zip_dir_header in *.
      rewrite (uint_small (zip_dir_offset s1 + 46)) by lia.
      set (p := firstn (Z.to_nat (pathlen l)) (path l)).
      assert (Lp : zlen p = pathlen l)
        by (unfold p; rewrite PL, firstn_zlen; reflexivity).
      set (dh := dir_header_bytes _).
      assert (Ld : zlen dh = 46) by reflexivity.
      destruct (Z_lt_le_dec i (zip_dir_offset s1)) as [Lo|Lo].
      { rewrite !memcpy_outside by lia. apply (proj2 S). lia. }
      destruct (Z_lt_le_dec i (zip_dir_offset s1 + 46)) as [Lh|Lh].
      { rewrite !(memcpy_outside _ (zip_dir_offset s1 + 46)) by lia.
        rewrite !memcpy_inside by lia. reflexivity. }
      rewrite !memcpy_inside by lia. reflexivity.
  - exfalso. rewrite N2, D, (ap_grow _ _ _ A1) in G2. discriminate.
  - exfalso. pose proof (ap_grow _ _ _ A2) as G2.
    rewrite N2, D, G1 in G2. discriminate.
  - apply SameLoop. exact S.
Qed.

Lemma write_zip_entry_same sha1 base filename mode stage s1 s2 :
  wf_state s1 -> same_written s1 s2 ->
  same_outcome (write_zip_entry C sha1 base filename mode stage s1)
               (write_zip_entry C sha1 base filename mode stage s2).
Proof.
  intros W S.
  destruct (same_written_fields _ _ S) as (_ & _ & _ & _ & _ & _ & H & _).
  unfold write_zip_entry. rewrite H.
  destruct (prepare_entry C sha1 base filename mode
              (zlib_compression_level s1)) as [d|d|l] eqn:P.
  - apply SameRet; [exact W | apply error_same_written; exact S].
  - apply SameDie. apply error_same_written. exact S.
  - apply prepare_entry_Encode in P as (_ & PL & PB & _).
    apply append_entry_same; assumption.
Qed.

Lemma read_tree_recursive_same es : forall s1 s2,
  wf_state s1 -> same_written s1 s2 ->
  fst (read_tree_recursive C es s1) = fst (read_tree_recursive C es s2) /\
  same_outcome (snd (read_tree_recursive C es s1))
               (snd (read_tree_recursive C es s2)).
Proof.
  induction es as [|e es IH]; intros s1 s2 W S; cbn [read_tree_recursive].
  - split; [reflexivity | apply SameRet; assumption].
  - pose proof (write_zip_entry_same (e_sha1 e) (e_base e) (e_filename e)
                  (e_mode e) 0 s1 s2 W S) as X.
    inversion X as [r t1 t2 W' S' E1 E2 | t1 t2 S' E1 E2 | t1 t2 S' E1 E2].
    + destruct (IH t1 t2 W' S') as [F O].
      destruct (read_tree_recursive C es t1) as [rs1 o1].
      destruct (read_tree_recursive C es t2) as [rs2 o2].
      cbn [fst snd] in *. subst rs2. split; [reflexivity | exact O].
    + split; [reflexivity | apply SameDie; exact S'].
    + split; [reflexivity | apply SameLoop; exact S'].
Qed.

Lemma write_zip_trailer_same sha1 s1 s2 :
  wf_state s1 -> same_written s1 s2 ->
  same_written (write_zip_trailer sha1 s1) (write_zip_trailer sha1 s2).
Proof.
  intros W S.
  destruct (same_written_fields _ _ S) as (A & B & D & E & F & G & H & I & J).
  assert (K : forall s, write_zip_trailer sha1 s =
            {| zip_date := zip_date s; zip_time := zip_time s;
               zip_dir := zip_dir s; zip_dir_size := zip_dir_size s;
               zip_offset := zip_offset s;
               zip_dir_offset := zip_dir_offset s;
               zip_dir_entries := zip_dir_entries s;
               zlib_compression_level := zlib_compression_level s;
               fd1 := fd1 (write_zip_trailer sha1 s); fd2 := fd2 s |}).
  { intros s. unfold write_zip_trailer. destruct sha1; reflexivity. }
  rewrite (K s1), (K s2).
  apply same_written_intro; cbn [zip_date zip_time zip_dir zip_dir_size
    zip_offset zip_dir_offset zip_dir_entries zlib_compression_level
    fd1 fd2]; try assumption.
  - rewrite !write_zip_trailer_fd1, I, E, F, G.
    do 2 f_equal. apply mem_read_ext.
    intros i Hi. symmetry. apply (proj2 S).
    destruct W as (_ & _ & W3 & _). unfold is_uint in W3. lia.
  - exact (proj2 S).
Qed.

End Determinism.

Lemma initial_same_written fresh1 fresh2 level date time :
  same_written (initial_state fresh1 level date time)
               (initial_state fresh2 level date time).
Proof.
  split; [reflexivity|]. cbn. intros i Hi. lia.
Qed.

(** * The claims *)

(** ** C1 *)

(** C1 (as amended).  For every entry the encoder wrote (a call that
    returned something else than -1), the 30-byte local header and the
    46-byte central-directory record of that entry hold the same bytes
    in their compression-method, mtime, mdate, CRC-32, compressed-size,
    uncompressed-size and filename-length fields.  The CRC-32 field is
    what [crc32] gives for the content and its length modulo 2^32: the
    CRC-32 of the entry's uncompressed content when that is shorter
    than 2^32 bytes, and zero for a directory. *)
Theorem local_header_mirrors_directory_record
    (C : collab) (sha1 base filename : list byte) (mode stage : Z)
    (s s' : zip_state) (r : Z) :
  zlib_contract C ->
  wf_state s ->
  write_zip_entry C sha1 base filename mode stage s = Ret r s' ->
  r <> -1 ->
  let h := local_header_of s s' in
  let d := dir_record_of s s' in
  let content := entry_content C sha1 mode in
  length h = 30%nat /\ length d = 46%nat /\
  field 8 2 h = field 10 2 d /\
  field 10 2 h = field 12 2 d /\
  field 12 2 h = field 14 2 d /\
  field 14 4 h = field 16 4 d /\
  field 18 4 h = field 20 4 d /\
  field 22 4 h = field 24 4 d /\
  field 26 2 h = field 28 2 d /\
  field_value 14 4 h = crc32 C 0 content (zlen content mod 2 ^ 32) /\
  (zlen content < 2 ^ 32 ->
   field_value 14 4 h = crc32 C 0 content (zlen content)) /\
  (S_ISDIR mode = true -> field_value 14 4 h = 0).
Proof.
  intros ZC W H N h d content.
  destruct (write_zip_entry_encoded _ _ _ _ _ _ _ _ _ H N)
    as (l & P & _ & A).
  apply prepare_entry_Encode in P as (_ & PL & PB & P).
  destruct (appended_dir _ _ _ A W PL PB) as (_ & _ & D & _).
  pose proof (appended_local_header _ _ _ A) as L.
  pose proof (prepared_crc _ _ _ _ _ _ _ (crc32_initial _ ZC) P) as K.
  subst h d content. unfold dir_record_of. rewrite L, D.
  assert (V : field_value 14 4
                (local_header_bytes
                   (make_header (method l) (crc l) (compressed_size l)
                      (uncompressed_size l) (pathlen l) s))
              = crc32 C 0 (entry_content C sha1 mode)
                  (zlen (entry_content C sha1 mode) mod 2 ^ 32)).
  { change (le_value (copy_le32 (crc l)) = crc32 C 0 (entry_content C sha1 mode)
                  (uint (zlen (entry_content C sha1 mode)))).
    rewrite le_value_copy_le32, K. apply Z.mod_small.
    apply (crc32_range _ ZC). }
  repeat split; try reflexivity; try exact V.
  - intros B. rewrite V, Z.mod_small; [reflexivity|].
    split; [apply zlen_nonneg | exact B].
  - intros Dm. rewrite V. unfold entry_content. rewrite Dm.
    apply (crc32_initial _ ZC).
Qed.

Lemma local_header_mirrors_directory_record_witness :
  field 14 4 (local_header_of (sample_start 6) hello_written) =
  field 16 4 (dir_record_of (sample_start 6) hello_written) /\
  field_value 14 4 (local_header_of (sample_start 6) hello_written) = 907060870.
Proof.
  assert (R : write_zip_entry Sample.git (Sample.sha x01) []
                Sample.file_txt 33188 0 (sample_start 6) = Ret 0 hello_written)
    by (vm_compute; reflexivity).
  assert (W : wf_state (sample_start 6))
    by (vm_compute; intuition discriminate).
  destruct (local_header_mirrors_directory_record Sample.git _ _ _ _ _ _ _ _
              sample_zlib_contract W R ltac:(discriminate))
    as (_ & _ & _ & _ & _ & E & _ & _ & _ & _ & V & _).
  split; [exact E|]. rewrite V; vm_compute; reflexivity.
Defined.

(** ** C2 *)

(** C2 (as amended).  For every entry the encoder wrote, the offset
    field of its central-directory record is the value the cursor
    [zip_offset] had before the local header was written; the bytes sent
    to the stream are the 30-byte header, the path and the payload, whose
    length the compressed-size field holds modulo 2^32; and [zip_offset]
    advances by that number of bytes modulo 2^32.  So [zip_offset] is
    the total number of bytes written modulo 2^32, after every call and
    after every run from the initial state, and the number itself as
    long as the stream stays below 2^32 bytes. *)
Theorem cursor_follows_stream_modulo_2_32
    (C : collab) (sha1 base filename : list byte) (mode stage : Z)
    (s s' : zip_state) (r : Z) :
  objects_fit C ->
  wf_state s ->
  write_zip_entry C sha1 base filename mode stage s = Ret r s' ->
  r <> -1 ->
  let h := local_header_of s s' in
  let e := emitted s s' in
  field_value 42 4 (dir_record_of s s') = zip_offset s /\
  fd1 s' = fd1 s ++ e /\
  (exists q,
     e = h ++ full_path base filename mode ++ q /\
     length h = 30%nat /\
     field_value 18 4 h = zlen q mod 2 ^ 32) /\
  zip_offset s' = (zip_offset s + zlen e) mod 2 ^ 32 /\
  (zip_offset s = zlen (fd1 s) mod 2 ^ 32 ->
   zip_offset s' = zlen (fd1 s') mod 2 ^ 32) /\
  (zip_offset s = zlen (fd1 s) -> zlen (fd1 s') < 2 ^ 32 ->
   zip_offset s' = zip_offset s + zlen e /\
   zip_offset s' = zlen (fd1 s')) /\
  (forall es fresh level date time rs r0 s0,
     read_tree_recursive C es (initial_state fresh level date time)
       = (rs, Ret r0 s0) ->
     zip_offset s0 = zlen (fd1 s0) mod 2 ^ 32).
Proof.
  intros F W H N h e.
  assert (Run : forall es fresh level date time rs r0 s0,
            read_tree_recursive C es (initial_state fresh level date time)
              = (rs, Ret r0 s0) ->
            zip_offset s0 = zlen (fd1 s0) mod 2 ^ 32).
  { intros es fresh level date time rs r0 s0 R.
    apply (read_tree_recursive_offset C es _ _ _ _ F
             (initial_state_offset fresh level date time) R). }
  destruct (encoded_entry_stream _ _ _ _ _ _ _ _ _ F W H N)
    as (l & P & A & Em & Q & Z & O).
  apply prepare_entry_Encode in P as (PP & PL & PB & P).
  destruct (appended_dir _ _ _ A W PL PB) as (_ & _ & D & _).
  pose proof (appended_local_header _ _ _ A) as L.
  assert (E1 : fd1 s' = fd1 s ++ e).
  { subst e. rewrite (appended_emitted _ _ _ A). exact (ap_fd1 _ _ _ A). }
  assert (T : zlen (fd1 s') = zlen (fd1 s) + zlen e)
    by (rewrite E1; apply zlen_app).
  destruct W as (_ & W2 & _).
  pose proof (zlen_nonneg (fd1 s)). pose proof (zlen_nonneg e).
  unfold is_uint, UINT_BITS in W2. fold e in O.
  split.
  { unfold dir_record_of. rewrite D.
    change (le_value (copy_le32 (zip_offset s)) = zip_offset s).
    rewrite le_value_copy_le32. apply Z.mod_small. exact W2. }
  split; [exact E1|].
  split.
  { exists (payload l). split; [exact Em|]. subst h. rewrite L.
    split; [reflexivity|].
    change (le_value (copy_le32 (compressed_size l))
            = zlen (payload l) mod 2 ^ 32).
    rewrite le_value_copy_le32, Q. reflexivity. }
  split; [exact O|].
  split; [|split; [|exact Run]].
  - intros I. rewrite O, I, T. unfold uint, UINT_BITS.
    apply Zplus_mod_idemp_l.
  - intros I B. rewrite O. rewrite uint_small by lia. lia.
Qed.

Lemma cursor_follows_stream_modulo_2_32_witness :
  zip_offset hello_written = 43 /\ zlen (fd1 hello_written) = 43.
Proof.
  assert (R : write_zip_entry Sample.git (Sample.sha x01) []
                Sample.file_txt 33188 0 (sample_start 6) = Ret 0 hello_written)
    by (vm_compute; reflexivity).
  assert (W : wf_state (sample_start 6))
    by (vm_compute; intuition discriminate).
  destruct (cursor_follows_stream_modulo_2_32 Sample.git _ _ _ _ _ _ _ _
              sample_objects_fit W R ltac:(discriminate))
    as (_ & _ & _ & _ & _ & X & _).
  destruct X as [X1 X2]; [reflexivity | vm_compute; reflexivity |].
  split; [|vm_compute; reflexivity].
  rewrite X2. vm_compute. reflexivity.
Defined.

(** Against C2 as stated: one stored file of 2^32 bytes named "a",
    archived from the initial state.  The call returns 0 and sends
    2^32 + 31 bytes to the stream, and leaves [zip_offset] at 31. *)
Lemma cursor_wraps_past_4GiB :
  exists s',
    write_zip_entry Sample.huge_store (Sample.sha x01) [] [x61] 33188 0
      (sample_start 0) = Ret 0 s' /\
    zip_offset (sample_start 0) = 0 /\
    zlen (emitted (sample_start 0) s') = 4294967327 /\
    zip_offset s' = 31 /\
    zip_offset s' <>
      zip_offset (sample_start 0) + zlen (emitted (sample_start 0) s').
Proof.
  assert (L : zlen (full_path [] [x61] 33188) <= 65535)
    by (vm_compute; discriminate).
  assert (W : wf_state (sample_start 0))
    by (vm_compute; intuition discriminate).
  assert (Rm : has_room (zlen (full_path [] [x61] 33188)) (sample_start 0))
    by (vm_compute; discriminate).
  destruct (stored_file_entry Sample.huge_store (Sample.sha x01) []
              [x61] 33188 0 (sample_start 0) Sample.huge
              eq_refl eq_refl eq_refl L eq_refl W Rm)
    as (s' & E & _ & Em & Lh & _ & _ & O).
  exists s'. split; [exact E|]. split; [reflexivity|].
  rewrite zlen_huge in O.
  assert (Z : zlen (emitted (sample_start 0) s') = 4294967327).
  { rewrite Em, !zlen_app, zlen_huge. unfold zlen at 1. rewrite Lh.
    reflexivity. }
  assert (O' : zip_offset s' = 31) by (rewrite O; reflexivity).
  rewrite Z, O'. repeat split. discriminate.
Qed.

(** ** C3 *)

(** C3.  With a positive compression level, a regular file whose
    content is [buffer] and for which the deflate run ended with result
    code [res] and output [d] is written with method 8 and with the
    payload [d] without its first two and its last four bytes exactly
    when [res] is [Z_STREAM_END] and [zlen d - 6 < zlen buffer]; in every
    other case it is written with method 0, the payload is [buffer] and
    the compressed-size field equals the uncompressed-size field. *)
Theorem deflate_kept_iff_smaller
    (C : collab) (sha1 base filename : list byte) (mode stage : Z)
    (s : zip_state) (buffer d : list byte) (res : Z) :
  deflate_framed C ->
  0 < zlib_compression_level s ->
  S_ISREG mode = true ->
  read_sha1_file C sha1 = Some buffer ->
  deflate_finish C (zlib_compression_level s) buffer (zlen buffer)
    = (res, d) ->
  zlen (full_path base filename mode) <= 65535 ->
  wf_state s ->
  has_room (zlen (full_path base filename mode)) s ->
  exists s' q,
    write_zip_entry C sha1 base filename mode stage s = Ret 0 s' /\
    emitted s s' =
      local_header_of s s' ++ full_path base filename mode ++ q /\
    length (local_header_of s s') = 30%nat /\
    field_value 22 4 (local_header_of s s') = zlen buffer mod 2 ^ 32 /\
    if (res =? Z_STREAM_END) && (zlen d - 6 <? zlen buffer)
    then
      field_value 8 2 (local_header_of s s') = 8 /\
      (exists hd tl,
         d = hd ++ q ++ tl /\ length hd = 2%nat /\ length tl = 4%nat) /\
      field_value 18 4 (local_header_of s s') = zlen q mod 2 ^ 32
    else
      field_value 8 2 (local_header_of s s') = 0 /\
      q = buffer /\
      field 18 4 (local_header_of s s') = field 22 4 (local_header_of s s') /\
      field_value 18 4 (local_header_of s s') = zlen buffer mod 2 ^ 32.
Proof.
  intros Fr Lv R B Df L W Rm.
  assert (N : zlib_compression_level s <> 0) by lia.
  pose proof (prepare_entry_deflating C sha1 base filename mode _ _ R B L N)
    as P.
  assert (Stored :
    prepare_entry C sha1 base filename mode (zlib_compression_level s) =
    Encode {| path := full_path base filename mode;
              pathlen := zlen (full_path base filename mode);
              method := 0; result := 0; out := buffer;
              uncompressed_size := zlen buffer;
              compressed_size := zlen buffer;
              crc := crc32 C (crc32 C 0 [] 0) buffer (uint (zlen buffer)) |} ->
    exists s' q,
      write_zip_entry C sha1 base filename mode stage s = Ret 0 s' /\
      emitted s s' =
        local_header_of s s' ++ full_path base filename mode ++ q /\
      length (local_header_of s s') = 30%nat /\
      field_value 22 4 (local_header_of s s') = zlen buffer mod 2 ^ 32 /\
      field_value 8 2 (local_header_of s s') = 0 /\
      q = buffer /\
      field 18 4 (local_header_of s s') = field 22 4 (local_header_of s s') /\
      field_value 18 4 (local_header_of s s') = zlen buffer mod 2 ^ 32).
  { intros P'.
    destruct (encode_locals _ _ _ _ _ stage _ _ P' W Rm)
      as (s' & E & _ & H & Em).
    exists s', buffer. split; [exact E|].
    unfold payload in Em.
    cbn [method crc compressed_size uncompressed_size pathlen out] in H, Em.
    rewrite firstn_zlen in Em.
    assert (Pb : (if zlen buffer >? 0 then buffer else []) = buffer)
      by (destruct buffer; reflexivity).
    rewrite Pb in Em. split; [exact Em|]. rewrite H.
    split; [reflexivity|]. split; [apply header_size|].
    split; [apply (header_method 0)|]. split; [reflexivity|].
    split; [reflexivity | apply header_compressed_size]. }
  unfold try_deflate, zlib_deflate in P. cbn [Z.eqb Pos.eqb] in P.
  rewrite Df in P.
  destruct (Z.eqb_spec res Z_STREAM_END) as [Er|Er]; cbn [negb andb] in *.
  - subst res. destruct (Fr _ _ _ _ Df) as [D6 D64].
    rewrite (ulong_small (zlen d - 6)) in P by lia.
    destruct (zlen d - 6 <? zlen buffer) eqn:Lt.
    + destruct (encode_locals _ _ _ _ _ stage _ _ P W Rm)
        as (s' & E & _ & H & Em).
      exists s', (firstn (Z.to_nat (zlen d - 6)) (skipn 2 d)).
      split; [exact E|].
      unfold payload in Em.
      cbn [method crc compressed_size uncompressed_size pathlen out] in H, Em.
      assert (Pq : (if zlen d - 6 >? 0
                    then firstn (Z.to_nat (zlen d - 6)) (skipn 2 d)
                    else []) = firstn (Z.to_nat (zlen d - 6)) (skipn 2 d)).
      { rewrite Z.gtb_ltb.
        destruct (Z.ltb_spec 0 (zlen d - 6)) as [G|G]; [reflexivity|].
        replace (zlen d - 6) with 0 by lia. reflexivity. }
      rewrite Pq in Em. split; [exact Em|]. rewrite H.
      split; [reflexivity|]. split; [apply header_size|].
      split; [apply (header_method 8)|].
      split; [apply zlib_stream_stripped; exact D6|].
      rewrite header_compressed_size. f_equal.
      unfold zlen in *. rewrite length_firstn, length_skipn. lia.
    + destruct (Stored P) as (s' & q & X). exists s', q. exact X.
  - destruct (Stored P) as (s' & q & X). exists s', q. exact X.
Qed.

Lemma deflate_kept_iff_smaller_witness :
  exists s' q,
    write_zip_entry Sample.git (Sample.sha x02) [] Sample.file_txt 33188 0
      (sample_start 6) = Ret 0 s' /\
    field_value 8 2 (local_header_of (sample_start 6) s') = 8 /\
    q = Sample.bytes_of [75; 76; 196; 4; 0].
Proof.
  destruct (deflate_kept_iff_smaller Sample.git (Sample.sha x02) []
              Sample.file_txt 33188 0 (sample_start 6) Sample.twenty_a
              (Sample.bytes_of [120; 156; 75; 76; 196; 4; 0; 79; 166; 7; 149])
              1 sample_deflate_framed)
    as (s' & q & E & _ & _ & _ & X);
    try reflexivity; try (vm_compute; intuition discriminate).
  exists s', q. split; [exact E|].
  change ((1 =? Z_STREAM_END) &&
          (zlen (Sample.bytes_of [120; 156; 75; 76; 196; 4; 0; 79; 166; 7; 149])
           - 6 <? zlen Sample.twenty_a)) with true in X.
  destruct X as (M & (hd & tl & D & Lh & Lt) & _).
  split; [exact M|].
  assert (Lq : length q = 5%nat).
  { apply (f_equal (@length byte)) in D.
    rewrite !length_app, Lh, Lt in D. cbn in D. lia. }
  destruct hd as [|a [|b [|? ?]]]; try discriminate.
  destruct q as [|q1 [|q2 [|q3 [|q4 [|q5 [|? ?]]]]]]; try discriminate.
  cbv [Sample.bytes_of map] in D. cbn [app] in D.
  injection D as _ _ <- <- <- <- <- _.
  reflexivity.
Defined.

(** ** C4 *)

(** C4 (as amended).  The finalizer writes the [zip_dir_offset] bytes of
    the central-directory buffer, then a 22-byte trailer, then the
    comment.  The size field of the trailer is [zip_dir_offset], its
    offset field is the value of [zip_offset] when the finalizer starts,
    and both entry-count fields hold [zip_dir_entries] modulo 2^16, which
    is [zip_dir_entries] itself below 65536.  With a digest the
    comment-length field is 40 and the comment is the 40 lowercase
    hexadecimal characters of the digest; without one the field is 0 and
    nothing follows the trailer. *)
Theorem trailer_counts_entries_modulo_2_16
    (sha1 : option (list byte)) (s : zip_state) :
  wf_state s ->
  (forall h, sha1 = Some h -> length h = 20%nat) ->
  let t := trailer_of sha1 s in
  let c := comment_of sha1 s in
  fd1 (write_zip_trailer sha1 s) =
    (fd1 s ++ mem_read (zip_dir s) 0 (Z.to_nat (zip_dir_offset s))) ++
    t ++ c /\
  length t = 22%nat /\
  field_value 8 2 t = zip_dir_entries s mod 2 ^ 16 /\
  field_value 10 2 t = zip_dir_entries s mod 2 ^ 16 /\
  (zip_dir_entries s < 2 ^ 16 ->
   field_value 8 2 t = zip_dir_entries s /\
   field_value 10 2 t = zip_dir_entries s) /\
  field_value 12 4 t = zip_dir_offset s /\
  field_value 16 4 t = zip_offset s /\
  match sha1 with
  | Some h =>
      field_value 20 2 t = 40 /\ c = sha1_to_hex h /\
      length c = 40%nat /\ Forall (fun b => is_lower_hex b = true) c
  | None => field_value 20 2 t = 0 /\ c = []
  end.
Proof.
  intros (_ & W2 & W3 & W4) Hd t c.
  destruct (write_zip_trailer_split sha1 s) as (E & T & K).
  fold t in E, T. fold c in E, K.
  unfold is_uint, UINT_BITS in *.
  split; [exact E|]. rewrite T.
  split; [reflexivity|].
  assert (N : forall n, field_value 8 2
                (dir_trailer_bytes
                   {| tr_magic := copy_le32 0x06054b50;
                      tr_disk := copy_le16 0;
                      tr_directory_start_disk := copy_le16 0;
                      tr_entries_on_this_disk := copy_le16 (zip_dir_entries s);
                      tr_entries := copy_le16 (zip_dir_entries s);
                      tr_size := copy_le32 (zip_dir_offset s);
                      tr_offset := copy_le32 (zip_offset s);
                      tr_comment_length := copy_le16 n |})
              = zip_dir_entries s mod 2 ^ 16)
    by (intros n; exact (le_value_copy_le16 (zip_dir_entries s))).
  split; [apply N|].
  split; [exact (le_value_copy_le16 (zip_dir_entries s))|].
  split.
  { intros B. rewrite N.
    change (field_value 10 2 ?x) with (le_value (copy_le16 (zip_dir_entries s))).
    rewrite le_value_copy_le16, Z.mod_small by lia. auto. }
  split.
  { change (field_value 12 4 ?x) with (le_value (copy_le32 (zip_dir_offset s))).
    rewrite le_value_copy_le32. apply Z.mod_small. lia. }
  split.
  { change (field_value 16 4 ?x) with (le_value (copy_le32 (zip_offset s))).
    rewrite le_value_copy_le32. apply Z.mod_small. lia. }
  destruct sha1 as [h|].
  - specialize (Hd h eq_refl).
    assert (L : length (sha1_to_hex h) = 40%nat)
      by (rewrite sha1_to_hex_length, Hd; reflexivity).
    rewrite <- L, firstn_all in K. rewrite K.
    split; [reflexivity|]. split; [reflexivity|].
    split; [exact L | apply sha1_to_hex_lower].
  - split; [reflexivity | exact K].
Qed.

Lemma trailer_counts_entries_modulo_2_16_witness :
  field_value 8 2 (trailer_of (Some (Sample.sha x0a)) hello_written) = 1 /\
  field_value 20 2 (trailer_of (Some (Sample.sha x0a)) hello_written) = 40 /\
  comment_of (Some (Sample.sha x0a)) hello_written =
    flat_map (fun _ => [x30; x61]) (seq 0 20).
Proof.
  assert (W : wf_state hello_written) by (vm_compute; intuition discriminate).
  assert (D : forall h, Some (Sample.sha x0a) = Some h -> length h = 20%nat)
    by (intros h [= <-]; reflexivity).
  destruct (trailer_counts_entries_modulo_2_16 _ _ W D)
    as (_ & _ & _ & _ & B & _ & _ & L & K & _).
  destruct B as [B _]; [vm_compute; reflexivity|].
  split; [rewrite B; vm_compute; reflexivity|].
  split; [exact L|]. rewrite K. vm_compute. reflexivity.
Defined.

(** Against C4 as stated: after a tree of 65536 directories, archived
    from the initial state, [zip_dir_entries] is 65536 and the finalizer
    writes 0 into both entry-count fields of the trailer. *)
Lemma trailer_count_wraps_at_65536 :
  exists rs s,
    read_tree_recursive Sample.git (many_dirs 65536) (sample_start 0)
      = (rs, Ret 0 s) /\
    zip_dir_entries s = 65536 /\
    field_value 8 2 (trailer_of None s) = 0 /\
    field_value 10 2 (trailer_of None s) = 0 /\
    field_value 8 2 (trailer_of None s) <> zip_dir_entries s.
Proof.
  destruct (many_dirs_counted Sample.git Sample.fresh 0 100 200 65536)
    as (rs & s & R & _ & N & _); [lia|].
  exists rs, s. split; [exact R|]. split; [exact N|].
  destruct (trailer_fields None s) as (_ & A & B & _).
  rewrite A, B, N. repeat split. discriminate.
Qed.

(** ** C5 *)



(** ** C6 *)



(** ** C7 *)

(** C7 (as amended).  A directory entry is written with method 0, CRC 0,
    compressed size 0 and uncompressed size 0, its path ends in '/',
    nothing follows the header and the path, and the call returns
    READ_TREE_RECURSIVE.  For every encoded entry the compressed-size
    field holds the number of payload bytes modulo 2^32: a nonzero field
    means payload bytes were written, and for a payload of less than
    2^32 bytes payload bytes were written if and only if the field is
    nonzero. *)
Theorem directories_carry_no_payload
    (C : collab) (sha1 base filename : list byte) (mode stage : Z)
    (s : zip_state) :
  zlib_contract C -> objects_fit C -> wf_state s ->
  (S_ISDIR mode = true ->
   zlen (full_path base filename mode) <= 65535 ->
   has_room (zlen (full_path base filename mode)) s ->
   exists s',
     write_zip_entry C sha1 base filename mode stage s
       = Ret READ_TREE_RECURSIVE s' /\
     emitted s s' = local_header_of s s' ++ full_path base filename mode /\
     length (local_header_of s s') = 30%nat /\
     full_path base filename mode = (base ++ filename) ++ [x2f] /\
     field_value 8 2 (local_header_of s s') = 0 /\
     field_value 14 4 (local_header_of s s') = 0 /\
     field_value 18 4 (local_header_of s s') = 0 /\
     field_value 22 4 (local_header_of s s') = 0) /\
  (forall r s',
     write_zip_entry C sha1 base filename mode stage s = Ret r s' ->
     r <> -1 ->
     exists q,
       emitted s s' =
         local_header_of s s' ++ full_path base filename mode ++ q /\
       length (local_header_of s s') = 30%nat /\
       field_value 18 4 (local_header_of s s') = zlen q mod 2 ^ 32 /\
       (field_value 18 4 (local_header_of s s') <> 0 -> q <> []) /\
       (zlen q < 2 ^ 32 ->
        (q <> [] <-> field_value 18 4 (local_header_of s s') <> 0))).
Proof.
  intros ZC F W. split.
  - intros D L Rm.
    pose proof (prepare_entry_directory C sha1 base filename mode
                  (zlib_compression_level s) D L) as P.
    destruct (encode_locals _ _ _ _ _ stage _ _ P W Rm)
      as (s' & E & _ & H & Em).
    exists s'. split; [exact E|].
    cbn [method crc compressed_size uncompressed_size pathlen] in H.
    unfold payload in Em. cbn [compressed_size] in Em.
    change (0 >? 0) with false in Em. cbv iota in Em.
    rewrite app_nil_r in Em. split; [exact Em|]. rewrite H.
    split; [reflexivity|].
    split; [unfold full_path; rewrite D; apply app_assoc|].
    split; [apply (header_method 0)|].
    split; [rewrite header_crc, (crc32_initial _ ZC); reflexivity|].
    split; [apply (header_compressed_size 0 (crc32 C 0 [] 0) 0)|].
    apply (header_size 0 (crc32 C 0 [] 0) 0).
  - intros r s' H N.
    destruct (encoded_entry_stream _ _ _ _ _ _ _ _ _ F W H N)
      as (l & P & A & Em & Q & _ & _).
    exists (payload l). split; [exact Em|].
    rewrite (appended_local_header _ _ _ A).
    split; [reflexivity|].
    rewrite header_compressed_size, Q.
    pose proof (zlen_nonneg (payload l)) as Pq.
    assert (Z0 : payload l = [] <-> zlen (payload l) = 0).
    { unfold zlen. destruct (payload l); cbn [length]; split;
        intros; try reflexivity; try discriminate; lia. }
    rewrite <- Q.
    split; [reflexivity|]. split.
    + intros Nz Eq. apply Z0 in Eq. rewrite Eq in Nz. apply Nz. reflexivity.
    + intros B. rewrite Z.mod_small by lia. rewrite Z0. tauto.
Qed.

Lemma directories_carry_no_payload_witness :
  exists s',
    write_zip_entry Sample.git (Sample.sha x09) [] Sample.dir_name 16384 0
      (sample_start 6) = Ret READ_TREE_RECURSIVE s' /\
    emitted (sample_start 6) s' =
      local_header_of (sample_start 6) s' ++
      Sample.bytes_of [100; 105; 114; 47] /\
    field_value 18 4 (local_header_of (sample_start 6) s') = 0.
Proof.
  assert (W : wf_state (sample_start 6))
    by (vm_compute; intuition discriminate).
  destruct (proj1 (directories_carry_no_payload Sample.git (Sample.sha x09)
                     [] Sample.dir_name 16384 0 (sample_start 6)
                     sample_zlib_contract sample_objects_fit W))
    as (s' & E & Em & _ & _ & _ & _ & Z & _);
    [reflexivity | vm_compute; discriminate | vm_compute; discriminate |].
  exists s'. split; [exact E|]. split; [exact Em | exact Z].
Defined.

(** Against C7 as stated: for the stored file of 2^32 bytes the call
    writes 2^32 payload bytes after the header and the path, and the
    compressed-size field of the header is zero. *)
Lemma payload_written_with_zero_size_field :
  exists s' q,
    write_zip_entry Sample.huge_store (Sample.sha x01) [] [x61] 33188 0
      (sample_start 0) = Ret 0 s' /\
    emitted (sample_start 0) s' =
      local_header_of (sample_start 0) s' ++ full_path [] [x61] 33188 ++ q /\
    length (local_header_of (sample_start 0) s') = 30%nat /\
    zlen q = 4294967296 /\
    q <> [] /\
    field_value 18 4 (local_header_of (sample_start 0) s') = 0.
Proof.
  assert (L : zlen (full_path [] [x61] 33188) <= 65535)
    by (vm_compute; discriminate).
  assert (W : wf_state (sample_start 0))
    by (vm_compute; intuition discriminate).
  assert (Rm : has_room (zlen (full_path [] [x61] 33188)) (sample_start 0))
    by (vm_compute; discriminate).
  destruct (stored_file_entry Sample.huge_store (Sample.sha x01) []
              [x61] 33188 0 (sample_start 0) Sample.huge
              eq_refl eq_refl eq_refl L eq_refl W Rm)
    as (s' & E & _ & Em & Lh & Cs & _ & _).
  exists s', Sample.huge.
  split; [exact E|]. split; [exact Em|]. split; [exact Lh|].
  split; [exact zlen_huge|].
  split.
  { intros Nil. pose proof zlen_huge as Z. rewrite Nil in Z.
    discriminate Z. }
  rewrite Cs, zlen_huge. reflexivity.
Qed.

(** ** C8 *)

(** C8.  The archive does not depend on anything but the entries, the
    compression level, the date and time and the digest: two builds over
    the same inputs end the same way with the same bytes on the archive
    stream, whatever the fresh memory of the directory buffer held. *)
Theorem archive_is_deterministic
    (C : collab) (fresh1 fresh2 : mem) (level date time : Z)
    (tree_sha1 base : list byte) (es : list entry)
    (commit : option (list byte)) :
  observe (zip_tree C fresh1 level date time tree_sha1 base es commit) =
  observe (zip_tree C fresh2 level date time tree_sha1 base es commit).
Proof.
  apply same_written_observe. unfold zip_tree.
  set (s1 := initial_state fresh1 level date time).
  set (s2 := initial_state fresh2 level date time).
  assert (W : wf_state s1)
    by (apply (initial_state_inv fresh1 level date time)).
  assert (S : same_written s1 s2) by apply initial_same_written.
  assert (X : same_outcome
                (if zlen base >? 0
                 then write_zip_entry C tree_sha1 [] base 16895 0 s1
                 else Ret 0 s1)
                (if zlen base >? 0
                 then write_zip_entry C tree_sha1 [] base 16895 0 s2
                 else Ret 0 s2)).
  { destruct (zlen base >? 0);
      [apply write_zip_entry_same | apply SameRet]; assumption. }
  inversion X as [r t1 t2 W' S' E1 E2 | t1 t2 S' E1 E2 | t1 t2 S' E1 E2];
    [| apply SameDie; exact S' | apply SameLoop; exact S'].
  destruct (read_tree_recursive_same C es t1 t2 W' S') as [_ Y].
  inversion Y as [r' u1 u2 W'' S'' F1 F2 | u1 u2 S'' F1 F2 | u1 u2 S'' F1 F2];
    [| apply SameDie; exact S'' | apply SameLoop; exact S''].
  apply SameRet.
  - unfold write_zip_trailer. destruct commit; exact W''.
  - apply write_zip_trailer_same; assumption.
Qed.

(** ** C9 *)

(** C9.  The test of line 196 subtracts 6 from the compressed size in
    [unsigned long]: for a deflate output of fewer than six bytes the
    difference wraps to at least 2^64 - 6 and the output is rejected, so
    the entry is stored.  An empty regular file is stored whatever the
    deflate run returned: method 0, compressed size 0, and nothing after
    the header and the path. *)
Theorem short_deflate_output_is_stored
    (C : collab) (sha1 base filename : list byte) (mode stage : Z)
    (s : zip_state) (buffer d : list byte) (res : Z) :
  0 < zlib_compression_level s ->
  S_ISREG mode = true ->
  read_sha1_file C sha1 = Some buffer ->
  deflate_finish C (zlib_compression_level s) buffer (zlen buffer)
    = (res, d) ->
  zlen (full_path base filename mode) <= 65535 ->
  wf_state s ->
  has_room (zlen (full_path base filename mode)) s ->
  (zlen d < 6 -> zlen buffer <= PTRDIFF_MAX ->
   2 ^ 64 - 6 <= ulong (zlen d - 6) /\
   exists s',
     write_zip_entry C sha1 base filename mode stage s = Ret 0 s' /\
     emitted s s' =
       local_header_of s s' ++ full_path base filename mode ++ buffer /\
     length (local_header_of s s') = 30%nat /\
     field_value 8 2 (local_header_of s s') = 0 /\
     field_value 18 4 (local_header_of s s') = zlen buffer mod 2 ^ 32) /\
  (buffer = [] ->
   exists s',
     write_zip_entry C sha1 base filename mode stage s = Ret 0 s' /\
     emitted s s' = local_header_of s s' ++ full_path base filename mode /\
     length (local_header_of s s') = 30%nat /\
     field_value 8 2 (local_header_of s s') = 0 /\
     field_value 18 4 (local_header_of s s') = 0 /\
     field_value 22 4 (local_header_of s s') = 0).
Proof.
  intros Lv R B Df L W Rm.
  assert (N : zlib_compression_level s <> 0) by lia.
  pose proof (prepare_entry_deflating C sha1 base filename mode _ _ R B L N)
    as P.
  assert (K : zlen buffer <= ulong (zlen d - 6) ->
              try_deflate C (zlib_compression_level s) 8 buffer (zlen buffer)
                buffer (zlen buffer) = (0, buffer, zlen buffer)).
  { intros G. unfold try_deflate, zlib_deflate. cbn [Z.eqb Pos.eqb].
    rewrite Df. destruct (res =? Z_STREAM_END); cbn [negb]; [|reflexivity].
    destruct (Z.ltb_spec (ulong (zlen d - 6)) (zlen buffer)); [lia|].
    reflexivity. }
  pose proof (zlen_nonneg d) as Pd.
  split.
  - intros Sh Fit.
    assert (U : ulong (zlen d - 6) = 2 ^ 64 - 6 + zlen d).
    { unfold ulong, ULONG_BITS.
      replace (zlen d - 6) with (2 ^ 64 - 6 + zlen d + (-1) * 2 ^ 64) by lia.
      rewrite Z.mod_add by lia. apply Z.mod_small. lia. }
    split; [lia|].
    rewrite K in P by (unfold PTRDIFF_MAX in Fit; lia).
    destruct (stored_locals_written _ _ _ _ _ stage _ _ _ P W Rm)
      as (s' & E & Em & Lh & M & Cs & _).
    exists s'. auto.
  - intros ->.
    rewrite K in P by (pose proof (ulong_range (zlen d - 6));
                       unfold zlen at 1; cbn [length]; lia).
    destruct (stored_locals_written _ _ _ _ _ stage _ _ _ P W Rm)
      as (s' & E & Em & Lh & M & Cs & Us).
    exists s'. rewrite app_nil_r in Em. auto 7.
Qed.

Lemma short_deflate_output_is_stored_witness :
  (exists s',
     write_zip_entry Sample.stub_zlib (Sample.sha x01) [] Sample.file_txt
       33188 0 (sample_start 9) = Ret 0 s' /\
     emitted (sample_start 9) s' =
       local_header_of (sample_start 9) s' ++
       full_path [] Sample.file_txt 33188 ++ Sample.hello /\
     field_value 8 2 (local_header_of (sample_start 9) s') = 0) /\
  (exists s',
     write_zip_entry Sample.git (Sample.sha x03) [] Sample.file_txt
       33188 0 (sample_start 9) = Ret 0 s' /\
     emitted (sample_start 9) s' =
       local_header_of (sample_start 9) s' ++
       full_path [] Sample.file_txt 33188 /\
     field_value 8 2 (local_header_of (sample_start 9) s') = 0 /\
     field_value 18 4 (local_header_of (sample_start 9) s') = 0).
Proof.
  assert (W : wf_state (sample_start 9))
    by (vm_compute; intuition discriminate).
  assert (L : zlen (full_path [] Sample.file_txt 33188) <= 65535)
    by (vm_compute; discriminate).
  assert (Rm : has_room (zlen (full_path [] Sample.file_txt 33188))
                 (sample_start 9))
    by (vm_compute; discriminate).
  split.
  - destruct (proj1 (short_deflate_output_is_stored Sample.stub_zlib
                       (Sample.sha x01) [] Sample.file_txt 33188 0
                       (sample_start 9) Sample.hello
                       (Sample.bytes_of [1; 2; 3]) 1
                       eq_refl eq_refl eq_refl eq_refl L W Rm))
      as (_ & s' & E & Em & _ & M & _);
      [vm_compute; reflexivity | vm_compute; discriminate |].
    exists s'. auto.
  - destruct (proj2 (short_deflate_output_is_stored Sample.git
                       (Sample.sha x03) [] Sample.file_txt 33188 0
                       (sample_start 9) []
                       (Sample.bytes_of [120; 156; 3; 0; 0; 0; 0; 1]) 1
                       eq_refl eq_refl eq_refl eq_refl L W Rm))
      as (s' & E & Em & _ & M & Cs & _); [reflexivity|].
    exists s'. auto.
Defined.

(** ** C10 *)

(** C10.  [copy_le16] and [copy_le32] store their argument modulo 2^16
    and 2^32.  The cursors and the entry count stay 32-bit values.  An
    encoded entry is never refused for its size or for the position of
    the stream: the call returns 0 or READ_TREE_RECURSIVE and reports
    nothing, [zip_offset] advances modulo 2^32, and the offset and size
    fields hold the cursor and the byte counts modulo 2^32, behind a
    header that always asks for version 20 and has no extra field.  The
    finalizer reports nothing either and writes the entry count modulo
    2^16.  The wrap-around is reached: a stored file of 2^32 bytes leaves
    [zip_offset] at 31 after 2^32 + 31 bytes with both size fields zero,
    and after 65536 directories the entry-count field of the trailer is
    zero. *)
Theorem fields_and_cursors_wrap_silently :
  (forall n,
     le_value (copy_le16 n) = n mod 2 ^ 16 /\
     le_value (copy_le32 n) = n mod 2 ^ 32) /\
  (forall C sha1 base filename mode stage s r s',
     objects_fit C -> wf_state s ->
     write_zip_entry C sha1 base filename mode stage s = Ret r s' ->
     r <> -1 ->
     wf_state s' /\
     (r = 0 \/ r = READ_TREE_RECURSIVE) /\
     fd2 s' = fd2 s /\
     zip_offset s' = (zip_offset s + zlen (emitted s s')) mod 2 ^ 32 /\
     zip_dir_entries s' = (zip_dir_entries s + 1) mod 2 ^ 32 /\
     field_value 42 4 (dir_record_of s s') = zip_offset s mod 2 ^ 32 /\
     exists q,
       emitted s s' =
         local_header_of s s' ++ full_path base filename mode ++ q /\
       length (local_header_of s s') = 30%nat /\
       field_value 4 2 (local_header_of s s') = 20 /\
       field_value 28 2 (local_header_of s s') = 0 /\
       field_value 18 4 (local_header_of s s') = zlen q mod 2 ^ 32 /\
       field_value 22 4 (local_header_of s s') =
         zlen (entry_content C sha1 mode) mod 2 ^ 32) /\
  (forall sha1 s,
     fd2 (write_zip_trailer sha1 s) = fd2 s /\
     field_value 8 2 (trailer_of sha1 s) = zip_dir_entries s mod 2 ^ 16 /\
     field_value 10 2 (trailer_of sha1 s) = zip_dir_entries s mod 2 ^ 16 /\
     field_value 12 4 (trailer_of sha1 s) = zip_dir_offset s mod 2 ^ 32 /\
     field_value 16 4 (trailer_of sha1 s) = zip_offset s mod 2 ^ 32) /\
  (exists s',
     write_zip_entry Sample.huge_store (Sample.sha x01) [] [x61] 33188 0
       (sample_start 0) = Ret 0 s' /\
     fd2 s' = [] /\
     zlen (emitted (sample_start 0) s') = 2 ^ 32 + 31 /\
     zip_offset s' = 31 /\
     field_value 18 4 (local_header_of (sample_start 0) s') = 0 /\
     field_value 22 4 (local_header_of (sample_start 0) s') = 0) /\
  (exists rs s,
     read_tree_recursive Sample.git (many_dirs 65536) (sample_start 0)
       = (rs, Ret 0 s) /\
     fd2 (write_zip_trailer None s) = [] /\
     zip_dir_entries s = 65536 /\
     field_value 8 2 (trailer_of None s) = 0 /\
     field_value 10 2 (trailer_of None s) = 0).
Proof.
  split; [|split; [|split; [|split]]].
  - intros n. split; [apply le_value_copy_le16 | apply le_value_copy_le32].
  - intros C sha1 base filename mode stage s r s' F W H N.
    destruct (encoded_entry_stream _ _ _ _ _ _ _ _ _ F W H N)
      as (l & P & A & Em & Q & _ & O).
    pose proof (write_zip_entry_encoded _ _ _ _ _ _ _ _ _ H N)
      as (l' & P' & Er & _).
    rewrite P in P'. injection P' as <-.
    apply prepare_entry_Encode in P as (PP & PL & PB & P).
    destruct (appended_dir _ _ _ A W PL PB) as (_ & _ & D & _).
    split; [exact (appended_wf _ _ _ A W)|].
    split; [rewrite Er; apply prepared_result in P;
            unfold READ_TREE_RECURSIVE; exact P|].
    split; [exact (ap_fd2 _ _ _ A)|].
    split; [exact O|].
    split; [exact (ap_dir_entries _ _ _ A)|].
    split.
    { unfold dir_record_of. rewrite D.
      exact (le_value_copy_le32 (zip_offset s)). }
    exists (payload l). split; [exact Em|].
    rewrite (appended_local_header _ _ _ A).
    split; [reflexivity|].
    split; [apply header_version|]. split; [apply header_extra_length|].
    split; [rewrite header_compressed_size, Q; reflexivity|].
    rewrite header_size. f_equal.
    destruct P as [Dm _ _ _ U _ _ | b Dm _ B _ U _ _];
      unfold entry_content; rewrite Dm, U; [reflexivity|].
    rewrite B. reflexivity.
  - intros sha1 s.
    split; [unfold write_zip_trailer; destruct sha1; reflexivity|].
    apply trailer_fields.
  - assert (L : zlen (full_path [] [x61] 33188) <= 65535)
      by (vm_compute; discriminate).
    assert (W : wf_state (sample_start 0))
      by (vm_compute; intuition discriminate).
    assert (Rm : has_room (zlen (full_path [] [x61] 33188)) (sample_start 0))
      by (vm_compute; discriminate).
    destruct (stored_file_entry Sample.huge_store (Sample.sha x01) []
                [x61] 33188 0 (sample_start 0) Sample.huge
                eq_refl eq_refl eq_refl L eq_refl W Rm)
      as (s' & E & E2 & Em & Lh & Cs & Us & O).
    exists s'. split; [exact E|]. split; [exact E2|].
    rewrite zlen_huge in O, Cs, Us.
    split.
    { rewrite Em, !zlen_app, zlen_huge. unfold zlen at 1. rewrite Lh.
      reflexivity. }
    split; [rewrite O; reflexivity|].
    split; [rewrite Cs; reflexivity | rewrite Us; reflexivity].
  - destruct (many_dirs_counted Sample.git Sample.fresh 0 100 200 65536)
      as (rs & s & R & _ & N & E); [lia|].
    exists rs, s. split; [exact R|].
    split; [unfold write_zip_trailer; cbn [fd2 write_or_die]; exact E|].
    split; [exact N|].
    destruct (trailer_fields None s) as (_ & A & B & _).
    rewrite A, B, N. split; reflexivity.
Qed.

Lemma fields_and_cursors_wrap_silently_witness :
  zip_offset hello_written = 43 mod 2 ^ 32 /\
  field_value 22 4 (local_header_of (sample_start 6) hello_written) = 5.
Proof.
  assert (R : write_zip_entry Sample.git (Sample.sha x01) []
                Sample.file_txt 33188 0 (sample_start 6) = Ret 0 hello_written)
    by (vm_compute; reflexivity).
  assert (W : wf_state (sample_start 6))
    by (vm_compute; intuition discriminate).
  destruct fields_and_cursors_wrap_silently as (_ & X & _).
  destruct (X Sample.git _ _ _ _ _ _ _ _ sample_objects_fit W R
              ltac:(discriminate))
    as (_ & _ & _ & O & _ & _ & q & _ & _ & _ & _ & _ & U).
  split.
  - rewrite O. vm_compute. reflexivity.
  - rewrite U. vm_compute. reflexivity.
Defined.


(** * Further properties *)

(** ** Little-endian packing, the other way round *)

Lemma uchar_byte_val b : uchar (byte_val b) = b.
Proof.
  unfold uchar, byte_val.
  pose proof (Byte.to_N_bounded b) as B.
  rewrite Z.mod_small by lia.
  rewrite N2Z.id, Byte.of_to_N. reflexivity.
Qed.

Lemma byte_val_range b : 0 <= byte_val b < 256.
Proof. unfold byte_val. pose proof (Byte.to_N_bounded b). lia. Qed.

Lemma le_value_range bs : 0 <= le_value bs < 256 ^ zlen bs.
Proof.
  induction bs as [|b bs IH]; [cbn; lia|].
  cbn [le_value]. pose proof (byte_val_range b).
  replace (zlen (b :: bs)) with (zlen bs + 1)
    by (unfold zlen; cbn [length]; lia).
  rewrite Z.pow_add_r by (try apply zlen_nonneg; lia).
  change (256 ^ 1) with 256. nia.
Qed.

(** X1.  [copy_le16] and [copy_le32] are onto the byte strings of their
    width: packing the number a string of two (four) bytes holds gives
    the string back, and the four bytes of [copy_le32] are the two of
    [copy_le16] on the low half followed by the two on the high half. *)
Theorem copy_le_of_le_value (bs : list byte) (n : Z) :
  (length bs = 2%nat -> copy_le16 (le_value bs) = bs) /\
  (length bs = 4%nat -> copy_le32 (le_value bs) = bs) /\
  copy_le32 n = copy_le16 n ++ copy_le16 (Z.shiftr (uint n) 16).
Proof.
  assert (B : forall v b, 0 <= v -> 0 <= b < 256 ->
                (b + 256 * v) mod 256 = b /\ (b + 256 * v) / 256 = v).
  { intros v b Pv Pb. split; symmetry.
    - apply (Z.mod_unique _ _ v); lia.
    - apply (Z.div_unique _ _ _ b); lia. }
  split; [|split].
  - intros L. destruct bs as [|a [|b [|? ?]]]; try discriminate.
    pose proof (byte_val_range a). pose proof (byte_val_range b).
    unfold copy_le16. cbn [le_value].
    rewrite uint_small by lia. rewrite !land_255.
    rewrite Z.shiftr_div_pow2 by lia. change (2 ^ 8) with 256.
    replace (256 * 0) with 0 by lia. rewrite Z.add_0_r.
    destruct (B (byte_val b) (byte_val a)) as [M D]; try lia.
    rewrite M, D, (Z.mod_small (byte_val b)) by lia.
    rewrite !uchar_byte_val. reflexivity.
  - intros L. destruct bs as [|a [|b [|c [|d [|? ?]]]]]; try discriminate.
    pose proof (byte_val_range a). pose proof (byte_val_range b).
    pose proof (byte_val_range c). pose proof (byte_val_range d).
    unfold copy_le32. cbn [le_value].
    rewrite uint_small by lia. rewrite !land_255.
    rewrite !Z.shiftr_div_pow2 by lia.
    change (2 ^ 8) with 256. change (2 ^ 16) with (256 * 256).
    change (2 ^ 24) with (256 * 256 * 256).
    rewrite <- !Z.div_div by lia.
    replace (256 * 0) with 0 by lia. rewrite Z.add_0_r.
    set (v3 := byte_val d) in *.
    set (v2 := byte_val c + 256 * v3).
    set (v1 := byte_val b + 256 * v2).
    destruct (B v1 (byte_val a)) as [M0 D0]; try (subst v1 v2; lia).
    destruct (B v2 (byte_val b)) as [M1 D1]; try (subst v2; lia).
    destruct (B v3 (byte_val c)) as [M2 D2]; try lia.
    fold v1 in M1, D1. fold v2 in M2, D2.
    rewrite M0, D0, M1, D1, M2, D2, (Z.mod_small v3) by (subst v3; lia).
    subst v3. rewrite !uchar_byte_val. reflexivity.
  - unfold copy_le32, copy_le16. cbn [app].
    pose proof (uint_range n) as R. set (m := uint n) in *.
    assert (H : 0 <= Z.shiftr m 16 < 2 ^ 16).
    { rewrite Z.shiftr_div_pow2 by lia. split.
      - apply Z.div_pos; lia.
      - apply Z.div_lt_upper_bound; lia. }
    rewrite (uint_small (Z.shiftr m 16)) by lia.
    rewrite Z.shiftr_shiftr by lia. reflexivity.
Qed.

Lemma copy_le_of_le_value_witness :
  copy_le16 (le_value [x50; x4b]) = [x50; x4b] /\
  copy_le32 (le_value [x50; x4b; x05; x06]) = [x50; x4b; x05; x06].
Proof.
  split.
  - apply (proj1 (copy_le_of_le_value [x50; x4b] 0)). reflexivity.
  - apply (proj1 (proj2 (copy_le_of_le_value [x50; x4b; x05; x06] 0))).
    reflexivity.
Defined.

(** ** DOS dates and times *)

Lemma half_range x : 0 <= x <= 61 -> 0 <= x / 2 <= 30.
Proof.
  intros H. pose proof (Z.div_mod x 2).
  pose proof (Z.mod_pos_bound x 2 eq_refl). lia.
Qed.

Lemma stored_dos_time t :
  valid_tm t ->
  stored_date t =
    tm_mday t + (tm_mon t + 1) * 32 + ((tm_year t - 80) mod 128) * 512 /\
  stored_time t = tm_sec t / 2 + tm_min t * 32 + tm_hour t * 2048.
Proof.
  intros (Hs & Hm & Hh & Hd & Ho & Hy).
  unfold stored_date, stored_time, dos_time. cbn [fst snd].
  rewrite !le_value_copy_le16.
  rewrite Z.quot_div_nonneg by lia.
  change (2 ^ 16) with 65536. split.
  - pose proof (Z.mod_pos_bound (tm_year t - 80) 128 eq_refl).
    pose proof (Z.div_mod (tm_year t - 80) 128).
    symmetry. apply (Z.mod_unique _ _ ((tm_year t - 80) / 128)); lia.
  - apply Z.mod_small.
    pose proof (half_range (tm_sec t) Hs).
    lia.
Qed.

(** X2.  The date and the time [dos_time] computes, read back from the
    16-bit header fields they are written to, give the day, the month
    (counted from 1), the hour and the minute of the broken-down time
    and its second rounded down to an even number; the year read is
    1980 plus the years since 1980 modulo 128, so it is the year itself
    from 1980 to 2107 and 128 years off outside (1970 reads as 2098). *)
Theorem dos_time_read_back (t : tm) :
  valid_tm t ->
  dos_day (stored_date t) = tm_mday t /\
  dos_month (stored_date t) = tm_mon t + 1 /\
  dos_year (stored_date t) = 1980 + (tm_year t - 80) mod 128 /\
  (dos_era t -> dos_year (stored_date t) = 1900 + tm_year t) /\
  dos_hour (stored_time t) = tm_hour t /\
  dos_minute (stored_time t) = tm_min t /\
  dos_second (stored_time t) = tm_sec t - tm_sec t mod 2.
Proof.
  intros V. destruct (stored_dos_time t V) as [D T].
  destruct V as (Hs & Hm & Hh & Hd & Ho & Hy).
  pose proof (Z.mod_pos_bound (tm_year t - 80) 128 eq_refl) as Y.
  pose proof (half_range (tm_sec t) Hs) as S2.
  unfold dos_day, dos_month, dos_year, dos_hour, dos_minute, dos_second,
    dos_era.
  rewrite D, T. set (y := (tm_year t - 80) mod 128) in *.
  assert (Dy : (tm_mday t + (tm_mon t + 1) * 32 + y * 512) / 512 = y)
    by (symmetry; apply (Z.div_unique _ _ _ (tm_mday t + (tm_mon t + 1) * 32)); lia).
  repeat split.
  - symmetry. apply (Z.mod_unique _ _ (tm_mon t + 1 + y * 16)); lia.
  - replace ((tm_mday t + (tm_mon t + 1) * 32 + y * 512) / 32)
      with (tm_mon t + 1 + y * 16)
      by (apply (Z.div_unique _ _ _ (tm_mday t)); lia).
    symmetry. apply (Z.mod_unique _ _ y); lia.
  - rewrite Dy. reflexivity.
  - intros E. rewrite Dy. subst y. rewrite Z.mod_small by lia. lia.
  - symmetry. apply (Z.div_unique _ _ _ (tm_sec t / 2 + tm_min t * 32)); lia.
  - replace ((tm_sec t / 2 + tm_min t * 32 + tm_hour t * 2048) / 32)
      with (tm_min t + tm_hour t * 64)
      by (apply (Z.div_unique _ _ _ (tm_sec t / 2)); lia).
    symmetry. apply (Z.mod_unique _ _ (tm_hour t)); lia.
  - replace ((tm_sec t / 2 + tm_min t * 32 + tm_hour t * 2048) mod 32)
      with (tm_sec t / 2)
      by (apply (Z.mod_unique _ _ (tm_min t + tm_hour t * 64)); lia).
    pose proof (Z.div_mod (tm_sec t) 2). lia.
Qed.

Lemma dos_time_read_back_witness :
  dos_year (stored_date noon_2006) = 2006 /\
  dos_second (stored_time noon_2006) = 58 /\
  dos_year (stored_date epoch) = 2098.
Proof.
  assert (V : valid_tm noon_2006) by (unfold valid_tm, noon_2006; cbn; lia).
  assert (V0 : valid_tm epoch) by (unfold valid_tm, epoch; cbn; lia).
  pose proof (dos_time_read_back noon_2006 V) as (_ & _ & _ & Y & _ & _ & S).
  pose proof (dos_time_read_back epoch V0) as (_ & _ & Y0 & _).
  split; [|split].
  - rewrite Y; [reflexivity|]. unfold dos_era, noon_2006. cbn. lia.
  - rewrite S. reflexivity.
  - rewrite Y0. reflexivity.
Defined.

(** X3.  Within the years a DOS date has room for, the 32-bit timestamp
    (date above time) follows the calendar: a later broken-down time
    never gets a smaller stamp, and two times get the same stamp only
    when they differ in nothing but the odd second. *)
Theorem dos_stamp_follows_calendar (t1 t2 : tm) :
  valid_tm t1 -> valid_tm t2 -> dos_era t1 -> dos_era t2 ->
  (lex_le (tm_key t1) (tm_key t2) -> dos_stamp t1 <= dos_stamp t2) /\
  (dos_stamp t1 = dos_stamp t2 ->
   tm_year t1 = tm_year t2 /\ tm_mon t1 = tm_mon t2 /\
   tm_mday t1 = tm_mday t2 /\ tm_hour t1 = tm_hour t2 /\
   tm_min t1 = tm_min t2 /\ tm_sec t1 / 2 = tm_sec t2 / 2).
Proof.
  intros V1 V2 E1 E2.
  destruct (stored_dos_time t1 V1) as [D1 T1].
  destruct (stored_dos_time t2 V2) as [D2 T2].
  destruct V1 as (Hs1 & Hm1 & Hh1 & Hd1 & Ho1 & Hy1).
  destruct V2 as (Hs2 & Hm2 & Hh2 & Hd2 & Ho2 & Hy2).
  unfold dos_era in *.
  rewrite Z.mod_small in D1, D2 by lia.
  pose proof (half_range (tm_sec t1) Hs1) as S1.
  pose proof (half_range (tm_sec t2) Hs2) as S2.
  unfold dos_stamp. rewrite D1, D2, T1, T2. change (2 ^ 16) with 65536.
  split.
  - unfold tm_key. cbn [lex_le]. intros L.
    assert (M : tm_sec t1 <= tm_sec t2 -> tm_sec t1 / 2 <= tm_sec t2 / 2)
      by (intros; apply Z.div_le_mono; lia).
    lia.
  - intros Q. lia.
Qed.

Lemma dos_stamp_follows_calendar_witness :
  dos_stamp millennium <= dos_stamp noon_2006.
Proof.
  apply (dos_stamp_follows_calendar millennium noon_2006);
    unfold valid_tm, dos_era, tm_key, millennium, noon_2006; cbn; lia.
Defined.

(** ** The capacity of the directory buffer *)

Lemma grow_dir_exact r : forall sz need sz',
  is_uint sz -> grow_dir r sz need = Some sz' ->
  exists k, 0 <= k /\ sz' = sz + k * ZIP_DIRECTORY_MIN_SIZE /\
            sz' < 2 ^ 32 /\ need <= sz' /\
            (0 < k -> sz' - ZIP_DIRECTORY_MIN_SIZE < need).
Proof.
  induction r as [|r IH]; intros sz need sz' U G; cbn [grow_dir] in G;
    destruct (sz <? need) eqn:L; try discriminate;
    unfold is_uint, UINT_BITS in U.
  - injection G as <-. exists 0. lia.
  - apply IH in G as (k & K0 & E & B & N & M); [|apply uint_range].
    unfold uint, UINT_BITS, ZIP_DIRECTORY_MIN_SIZE in *.
    change (2 ^ 32) with 4294967296 in *.
    destruct (Z_lt_dec (sz + 1024 * 1024) 4294967296) as [F|F].
    + rewrite Z.mod_small in E by lia. exists (k + 1). lia.
    + exfalso.
      assert (W : (sz + 1024 * 1024) mod 4294967296
                  = sz + 1024 * 1024 - 4294967296).
      { symmetry. apply (Z.mod_unique _ _ 1); lia. }
      rewrite W in E. lia.
  - injection G as <-. exists 0. lia.
Qed.

Lemma capacity_after_step k : forall sz,
  is_uint sz -> sz mod ZIP_DIRECTORY_MIN_SIZE = 0 ->
  capacity_after k sz <= 2 ^ 32 - ZIP_DIRECTORY_MIN_SIZE.
Proof.
  assert (B : forall x, is_uint x -> x mod ZIP_DIRECTORY_MIN_SIZE = 0 ->
                x <= 2 ^ 32 - ZIP_DIRECTORY_MIN_SIZE).
  { intros x U M. unfold is_uint, UINT_BITS, ZIP_DIRECTORY_MIN_SIZE in *.
    pose proof (Z.div_mod x (1024 * 1024)). lia. }
  induction k as [|k IH]; intros sz U M.
  - cbn. apply B; assumption.
  - rewrite <- capacity_after_succ. apply IH; [apply uint_range|].
    unfold uint, UINT_BITS, ZIP_DIRECTORY_MIN_SIZE in *.
    rewrite Z.mod_mod_divide by (exists 4096; reflexivity).
    rewrite <- Z.add_mod_idemp_l, M by lia. reflexivity.
Qed.

Lemma initial_buffer_inv fresh level date time :
  buffer_inv (initial_state fresh level date time).
Proof.
  unfold buffer_inv, wf_state, is_uint, UINT_BITS. cbn.
  repeat split; try lia. exists 1. lia.
Qed.

Section Buffer.

Variable C : collab.

Lemma write_zip_entry_buffer sha1 base filename mode stage s r s' :
  buffer_inv s ->
  write_zip_entry C sha1 base filename mode stage s = Ret r s' ->
  buffer_inv s'.
Proof.
  intros (W & F & k0 & K0 & S0 & M0) H.
  destruct (write_zip_entry_Ret _ _ _ _ _ _ _ _ _ H)
    as [(d & _ & _ & ->) | (l & P & _ & A)].
  - split; [exact W|]. split; [exact F|]. exists k0. auto.
  - apply prepare_entry_Encode in P as (_ & PL & PB & _).
    destruct (appended_dir _ _ _ A W PL PB) as (Do & Ds & _).
    pose proof (appended_wf _ _ _ A W) as W'.
    pose proof (zlen_nonneg (path l)) as PP.
    destruct W as (W1 & W2 & W3 & W4).
    destruct (grow_dir_exact _ _ _ _ W1 (ap_grow _ _ _ A))
      as (k & K & E & B & N & M).
    unfold dir_need, sizeof_zip_dir_header, is_uint, UINT_BITS in *.
    rewrite !ulong_small in M by (rewrite ?ulong_small; lia).
    split; [exact W'|]. split; [exact Ds|].
    exists (k0 + k). unfold ZIP_DIRECTORY_MIN_SIZE in *. lia.
Qed.

(** X4.  The directory buffer holds its records.  At the start of a
    build, and then after every call and every enumeration that
    returns, the records written so far end within the capacity; the
    capacity is a whole number of steps of [ZIP_DIRECTORY_MIN_SIZE], at
    least one, and once the buffer has grown it is the smallest such
    capacity that holds the records. *)
Theorem directory_buffer_holds_its_records :
  (forall fresh level date time,
     buffer_inv (initial_state fresh level date time)) /\
  (forall sha1 base filename mode stage s r s',
     buffer_inv s ->
     write_zip_entry C sha1 base filename mode stage s = Ret r s' ->
     buffer_inv s') /\
  (forall es s rs r s',
     buffer_inv s ->
     read_tree_recursive C es s = (rs, Ret r s') ->
     buffer_inv s').
Proof.
  split; [exact initial_buffer_inv|].
  split; [exact write_zip_entry_buffer|].
  induction es as [|e es IH]; intros s rs r s' I H; cbn in H.
  - injection H as _ _ <-. exact I.
  - destruct (write_zip_entry C (e_sha1 e) (e_base e) (e_filename e)
                (e_mode e) 0 s) as [r1 s1|?|?] eqn:E1; try discriminate.
    destruct (read_tree_recursive C es s1) as [rs1 o1] eqn:E2.
    injection H as _ ->.
    apply (IH _ _ _ _ (write_zip_entry_buffer _ _ _ _ _ _ _ _ I E1) E2).
Qed.

(** X5.  Past the last capacity the counter can hold, the loop of lines
    209-212 has no exit: when the record of an entry would end above
    [2^32 - ZIP_DIRECTORY_MIN_SIZE], no number of rounds makes the
    capacity reach it, the call does not return, and nothing has been
    written by then. *)
Theorem full_directory_never_grows_enough
    (sha1 base filename : list byte) (mode stage : Z) (s : zip_state)
    (l : locals) :
  buffer_inv s ->
  prepare_entry C sha1 base filename mode (zlib_compression_level s)
    = Encode l ->
  2 ^ 32 - ZIP_DIRECTORY_MIN_SIZE
    < zip_dir_offset s + sizeof_zip_dir_header + pathlen l ->
  write_zip_entry C sha1 base filename mode stage s = Loop s /\
  forall rounds,
    grow_dir rounds (zip_dir_size s) (dir_need l s) = None.
Proof.
  intros (W & F & k0 & K0 & S0 & M0) P Full.
  assert (G : forall rounds,
             grow_dir rounds (zip_dir_size s) (dir_need l s) = None).
  { intros rounds. apply grow_dir_None. intros k _.
    destruct W as (W1 & _ & W3 & _).
    assert (Md : zip_dir_size s mod ZIP_DIRECTORY_MIN_SIZE = 0)
      by (rewrite S0; apply Z.mod_mul; unfold ZIP_DIRECTORY_MIN_SIZE; lia).
    pose proof (capacity_after_step k _ W1 Md) as Cap.
    apply prepare_entry_Encode in P as (_ & PL & PB & _).
    pose proof (zlen_nonneg (path l)) as PP.
    unfold dir_need, sizeof_zip_dir_header, is_uint, UINT_BITS in *.
    rewrite !ulong_small by (rewrite ?ulong_small; lia). lia. }
  split; [|exact G].
  unfold write_zip_entry. rewrite P.
  destruct (append_entry_cases l s) as [(s1 & _ & A) | [L _]].
  - pose proof (ap_grow _ _ _ A) as A'. rewrite G in A'. discriminate.
  - exact L.
Qed.

End Buffer.

Lemma directory_buffer_holds_its_records_witness :
  buffer_inv
    (state_of (snd (read_tree_recursive Sample.git Sample.scenario
                      (sample_start 0)))).
Proof.
  destruct (directory_buffer_holds_its_records Sample.git) as (I & _ & R).
  apply (R Sample.scenario (sample_start 0) [1; 0] 0).
  - apply I.
  - vm_compute. reflexivity.
Defined.

Lemma full_directory_never_grows_enough_witness :
  write_zip_entry Sample.git (Sample.sha x09) [] Sample.dir_name 16384 0
    nearly_full = Loop nearly_full.
Proof.
  refine (proj1 (full_directory_never_grows_enough Sample.git
                   (Sample.sha x09) [] Sample.dir_name 16384 0 nearly_full
                   _ _ eq_refl _)).
  - unfold buffer_inv, wf_state, is_uint, UINT_BITS, nearly_full,
      ZIP_DIRECTORY_MIN_SIZE. cbn.
    repeat split; try lia. exists 4095. lia.
  - vm_compute. reflexivity.
Defined.

(** ** What a call tells its caller *)

Section Results.

Variable C : collab.

Lemma prepare_entry_not_encoded sha1 base filename mode level :
  let p := full_path base filename mode in
  (forall d,
     prepare_entry C sha1 base filename mode level = Skip d ->
     65535 < zlen p /\ d = PathTooLong (zlen p) sha1 p \/
     zlen p <= 65535 /\ S_ISDIR mode = false /\ S_ISREG mode = false /\
     d = UnsupportedMode mode sha1) /\
  (forall d,
     prepare_entry C sha1 base filename mode level = Fatal d ->
     zlen p <= 65535 /\ S_ISREG mode = true /\
     read_sha1_file C sha1 = None /\ d = CannotRead sha1).
Proof.
  intros p. unfold prepare_entry. rewrite construct_path_full. fold p.
  rewrite Z.gtb_ltb.
  destruct (Z.ltb_spec 65535 (zlen p)) as [L|L].
  { split; intros d; [intros [= <-]; left; auto | discriminate]. }
  destruct (S_ISDIR mode) eqn:D.
  { rewrite try_deflate_method0. split; intros d; discriminate. }
  destruct (S_ISREG mode) eqn:R.
  - destruct (read_sha1_file C sha1) as [buffer|] eqn:B.
    + destruct (try_deflate C level (if level =? 0 then 0 else 8) buffer
                  (zlen buffer) buffer (zlen buffer)) as [[m o] cs].
      split; intros d; discriminate.
    + split; intros d; [discriminate | intros [= <-]; auto].
  - split; intros d; [intros [= <-]; right; auto | discriminate].
Qed.

(** X6.  What [write_zip_entry] returns names what it did, for a name
    whose lengths fit [int] and as long as the writes to the stream and
    the allocations succeed.  It returns -1 after one line on standard
    error when the path is longer than 65535 bytes or the mode is
    neither a directory's nor a regular file's; [READ_TREE_RECURSIVE]
    after it recorded a directory; 0 after it recorded a regular file
    whose blob could be read.  It exits at line 183, with "cannot read"
    as the only thing done, exactly for a regular file whose blob is
    missing; the length of the path is checked first, so a missing blob
    under a path that is too long is only skipped. *)
Theorem result_names_what_was_done
    (sha1 base filename : list byte) (mode stage : Z) (s : zip_state) :
  name_fits_int base filename mode ->
  let p := full_path base filename mode in
  match write_zip_entry C sha1 base filename mode stage s with
  | Ret r s' =>
      r = -1 /\ 65535 < zlen p /\
        s' = error (PathTooLong (zlen p) sha1 p) s \/
      r = -1 /\ zlen p <= 65535 /\
        S_ISDIR mode = false /\ S_ISREG mode = false /\
        s' = error (UnsupportedMode mode sha1) s \/
      r = READ_TREE_RECURSIVE /\ zlen p <= 65535 /\ S_ISDIR mode = true /\
        fd2 s' = fd2 s /\ zip_dir_entries s' = uint (zip_dir_entries s + 1) \/
      r = 0 /\ zlen p <= 65535 /\ S_ISREG mode = true /\
        read_sha1_file C sha1 <> None /\
        fd2 s' = fd2 s /\ zip_dir_entries s' = uint (zip_dir_entries s + 1)
  | Die s' =>
      zlen p <= 65535 /\ S_ISREG mode = true /\
      read_sha1_file C sha1 = None /\ s' = error (CannotRead sha1) s
  | Loop s' =>
      s' = s /\ zlen p <= 65535 /\
      (S_ISDIR mode = true \/
       S_ISREG mode = true /\ read_sha1_file C sha1 <> None)
  end.
Proof.
  intros _ p.
  destruct (prepare_entry_not_encoded sha1 base filename mode
              (zlib_compression_level s)) as [SK FA]. fold p in SK, FA.
  unfold write_zip_entry.
  destruct (prepare_entry C sha1 base filename mode
              (zlib_compression_level s)) as [d|d|l] eqn:P.
  - destruct (SK d eq_refl) as [(L & ->) | (L & D & R & ->)]; auto.
    right. left. auto.
  - destruct (FA d eq_refl) as (L & R & B & ->). auto.
  - apply prepare_entry_Encode in P as (PP & PL & PB & PA).
    assert (L : zlen p <= 65535) by (subst p; rewrite <- PP, <- PL; exact PB).
    assert (K : S_ISDIR mode = true /\ result l = READ_TREE_RECURSIVE \/
                S_ISREG mode = true /\ read_sha1_file C sha1 <> None /\
                result l = 0).
    { destruct PA as [D _ Rr _ _ _ _ | buffer D R B Rr _ _ _].
      - left. auto.
      - right. rewrite B. repeat split; auto. discriminate. }
    destruct (append_entry_cases l s) as [(s' & -> & A) | [-> _]].
    + right. right.
      destruct K as [(D & ->) | (R & B & ->)]; [left | right];
        repeat split; auto;
        try apply (ap_fd2 _ _ _ A); apply (ap_dir_entries _ _ _ A).
    + split; [reflexivity|]. split; [exact L|]. tauto.
Qed.

(** X7.  Of the mode only the file type is archived: two modes with the
    same type bits, a directory's or a regular file's, give the same
    outcome, the same archive bytes and the same directory record, so
    the permission bits (the executable bit of 0100755 among them) leave
    no trace. *)
Theorem permission_bits_are_dropped
    (sha1 base filename : list byte) (mode1 mode2 stage : Z)
    (s : zip_state) :
  Z.land mode1 S_IFMT = Z.land mode2 S_IFMT ->
  S_ISDIR mode1 || S_ISREG mode1 = true ->
  write_zip_entry C sha1 base filename mode1 stage s =
  write_zip_entry C sha1 base filename mode2 stage s.
Proof.
  intros E T.
  assert (D : S_ISDIR mode1 = S_ISDIR mode2)
    by (unfold S_ISDIR; rewrite E; reflexivity).
  assert (R : S_ISREG mode1 = S_ISREG mode2)
    by (unfold S_ISREG; rewrite E; reflexivity).
  rewrite D, R in T.
  unfold write_zip_entry, prepare_entry. rewrite D, R.
  destruct (S_ISDIR mode2); [reflexivity|].
  destruct (S_ISREG mode2); [reflexivity|discriminate].
Qed.

End Results.

Lemma result_names_what_was_done_witness :
  write_zip_entry Sample.git (Sample.sha x09) [] Sample.file_txt 33188 0
    (sample_start 6) =
  Die (error (CannotRead (Sample.sha x09)) (sample_start 6)).
Proof.
  assert (Fi : name_fits_int [] Sample.file_txt 33188)
    by (vm_compute; reflexivity).
  pose proof (result_names_what_was_done Sample.git (Sample.sha x09) []
                Sample.file_txt 33188 0 (sample_start 6) Fi) as H.
  cbv zeta in H.
  destruct (write_zip_entry Sample.git (Sample.sha x09) [] Sample.file_txt
              33188 0 (sample_start 6)) as [r s'|s'|s'].
  - exfalso.
    destruct H as [(_ & L & _) | [(_ & _ & _ & R & _)
                  | [(_ & _ & D & _) | (_ & _ & _ & B & _)]]].
    + vm_compute in L. discriminate.
    + discriminate.
    + discriminate.
    + apply B. reflexivity.
  - destruct H as (_ & _ & _ & ->). reflexivity.
  - exfalso. destruct H as (_ & _ & [D | [_ B]]).
    + discriminate.
    + apply B. reflexivity.
Defined.

Lemma permission_bits_are_dropped_witness :
  write_zip_entry Sample.git (Sample.sha x01) [] Sample.file_txt 33261 0
    (sample_start 6) =
  write_zip_entry Sample.git (Sample.sha x01) [] Sample.file_txt 33188 0
    (sample_start 6).
Proof.
  apply (permission_bits_are_dropped Sample.git); reflexivity.
Defined.

(** ** Reading the archive back *)

Lemma slice_app (pre x post : list byte) :
  slice (zlen pre) (zlen x) (pre ++ x ++ post) = x.
Proof.
  unfold slice, zlen. rewrite !Nat2Z.id, skipn_length_app.
  apply firstn_length_app.
Qed.

Lemma slice_at (pre x post : list byte) off len :
  off = zlen pre -> len = zlen x -> slice off len (pre ++ x ++ post) = x.
Proof. intros -> ->. apply slice_app. Qed.

Lemma slice_tail (pre x : list byte) off len :
  off = zlen pre -> len = zlen x -> slice off len (pre ++ x) = x.
Proof.
  intros O L. rewrite <- (app_nil_r x) at 1. apply slice_at; assumption.
Qed.

Lemma bytes_eqb_refl (x : list byte) : Sample.bytes_eqb x x = true.
Proof.
  induction x as [|b x IH]; [reflexivity|].
  cbn. rewrite IH, (byte_dec_lb (eq_refl b)). reflexivity.
Qed.

Lemma map_seq_from {A} n : forall (f : nat -> A) a,
  map f (seq a n) = map (fun k => f (a + k)%nat) (seq 0 n).
Proof.
  induction n as [|n IH]; intros f a; [reflexivity|].
  cbn [seq map]. rewrite Nat.add_0_r. f_equal.
  rewrite (IH f (S a)), (IH (fun k => f (a + k)%nat) 1%nat).
  apply map_ext. intros k. f_equal. lia.
Qed.

Lemma mem_read_app m off n1 n2 :
  mem_read m off (n1 + n2) =
  mem_read m off n1 ++ mem_read m (off + Z.of_nat n1) n2.
Proof.
  unfold mem_read. rewrite seq_app, map_app. f_equal.
  cbn [Nat.add]. rewrite (map_seq_from n2 _ n1).
  apply map_ext. intros k. f_equal. lia.
Qed.

Section DirFields.

Variables (m c cs us p : Z) (s : zip_state) (tail : list byte).

Let d := dir_header_bytes (make_dirent m c cs us p s) ++ tail.

Lemma dir_magic : field_value 0 4 d = 0x02014b50.
Proof. vm_compute. reflexivity. Qed.

Lemma dir_method : field_value 10 2 d = m mod 2 ^ 16.
Proof. exact (le_value_copy_le16 m). Qed.

Lemma dir_time : field_value 12 2 d = zip_time s mod 2 ^ 16.
Proof. exact (le_value_copy_le16 (zip_time s)). Qed.

Lemma dir_date : field_value 14 2 d = zip_date s mod 2 ^ 16.
Proof. exact (le_value_copy_le16 (zip_date s)). Qed.

Lemma dir_crc : field_value 16 4 d = c mod 2 ^ 32.
Proof. exact (le_value_copy_le32 c). Qed.

Lemma dir_compressed_size : field_value 20 4 d = cs mod 2 ^ 32.
Proof. exact (le_value_copy_le32 cs). Qed.

Lemma dir_size : field_value 24 4 d = us mod 2 ^ 32.
Proof. exact (le_value_copy_le32 us). Qed.

Lemma dir_filename_length : field_value 28 2 d = p mod 2 ^ 16.
Proof. exact (le_value_copy_le16 p). Qed.

Lemma dir_extra_length : field_value 30 2 d = 0.
Proof. vm_compute. reflexivity. Qed.

Lemma dir_comment_length : field_value 32 2 d = 0.
Proof. vm_compute. reflexivity. Qed.

Lemma dir_offset : field_value 42 4 d = zip_offset s mod 2 ^ 32.
Proof. exact (le_value_copy_le32 (zip_offset s)). Qed.

Lemma dir_mirrors_header :
  field 6 26 d = field 4 26 (local_header_bytes (make_header m c cs us p s)).
Proof. reflexivity. Qed.

Lemma dir_tail : skipn 46 d = tail.
Proof. reflexivity. Qed.

Lemma dir_header_length :
  length (dir_header_bytes (make_dirent m c cs us p s)) = 46%nat.
Proof. reflexivity. Qed.

End DirFields.

Lemma header_magic m c cs us p s :
  field_value 0 4 (local_header_bytes (make_header m c cs us p s))
  = 0x04034b50.
Proof. vm_compute. reflexivity. Qed.

Lemma read_record_entry (l : locals) (s : zip_state) pre post rest :
  zip_offset s = zlen pre -> zlen pre < 2 ^ 32 ->
  pathlen l = zlen (path l) -> pathlen l <= 65535 ->
  zlen (payload l) = compressed_size l -> compressed_size l < 2 ^ 32 ->
  method l = 0 \/ method l = 8 -> 0 <= crc l < 2 ^ 32 ->
  read_record
    (pre ++
     local_header_bytes
       (make_header (method l) (crc l) (compressed_size l)
          (uncompressed_size l) (pathlen l) s) ++
     path l ++ payload l ++ post)
    (dir_header_bytes
       (make_dirent (method l) (crc l) (compressed_size l)
          (uncompressed_size l) (pathlen l) s) ++
     path l ++ rest)
  = Some (member_of (zip_date s) (zip_time s) l, 46 + pathlen l).
Proof.
  intros O OB PL PB YL YB M CR.
  pose proof (zlen_nonneg pre) as P0.
  pose proof (zlen_nonneg (path l)) as P1.
  pose proof (zlen_nonneg (payload l)) as P2.
  set (h := local_header_bytes _) in *.
  set (dh := dir_header_bytes _).
  assert (Lh : zlen h = 30) by reflexivity.
  assert (Ld : zlen dh = 46) by reflexivity.
  unfold read_record. cbv zeta.
  subst dh.
  rewrite !dir_filename_length, !dir_offset, !dir_compressed_size,
    dir_magic, dir_extra_length, dir_comment_length, dir_method, dir_time,
    dir_date, dir_crc, dir_size, dir_mirrors_header.
  fold h. set (dh := dir_header_bytes _) in *.
  change (2 ^ 16) with 65536. change (2 ^ 32) with 4294967296 in *.
  rewrite (Z.mod_small (pathlen l)), (Z.mod_small (zip_offset s)),
    (Z.mod_small (compressed_size l)), (Z.mod_small (crc l)) by lia.
  rewrite O.
  assert (E1 : slice (zlen pre) 30
                 (pre ++ h ++ path l ++ payload l ++ post) = h)
    by (apply slice_at; [reflexivity | symmetry; exact Lh]).
  rewrite E1.
  assert (E2 : slice (zlen pre + 30) (pathlen l)
                 (pre ++ h ++ path l ++ payload l ++ post) = path l).
  { rewrite (app_assoc pre h). apply slice_at; [|exact PL].
    rewrite zlen_app. lia. }
  rewrite E2.
  assert (E3 : slice 46 (pathlen l) (dh ++ path l ++ rest) = path l)
    by (apply slice_at; [symmetry; exact Ld | exact PL]).
  rewrite E3.
  subst h. rewrite header_magic, header_filename_length, header_extra_length.
  change (2 ^ 16) with 65536.
  rewrite (Z.mod_small (pathlen l)) by lia.
  set (h := local_header_bytes _) in *.
  assert (E4 : slice (zlen pre + 30 + pathlen l + 0) (compressed_size l)
                 (pre ++ h ++ path l ++ payload l ++ post) = payload l).
  { rewrite (app_assoc h), (app_assoc pre).
    apply slice_at; [|symmetry; exact YL].
    rewrite !zlen_app. lia. }
  rewrite E4, !bytes_eqb_refl, YL, <- PL, !Z.eqb_refl. cbn [andb].
  unfold member_of. change (2 ^ 16) with 65536.
  change (2 ^ 32) with 4294967296.
  rewrite (Z.mod_small (method l)) by lia.
  replace (46 + pathlen l + 0 + 0) with (46 + pathlen l) by lia. reflexivity.
Qed.

Lemma dir_bytes_appended l s s' :
  appended l s s' -> wf_state s ->
  pathlen l = zlen (path l) -> pathlen l <= 65535 ->
  dir_bytes s' =
  dir_bytes s ++
  dir_header_bytes
    (make_dirent (method l) (crc l) (compressed_size l)
       (uncompressed_size l) (pathlen l) s) ++
  path l.
Proof.
  intros A W PL PB.
  destruct (appended_dir _ _ _ A W PL PB) as (Do & _ & Rd & Rp & Old).
  destruct W as (_ & _ & W3 & _). unfold is_uint in W3.
  unfold dir_bytes. rewrite Do. unfold sizeof_zip_dir_header, zlen in *.
  replace (Z.to_nat (zip_dir_offset s + 46 + pathlen l))
    with (Z.to_nat (zip_dir_offset s) + (46 + length (path l)))%nat by lia.
  rewrite !mem_read_app. rewrite Z2Nat.id by lia.
  cbn [Z.add]. rewrite Rd.
  replace (zip_dir_offset s + Z.of_nat 46) with (zip_dir_offset s + 46)
    by lia.
  rewrite Rp. f_equal.
  apply mem_read_ext. intros i Hi. apply Old. lia.
Qed.

Lemma prepared_method C sha1 base filename mode level l :
  prepared_as C sha1 base filename mode level l ->
  method l = 0 \/ method l = 8.
Proof.
  intros [_ M _ _ _ _ _ | b _ _ _ _ _ _ X]; [auto|].
  destruct X as [(_ & M & _) | (_ & X)]; [auto|].
  remember (method l) as m. remember (out l) as o.
  remember (compressed_size l) as cs.
  destruct X; auto.
Qed.

Lemma prepared_crc_range C sha1 base filename mode level l :
  zlib_contract C ->
  prepared_as C sha1 base filename mode level l ->
  0 <= crc l < 2 ^ 32.
Proof.
  intros Z [_ _ _ _ _ _ -> | b _ _ _ _ _ -> _]; apply (crc32_range C Z).
Qed.

Section ReadBack.

Variable C : collab.
Hypothesis ZC : zlib_contract C.
Hypothesis OF : objects_fit C.

Lemma write_zip_entry_reads_back sha1 base filename mode stage s r s' :
  wf_state s -> zip_offset s = zlen (fd1 s) ->
  write_zip_entry C sha1 base filename mode stage s = Ret r s' ->
  zlen (fd1 s') < 2 ^ 32 ->
  wf_state s' /\ zip_offset s' = zlen (fd1 s') /\
  zip_date s' = zip_date s /\ zip_time s' = zip_time s /\
  zlib_compression_level s' = zlib_compression_level s /\
  exists T D,
    fd1 s' = fd1 s ++ T /\ dir_bytes s' = dir_bytes s ++ D /\
    match prepare_entry C sha1 base filename mode
            (zlib_compression_level s) with
    | Encode l =>
        forall post rest,
          read_record (fd1 s' ++ post) (D ++ rest) =
          Some (member_of (zip_date s) (zip_time s) l, zlen D)
    | _ => D = []
    end.
Proof.
  intros W O H B.
  destruct (write_zip_entry_Ret _ _ _ _ _ _ _ _ _ H)
    as [(d & P & _ & ->) | (l & P & _ & A)]; rewrite P.
  - split; [exact W|]. split; [exact O|]. do 3 (split; [reflexivity|]).
    exists [], []. rewrite !app_nil_r. auto.
  - apply prepare_entry_Encode in P as (PP & PL & PB & PA).
    destruct (prepared_payload _ _ _ _ _ _ _ OF PA) as (YL & Y0 & _).
    pose proof (prepared_method _ _ _ _ _ _ _ PA) as M.
    pose proof (prepared_crc_range _ _ _ _ _ _ _ ZC PA) as CR.
    pose proof (zlen_nonneg (path l)) as P1.
    pose proof (zlen_nonneg (fd1 s)) as P0.
    set (h := local_header_bytes
                (make_header (method l) (crc l) (compressed_size l)
                   (uncompressed_size l) (pathlen l) s)).
    assert (Lh : zlen h = 30) by reflexivity.
    assert (F1 : fd1 s' = fd1 s ++ h ++ path l ++ payload l).
    { rewrite (ap_fd1 _ _ _ A). fold h. rewrite PL, firstn_zlen.
      reflexivity. }
    assert (Len : zlen (fd1 s') =
                  zlen (fd1 s) + 30 + pathlen l + compressed_size l).
    { rewrite F1, !zlen_app, Lh, YL, PL. lia. }
    split; [apply (appended_wf _ _ _ A W)|].
    split.
    { rewrite (ap_offset _ _ _ A), O, Len.
      unfold sizeof_zip_local_header.
      rewrite Z.max_r by lia. apply uint_small. lia. }
    split; [apply (ap_date _ _ _ A)|].
    split; [apply (ap_time _ _ _ A)|].
    split; [apply (ap_level _ _ _ A)|].
    exists (h ++ path l ++ payload l).
    exists (dir_header_bytes
              (make_dirent (method l) (crc l) (compressed_size l)
                 (uncompressed_size l) (pathlen l) s) ++ path l).
    split; [exact F1|].
    split; [apply (dir_bytes_appended _ _ _ A W PL PB)|].
    intros post rest. rewrite F1.
    rewrite <- !app_assoc.
    rewrite zlen_app.
    replace (zlen (dir_header_bytes _)) with 46 by reflexivity.
    rewrite <- PL.
    apply read_record_entry; try assumption; lia.
Qed.

Lemma read_tree_recursive_extends es : forall s rs r s',
  read_tree_recursive C es s = (rs, Ret r s') ->
  exists T, fd1 s' = fd1 s ++ T.
Proof.
  induction es as [|e es IH]; intros s rs r s' H; cbn in H.
  - injection H as _ _ <-. exists []. rewrite app_nil_r. reflexivity.
  - destruct (write_zip_entry C (e_sha1 e) (e_base e) (e_filename e)
                (e_mode e) 0 s) as [r1 s1|?|?] eqn:E1; try discriminate.
    destruct (read_tree_recursive C es s1) as [rs1 o1] eqn:E2.
    injection H as _ ->.
    destruct (IH _ _ _ _ E2) as (T2 & X2).
    destruct (write_zip_entry_Ret _ _ _ _ _ _ _ _ _ E1)
      as [(d & _ & _ & ->) | (l & _ & _ & A)].
    + exists T2. exact X2.
    + rewrite X2, (ap_fd1 _ _ _ A), <- app_assoc. eauto.
Qed.

Lemma read_tree_recursive_reads_back es : forall s rs r s',
  wf_state s -> zip_offset s = zlen (fd1 s) ->
  read_tree_recursive C es s = (rs, Ret r s') ->
  zlen (fd1 s') < 2 ^ 32 ->
  wf_state s' /\ zip_offset s' = zlen (fd1 s') /\
  exists T D,
    fd1 s' = fd1 s ++ T /\ dir_bytes s' = dir_bytes s ++ D /\
    forall post rest n,
      read_directory (fd1 s' ++ post)
        (length (archived C (zlib_compression_level s) (zip_date s)
                   (zip_time s) es) + n)
        (D ++ rest) =
      match read_directory (fd1 s' ++ post) n rest with
      | Some ms =>
          Some (archived C (zlib_compression_level s) (zip_date s)
                  (zip_time s) es ++ ms)
      | None => None
      end.
Proof.
  induction es as [|e es IH]; intros s rs r s' W O H B; cbn in H.
  - injection H as _ _ <-. split; [exact W|]. split; [exact O|].
    exists [], []. rewrite !app_nil_r. repeat split.
    intros post rest n. cbn.
    destruct (read_directory (fd1 s ++ post) n rest); reflexivity.
  - destruct (write_zip_entry C (e_sha1 e) (e_base e) (e_filename e)
                (e_mode e) 0 s) as [r1 s1|?|?] eqn:E1; try discriminate.
    destruct (read_tree_recursive C es s1) as [rs1 o1] eqn:E2.
    injection H as _ ->.
    destruct (read_tree_recursive_extends _ _ _ _ _ E2) as (T2 & X2).
    assert (B1 : zlen (fd1 s1) < 2 ^ 32).
    { pose proof (zlen_nonneg T2). rewrite X2, zlen_app in B. lia. }
    destruct (write_zip_entry_reads_back _ _ _ _ _ _ _ _ W O E1 B1)
      as (W1 & O1 & Dt & Tm & Lv & T & D & F1 & G1 & R1).
    destruct (IH _ _ _ _ W1 O1 E2 B)
      as (W' & O' & T' & D' & F' & G' & R').
    split; [exact W'|]. split; [exact O'|].
    exists (T ++ T'), (D ++ D').
    split; [rewrite F', F1, app_assoc; reflexivity|].
    split; [rewrite G', G1, app_assoc; reflexivity|].
    intros post rest n. rewrite Dt, Tm, Lv in R'.
    cbn [archived].
    destruct (prepare_entry C (e_sha1 e) (e_base e) (e_filename e)
                (e_mode e) (zlib_compression_level s)) as [d|d|l].
    + subst D. apply R'.
    + subst D. apply R'.
    + cbn [length Nat.add read_directory].
      rewrite <- app_assoc.
      rewrite F' at 1. rewrite <- app_assoc, R1.
      unfold zlen at 1. rewrite Nat2Z.id, skipn_length_app.
      rewrite R'.
      destruct (read_directory (fd1 s' ++ post) n rest); reflexivity.
Qed.

End ReadBack.

(** ** Finding the trailer *)

Lemma comment_length_at (a : list byte) p :
  0 <= p -> p + 22 <= zlen a ->
  field_value 20 2 (slice p 22 a) =
  byte_val (nth (Z.to_nat p + 20) a x00) +
  256 * byte_val (nth (Z.to_nat p + 21) a x00).
Proof.
  intros P L. unfold field_value, field, slice.
  set (x := firstn 2 _).
  assert (Lx : length x = 2%nat).
  { unfold x, zlen in *.
    rewrite length_firstn, length_skipn, length_firstn, length_skipn. lia. }
  assert (N : forall i, (i < 2)%nat ->
                nth i x x00 = nth (Z.to_nat p + (20 + i)) a x00).
  { intros i Hi. unfold x.
    rewrite nth_firstn, nth_skipn, nth_firstn, nth_skipn.
    destruct (Nat.ltb_spec i 2); [|lia].
    destruct (Nat.ltb_spec (20 + i) (Z.to_nat 22)); [reflexivity|lia]. }
  destruct x as [|b0 [|b1 [|? ?]]]; try discriminate.
  pose proof (N 0%nat ltac:(lia)) as N0.
  pose proof (N 1%nat ltac:(lia)) as N1.
  cbn [nth] in N0, N1. rewrite N0, N1. cbn [le_value].
  replace (Z.to_nat p + (20 + 0))%nat with (Z.to_nat p + 20)%nat by lia.
  replace (Z.to_nat p + (20 + 1))%nat with (Z.to_nat p + 21)%nat by lia.
  lia.
Qed.

Lemma lower_hex_value b : is_lower_hex b = true -> 48 <= byte_val b.
Proof.
  unfold is_lower_hex. intros H.
  apply orb_true_iff in H as [H|H]; apply andb_true_iff in H as [H _];
    apply Z.leb_le in H; lia.
Qed.

Lemma is_trailer_in_comment (body c : list byte) k :
  Forall (fun b => is_lower_hex b = true) c ->
  22 <= zlen body -> zlen c <= 12288 -> 0 <= k < zlen c ->
  is_trailer k (body ++ c) = false.
Proof.
  intros Hex Lb Lc K. unfold is_trailer, trailer_at.
  rewrite zlen_app.
  pose proof (zlen_nonneg body). pose proof (zlen_nonneg c).
  rewrite comment_length_at by (rewrite ?zlen_app; lia).
  set (i := (Z.to_nat (zlen c - 1 - k))).
  replace (Z.to_nat (zlen body + zlen c - 22 - k) + 21)%nat
    with (length body + i)%nat by (unfold i, zlen in *; lia).
  rewrite app_nth2_plus.
  assert (Hi : (i < length c)%nat) by (unfold i, zlen in *; lia).
  pose proof (lower_hex_value _ (proj1 (Forall_nth _ c) Hex i x00 Hi)) as V.
  set (v0 := byte_val (nth _ _ _)).
  assert (0 <= v0) by (unfold v0, byte_val; lia).
  destruct (Z.eqb_spec (v0 + 256 * byte_val (nth i c x00)) k) as [E|E];
    [lia|].
  rewrite andb_false_r. reflexivity.
Qed.

Lemma find_trailer_first a c : forall n k,
  0 <= k <= c ->
  (forall j, k <= j < c -> is_trailer j a = false) ->
  is_trailer c a = true ->
  (Z.to_nat (c - k) < n)%nat ->
  find_trailer n k a = Some c.
Proof.
  induction n as [|n IH]; intros k K F T N; [lia|].
  cbn [find_trailer].
  destruct (Z.eq_dec k c) as [->|Ne]; [rewrite T; reflexivity|].
  rewrite F by lia.
  apply IH; [lia | intros j Hj; apply F; lia | exact T | lia].
Qed.

(** ** The whole archive *)

Section Unzip.

Variable C : collab.
Hypothesis ZC : zlib_contract C.
Hypothesis OF : objects_fit C.

Lemma read_tree_recursive_archived es : forall s rs r s',
  read_tree_recursive C es s = (rs, Ret r s') ->
  successes rs =
  zlen (archived C (zlib_compression_level s) (zip_date s) (zip_time s) es).
Proof.
  induction es as [|e es IH]; intros s rs r s' H; cbn in H.
  - injection H as <- _ _. reflexivity.
  - destruct (write_zip_entry C (e_sha1 e) (e_base e) (e_filename e)
                (e_mode e) 0 s) as [r1 s1|?|?] eqn:E1; try discriminate.
    destruct (read_tree_recursive C es s1) as [rs1 o1] eqn:E2.
    injection H as <- ->.
    rewrite successes_cons, (IH _ _ _ _ E2). cbn [archived].
    destruct (write_zip_entry_Ret _ _ _ _ _ _ _ _ _ E1)
      as [(d & P & -> & ->) | (l & P & -> & A)]; rewrite P.
    + reflexivity.
    + rewrite (ap_level _ _ _ A), (ap_date _ _ _ A), (ap_time _ _ _ A).
      apply prepare_entry_Encode in P as (_ & _ & _ & PA).
      apply prepared_result in PA.
      assert (S1 : successes [result l] = 1)
        by (destruct PA as [-> | ->]; reflexivity).
      rewrite S1. unfold zlen. cbn [length]. lia.
Qed.

Lemma payload_whole l b :
  out l = b -> compressed_size l = zlen b -> payload l = b.
Proof.
  intros O E. unfold payload. rewrite O, E, firstn_zlen.
  destruct (zlen b >? 0) eqn:G; [reflexivity|].
  rewrite Z.gtb_ltb in G. apply Z.ltb_ge in G.
  destruct b; [reflexivity|]. unfold zlen in G. cbn [length] in G. lia.
Qed.

Hypothesis DF : deflate_framed C.

Lemma member_describes level date time e l :
  zlen (entry_content C (e_sha1 e) (e_mode e)) < 2 ^ 32 ->
  prepare_entry C (e_sha1 e) (e_base e) (e_filename e) (e_mode e) level
    = Encode l ->
  encodable C e = true /\
  describes C level date time e (member_of date time l).
Proof.
  intros B32 P.
  apply prepare_entry_Encode in P as (PP & PL & PB & PA).
  pose proof (prepared_crc _ _ _ _ _ _ _ (crc32_initial C ZC) PA) as Cr.
  rewrite uint_small in Cr by (split; [apply zlen_nonneg | exact B32]).
  destruct (prepared_payload _ _ _ _ _ _ _ OF PA) as (YL & _).
  assert (L : (zlen (full_path (e_base e) (e_filename e) (e_mode e))
               <=? 65535) = true)
    by (apply Z.leb_le; rewrite <- PP, <- PL; exact PB).
  unfold encodable, describes, member_of. rewrite L.
  cbn [m_name m_date m_time m_size m_crc m_method m_data andb].
  destruct PA as [D M _ O U S _ | b D R B _ U _ X].
  - rewrite D. split; [reflexivity|].
    unfold entry_content in *. rewrite D in *.
    repeat split; auto; try (rewrite U; reflexivity).
    left. split; [exact M|].
    apply payload_whole; [exact O | rewrite S; reflexivity].
  - rewrite D, R, B. split; [reflexivity|].
    unfold entry_content in *. rewrite D, B in *.
    repeat split; auto;
      try (rewrite U; apply Z.mod_small;
           split; [apply zlen_nonneg | exact B32]).
    destruct X as [(_ & M & O & S) | (N & X)].
    + left. split; [exact M|]. apply payload_whole; assumption.
    + remember (method l) as m eqn:Em.
      remember (out l) as o eqn:Eo.
      remember (compressed_size l) as cs eqn:Es.
      destruct X as [d Df Lt | Df].
      * right. split; [reflexivity|]. split; [exact N|].
        destruct (DF _ _ _ _ Df) as [D6 D64].
        rewrite ulong_small in * by lia.
        split; [rewrite YL; exact Lt|].
        destruct (zlib_stream_stripped d D6) as (hd & tl & Ed & Lh & Lt').
        exists hd, tl. repeat split; try assumption.
        rewrite Df. f_equal.
        assert (Py : payload l = firstn (Z.to_nat (zlen d - 6)) (skipn 2 d)).
        { unfold payload. rewrite <- Eo, <- Es.
          destruct (zlen d - 6 >? 0) eqn:G; [reflexivity|].
          rewrite Z.gtb_ltb in G. apply Z.ltb_ge in G.
          replace (zlen d - 6) with 0 by lia. reflexivity. }
        rewrite Py. exact Ed.
      * left. split; [reflexivity|]. apply payload_whole; auto.
Qed.

Lemma archived_describes level date time es :
  Forall (entry_in_bounds C) es ->
  Forall2 (describes C level date time)
    (filter (encodable C) es) (archived C level date time es).
Proof.
  induction es as [|e es IH]; intros Fb; [constructor|].
  inversion Fb as [|? ? [_ B32] Fb']. subst. specialize (IH Fb').
  cbn [filter archived].
  destruct (prepare_entry_not_encoded C (e_sha1 e) (e_base e)
              (e_filename e) (e_mode e) level) as [SK FA].
  destruct (prepare_entry C (e_sha1 e) (e_base e) (e_filename e)
              (e_mode e) level) as [d|d|l] eqn:P.
  - assert (N : encodable C e = false).
    { unfold encodable.
      destruct (SK d eq_refl) as [(L & _) | (_ & D & R & _)].
      - destruct (Z.leb_spec (zlen (full_path (e_base e) (e_filename e)
                                      (e_mode e))) 65535); [lia|reflexivity].
      - rewrite D, R. apply andb_false_r. }
    rewrite N. exact IH.
  - assert (N : encodable C e = false).
    { unfold encodable. destruct (FA d eq_refl) as (_ & R & B & _).
      rewrite (S_ISREG_not_DIR _ R), R, B. apply andb_false_r. }
    rewrite N. exact IH.
  - destruct (member_describes level date time e l B32 P) as [E D].
    rewrite E. constructor; assumption.
Qed.

Lemma zip_tree_run fresh level date time tree_sha1 base es commit :
  zip_tree C fresh level date time tree_sha1 base es commit =
  match snd (read_tree_recursive C (base_entry tree_sha1 base ++ es)
               (initial_state fresh level date time)) with
  | Ret _ s => Ret 0 (write_zip_trailer commit s)
  | o => o
  end.
Proof.
  unfold zip_tree, base_entry.
  destruct (zlen base >? 0); [|reflexivity].
  cbn [app read_tree_recursive e_sha1 e_base e_filename e_mode].
  destruct (write_zip_entry C tree_sha1 [] base 16895 0
              (initial_state fresh level date time)) as [r1 s1|s1|s1];
    try reflexivity.
  destruct (read_tree_recursive C es s1) as [rs o]. reflexivity.
Qed.

Lemma trailer_ends sha1 s :
  field_value 0 4 (trailer_of sha1 s) = 0x06054b50 /\
  field_value 20 2 (trailer_of sha1 s) =
    match sha1 with Some _ => 40 | None => 0 end.
Proof.
  destruct (write_zip_trailer_split sha1 s) as (_ & T & _). rewrite T.
  split; [vm_compute; reflexivity|].
  destruct sha1; vm_compute; reflexivity.
Qed.

Lemma comment_text sha1 s :
  (forall h, sha1 = Some h -> length h = 20%nat) ->
  comment_of sha1 s =
    match sha1 with Some h => sha1_to_hex h | None => [] end /\
  zlen (comment_of sha1 s) = match sha1 with Some _ => 40 | None => 0 end /\
  Forall (fun b => is_lower_hex b = true) (comment_of sha1 s).
Proof.
  intros H20.
  destruct (write_zip_trailer_split sha1 s) as (_ & _ & Cc). rewrite Cc.
  destruct sha1 as [h|]; [|repeat split; constructor].
  pose proof (sha1_to_hex_length h) as L. rewrite (H20 h eq_refl) in L.
  change (2 * 20)%nat with 40%nat in L.
  assert (F : firstn 40 (sha1_to_hex h) = sha1_to_hex h)
    by (rewrite <- L; apply firstn_all).
  rewrite F.
  repeat split; [unfold zlen; rewrite L; reflexivity|].
  apply sha1_to_hex_lower.
Qed.

Lemma zip_tree_returns_0
    (fresh : mem) (level date time : Z) (tree_sha1 base : list byte)
    (es : list entry) (commit : option (list byte)) (r : Z)
    (s : zip_state) :
  zip_tree C fresh level date time tree_sha1 base es commit = Ret r s ->
  r = 0.
Proof.
  rewrite zip_tree_run.
  destruct (snd (read_tree_recursive C (base_entry tree_sha1 base ++ es)
                   (initial_state fresh level date time)));
    intros [= <- _] || discriminate. reflexivity.
Qed.

Lemma zip_tree_unzips
    (fresh : mem) (level date time : Z) (tree_sha1 base : list byte)
    (es : list entry) (commit : option (list byte)) (r : Z)
    (s : zip_state) :
  Forall (entry_in_bounds C) (base_entry tree_sha1 base ++ es) ->
  (forall h, commit = Some h -> length h = 20%nat) ->
  zip_tree C fresh level date time tree_sha1 base es commit = Ret r s ->
  zlen (fd1 s) < 2 ^ 32 ->
  zlen (filter (encodable C) (base_entry tree_sha1 base ++ es)) < 2 ^ 16 ->
  r = 0 /\
  exists ms,
    unzip (fd1 s) =
      Some (ms, match commit with Some h => sha1_to_hex h | None => [] end) /\
    Forall2 (describes C level date time)
      (filter (encodable C) (base_entry tree_sha1 base ++ es)) ms.
Proof.
  intros Fb H20 H B K.
  rewrite zip_tree_run in H.
  set (es' := base_entry tree_sha1 base ++ es) in *.
  set (s0 := initial_state fresh level date time) in *.
  destruct (read_tree_recursive C es' s0) as [rs o] eqn:E.
  cbn [snd] in H. destruct o as [r1 s1|s1|s1]; try discriminate.
  injection H as <- <-. split; [reflexivity|].
  pose proof (archived_describes level date time es' Fb) as Ds.
  set (ms := archived C level date time es') in *.
  exists ms. split; [|exact Ds].
  apply Forall2_length in Ds.
  destruct (write_zip_trailer_split commit s1) as (Fa & _ & _).
  destruct (trailer_fields commit s1) as (Lt & _ & Fn & Fs & Fo).
  destruct (trailer_ends commit s1) as (Fm & Fc).
  destruct (comment_text commit s1 H20) as (Ct & Cl & Ch).
  set (t := trailer_of commit s1) in *.
  set (c := comment_of commit s1) in *.
  fold (dir_bytes s1) in Fa.
  destruct (initial_state_inv fresh level date time) as [W0 _].
  fold s0 in W0.
  set (dir := dir_bytes s1) in *.
  pose proof (zlen_nonneg (fd1 s1)) as P1.
  pose proof (zlen_nonneg dir) as P2.
  pose proof (zlen_nonneg c) as P3.
  assert (Zt : zlen t = 22) by (unfold zlen; rewrite Lt; reflexivity).
  rewrite Fa in B |- *. rewrite !zlen_app in B.
  assert (B1 : zlen (fd1 s1) < 2 ^ 32) by lia.
  destruct (read_tree_recursive_reads_back C ZC OF es' s0 rs r1 s1 W0
              eq_refl E B1) as (W1 & O1 & T & D & _ & G1 & R).
  destruct (read_tree_recursive_counts C es' s0 rs r1 s1
              (initial_state_inv fresh level date time) E) as (_ & _ & N).
  pose proof (read_tree_recursive_archived es' s0 rs r1 s1 E) as A.
  change (successes rs = zlen ms) in A.
  change (zip_dir_entries s0) with 0 in N.
  change (dir_bytes s0) with (@nil byte) in G1. cbn [app] in G1.
  fold dir in G1.
  destruct W1 as (_ & W2 & W3 & W4). unfold is_uint, UINT_BITS in *.
  assert (Ld : zlen dir = zip_dir_offset s1).
  { unfold dir, dir_bytes, zlen. rewrite mem_read_length. lia. }
  set (a := (fd1 s1 ++ dir) ++ t ++ c).
  assert (Za : zlen a = zlen (fd1 s1) + zlen dir + 22 + zlen c)
    by (unfold a; rewrite !zlen_app; lia).
  assert (Tr : trailer_at (zlen c) a = t).
  { unfold trailer_at. rewrite Za. unfold a.
    apply slice_at; [rewrite zlen_app; lia | symmetry; exact Zt]. }
  assert (Cb : zlen c <= 40) by (rewrite Cl; destruct commit; lia).
  assert (Ft : find_trailer (Z.to_nat 65536) 0 a = Some (zlen c)).
  { apply find_trailer_first.
    - lia.
    - intros j Hj. unfold a. rewrite app_assoc.
      apply is_trailer_in_comment; [exact Ch | | lia | lia].
      rewrite !zlen_app. lia.
    - unfold is_trailer. rewrite Tr, Fm, Fc, <- Cl, !Z.eqb_refl.
      destruct (Z.leb_spec 0 (zlen a - 22 - zlen c)); [reflexivity|lia].
    - lia. }
  unfold unzip. rewrite Ft. cbv zeta. rewrite Tr, Fn, Fs, Fo.
  change (2 ^ 16) with 65536 in *. change (2 ^ 32) with 4294967296 in *.
  assert (Nm : zip_dir_entries s1 = zlen ms) by lia.
  assert (Km : zlen ms < 65536) by (unfold zlen in *; lia).
  pose proof (zlen_nonneg ms) as P4.
  rewrite !Z.mod_small by lia.
  assert (Sd : slice (zip_offset s1) (zip_dir_offset s1) a = dir).
  { unfold a. rewrite <- app_assoc.
    apply slice_at; [exact O1 | symmetry; exact Ld]. }
  assert (Sc : slice (zlen a - zlen c) (zlen c) a = c).
  { rewrite Za. unfold a. rewrite app_assoc.
    apply slice_tail; [rewrite !zlen_app; lia | reflexivity]. }
  rewrite Sd, Sc, Ct, Nm.
  specialize (R (dir ++ t ++ c) [] 0%nat).
  cbn [read_directory] in R.
  rewrite !app_nil_r, Nat.add_0_r, <- G1, app_assoc in R.
  change (archived C (zlib_compression_level s0) (zip_date s0)
            (zip_time s0) es') with ms in R.
  unfold zlen. rewrite Nat2Z.id. fold a in R. rewrite R. reflexivity.
Qed.

(** X8.  A finished archive reads back.  Take a build whose entries
    have names whose lengths fit [int] and contents shorter than 2^32
    bytes.  When it returns with an archive of less than 4 GiB and
    fewer than 65536 members, a reader that looks for the trailer from
    the end, takes the place, the size and the number of records of the
    central directory from it and follows every record to its local
    header finds one member for each entry that was a directory or a
    readable regular file with a path of at most 65535 bytes, in the
    order of the enumeration and after the base directory, if there is
    one: with the entry's full path, the timestamp of the build, the
    size and the CRC-32 of the content, and as data the content itself
    (method 0) or the inside of the zlib stream [deflate] made of it
    (method 8); the archive comment is the commit's name in
    hexadecimal, or empty. *)
Theorem archive_unzips
    (fresh : mem) (level date time : Z) (tree_sha1 base : list byte)
    (es : list entry) (commit : option (list byte)) (r : Z)
    (s : zip_state) :
  Forall (entry_in_bounds C) (base_entry tree_sha1 base ++ es) ->
  (forall h, commit = Some h -> length h = 20%nat) ->
  zip_tree C fresh level date time tree_sha1 base es commit = Ret r s ->
  zlen (fd1 s) < 2 ^ 32 ->
  zlen (filter (encodable C) (base_entry tree_sha1 base ++ es)) < 2 ^ 16 ->
  exists ms,
    unzip (fd1 s) =
      Some (ms, match commit with Some h => sha1_to_hex h | None => [] end) /\
    Forall2 (describes C level date time)
      (filter (encodable C) (base_entry tree_sha1 base ++ es)) ms.
Proof.
  intros Fb H20 H B K.
  exact (proj2 (zip_tree_unzips _ _ _ _ _ _ _ _ _ _ Fb H20 H B K)).
Qed.

End Unzip.

Lemma archive_unzips_witness :
  exists ms,
    unzip (fd1 (state_of (zip_tree Sample.git Sample.fresh 6 100 200 [] []
                            Sample.scenario (Some (Sample.sha x0a))))) =
      Some (ms, sha1_to_hex (Sample.sha x0a)) /\
    Forall2 (describes Sample.git 6 100 200)
      (filter (encodable Sample.git) Sample.scenario) ms.
Proof.
  apply (archive_unzips Sample.git sample_zlib_contract sample_objects_fit
           sample_deflate_framed Sample.fresh 6 100 200 [] []
           Sample.scenario (Some (Sample.sha x0a)) 0).
  - repeat (apply Forall_cons; [split; vm_compute; reflexivity|]).
    apply Forall_nil.
  - intros h [= <-]. reflexivity.
  - vm_compute. reflexivity.
  - vm_compute. reflexivity.
  - vm_compute. reflexivity.
Defined.

(** ** The command line *)

Lemma byte_val_zero b : byte_val b = 0 -> b = x00.
Proof.
  intros H. rewrite <- (uchar_byte_val b), H. reflexivity.
Qed.

Lemma level_test (a : list byte) :
  c_string a ->
  (byte_val (char_at a 0) =? 45)
  && (isdigit (char_at a 1) && (byte_val (char_at a 2) =? 0)) =
  match level_of a with Some _ => true | None => false end /\
  (forall lv, level_of a = Some lv ->
     lv = byte_val (char_at a 1) - 48 /\ 0 <= lv <= 9).
Proof.
  intros N. unfold level_of, char_at.
  destruct a as [|b0 [|b1 [|b2 rest]]]; cbn [nth].
  - split; [reflexivity | discriminate].
  - split; [|discriminate].
    rewrite andb_false_r. reflexivity.
  - change (byte_val x00 =? 0) with true. rewrite andb_true_r.
    destruct ((byte_val b0 =? 45) && isdigit b1) eqn:T.
    + split; [reflexivity|]. intros lv [= <-]. split; [reflexivity|].
      apply andb_true_iff in T as [_ T]. unfold isdigit in T.
      apply andb_true_iff in T as [T1 T2].
      apply Z.leb_le in T1, T2. lia.
    + split; [reflexivity | discriminate].
  - split; [|discriminate].
    destruct (Z.eqb_spec (byte_val b2) 0) as [E|E].
    + exfalso. apply N. apply byte_val_zero in E. subst b2.
      right. right. left. reflexivity.
    + rewrite !andb_false_r. reflexivity.
Qed.

Lemma zlen_eqb {A} (l : list A) (n : nat) :
  (zlen l =? Z.of_nat n) = (length l =? n)%nat.
Proof.
  unfold zlen. destruct (Nat.eqb_spec (length l) n) as [E|E].
  - rewrite E. apply Z.eqb_refl.
  - apply Z.eqb_neq. lia.
Qed.

Lemma zlen_gtb {A} (l : list A) (n : nat) :
  (zlen l >? Z.of_nat n) = (n <? length l)%nat.
Proof.
  unfold zlen. rewrite Z.gtb_ltb.
  destruct (Nat.ltb_spec n (length l)).
  - apply Z.ltb_lt. lia.
  - apply Z.ltb_ge. lia.
Qed.

Lemma argc_tests {A} (l : list A) :
  (zlen l >? 1) = (1 <? length l)%nat /\
  (zlen l =? 3) = (length l =? 3)%nat /\
  (zlen l =? 2) = (length l =? 2)%nat.
Proof.
  split; [exact (zlen_gtb l 1)|].
  split; [exact (zlen_eqb l 3) | exact (zlen_eqb l 2)].
Qed.

Section Grammar.

Variable C : collab.

(** X9.  The command line the code accepts.  With words that are C
    strings, the command archives for exactly three shapes of [argv]:
    a tree-ish; a tree-ish and a base, or a level and a tree-ish; a
    level, a tree-ish and a base.  A level is a dash and one digit and
    counts only as the first word: a second one is taken for the
    tree-ish, and longer words that start with a dash are taken for a
    tree-ish too.  A level alone, no word at all, and anything longer
    end in [usage].  The level chosen is the digit's value; without
    one it is the configured level. *)
Theorem command_line_grammar (R : repo) (argv : list (list byte)) :
  Forall c_string argv ->
  cmd_zip_tree C R argv =
  match argv with
  | [_; a] =>
      match level_of a with
      | Some _ => inl Usage
      | None => archive_named C R (configured_level R) a []
      end
  | [_; a; b] =>
      match level_of a with
      | Some lv => archive_named C R lv b []
      | None => archive_named C R (configured_level R) a b
      end
  | [_; a; b; c] =>
      match level_of a with
      | Some lv => archive_named C R lv b c
      | None => inl Usage
      end
  | _ => inl Usage
  end /\
  (forall a lv, level_of a = Some lv -> 0 <= lv <= 9).
Proof.
  intros N. split.
  2:{ intros a lv. unfold level_of.
      destruct a as [|b0 [|b1 [|? ?]]]; try discriminate.
      destruct (byte_val b0 =? 45); [|discriminate]. cbn [andb].
      unfold isdigit. destruct (Z.leb_spec 48 (byte_val b1));
        [|discriminate].
      destruct (Z.leb_spec (byte_val b1) 57); [|discriminate].
      intros [= <-]. lia. }
  unfold cmd_zip_tree, parse_level.
  rewrite (proj1 (argc_tests argv)).
  destruct argv as [|c0 [|a rest]]; [reflexivity | reflexivity |].
  assert (Na : c_string a)
    by (inversion N as [|? ? _ N']; inversion N'; assumption).
  destruct (level_test a Na) as [T V].
  cbn [nth length Nat.ltb Nat.leb andb].
  destruct (Z.eqb_spec (byte_val (char_at a 0)) 45) as [D|D];
    cbn [andb] in T |- *.
  - rewrite T. destruct (level_of a) as [lv|] eqn:L.
    + destruct (V lv eq_refl) as [<- _]. cbn [tl].
      rewrite (proj1 (proj2 (argc_tests _))), (proj2 (proj2 (argc_tests _))).
      destruct rest as [|b [|c [|d rest]]]; reflexivity.
    + rewrite (proj1 (proj2 (argc_tests _))), (proj2 (proj2 (argc_tests _))).
      destruct rest as [|b [|c [|d rest]]]; reflexivity.
  - destruct (level_of a) as [lv|] eqn:L; [discriminate|].
    rewrite (proj1 (proj2 (argc_tests _))), (proj2 (proj2 (argc_tests _))).
    destruct rest as [|b [|c [|d rest]]]; reflexivity.
Qed.

End Grammar.

Lemma command_line_grammar_witness :
  cmd_zip_tree Sample.git sample_repo [word_cmd; word_9; word_HEAD; word_b] =
  archive_named Sample.git sample_repo 9 word_HEAD word_b.
Proof.
  refine (proj1 (command_line_grammar Sample.git sample_repo
                   [word_cmd; word_9; word_HEAD; word_b] _)).
  repeat constructor; unfold c_string; cbn; intuition discriminate.
Defined.

(** ** The command's archive *)

Lemma describes_stamp C level date time (t : tm) es ms :
  dos_time t = (date, time) ->
  Forall2 (describes C level date time) es ms ->
  Forall (fun m => m_date m = stored_date t /\ m_time m = stored_time t) ms.
Proof.
  intros DT F. unfold stored_date, stored_time.
  rewrite DT, !le_value_copy_le16. cbn [fst snd].
  induction F as [|e m es ms D _ IH]; constructor; [|exact IH].
  destruct D as (_ & Dd & Dt & _). auto.
Qed.

Section Stamp.

Variable C : collab.
Hypothesis ZC : zlib_contract C.
Hypothesis OF : objects_fit C.
Hypothesis DF : deflate_framed C.

(** X10.  What the command puts on the archive.  When the name leads
    to a tree and the command returns, it returns 0.  If moreover the
    entries have names whose lengths fit [int] and contents shorter
    than 2^32 bytes, and the archive is shorter than 4 GiB and has
    fewer than 65536 members, it reads back with one member for each
    entry that could be encoded, every one stamped with the local time
    of the commit the name leads to, or of the current time when it
    leads to no commit, in DOS form; the comment is that commit's own
    name in hexadecimal, which need not be the object the name itself
    stands for, and is empty without a commit. *)
Theorem archive_carries_the_commit
    (R : repo) (level : Z) (name base sha1 tree : list byte) (t : tm)
    (r : Z) (s : zip_state) :
  let found := lookup_commit_reference_gently R sha1 in
  let entries :=
    base_entry tree base ++
    tree_entries R tree (if zlen base >? 0 then base ++ [x2f] else base) in
  get_sha1 R name = Some sha1 ->
  localtime R (match found with
               | Some (_, date) => date
               | None => time_now R
               end) = Some t ->
  parse_tree_indirect R sha1 = Some tree ->
  archive_named C R level name base = inr (Ret r s) ->
  r = 0 /\
  ((forall c d, found = Some (c, d) -> length c = 20%nat) ->
   Forall (entry_in_bounds C) entries ->
   zlen (fd1 s) < 2 ^ 32 ->
   zlen (filter (encodable C) entries) < 2 ^ 16 ->
   exists ms,
     unzip (fd1 s) =
       Some (ms, match found with
                 | Some (c, _) => sha1_to_hex c
                 | None => []
                 end) /\
     length ms = length (filter (encodable C) entries) /\
     Forall (fun m => m_date m = stored_date t /\ m_time m = stored_time t)
       ms).
Proof.
  intros found entries G Lt P H.
  unfold archive_named in H. rewrite G in H. fold found in H.
  rewrite Lt, P in H.
  destruct (dos_time t) as [date time] eqn:DT.
  injection H as H.
  split; [apply (zip_tree_returns_0 C _ _ _ _ _ _ _ _ _ _ H)|].
  intros H20 Fb B K.
  assert (H20' : forall h,
             match found with
             | Some (c, _) => Some c
             | None => None
             end = Some h -> length h = 20%nat).
  { intros h. destruct found as [[c d]|]; [|discriminate].
    intros [= <-]. apply (H20 c d eq_refl). }
  destruct (zip_tree_unzips C ZC OF DF _ _ _ _ _ _ _ _ _ _ Fb H20' H B K)
    as (_ & ms & U & F).
  exists ms.
  split; [|split].
  - rewrite U. destruct found as [[c d]|]; reflexivity.
  - symmetry. apply (Forall2_length F).
  - apply (describes_stamp _ _ _ _ _ _ _ DT F).
Qed.

End Stamp.

Lemma archive_carries_the_commit_witness :
  exists ms,
    unzip (fd1 (built (archive_named Sample.git sample_repo 9 word_HEAD
                         word_b))) =
      Some (ms, sha1_to_hex (Sample.sha x0a)) /\
    length ms = 3%nat /\
    Forall (fun m => m_date m = 13592 /\ m_time m = 27613) ms.
Proof.
  refine (proj2 (archive_carries_the_commit Sample.git sample_zlib_contract
                   sample_objects_fit sample_deflate_framed sample_repo 9
                   word_HEAD word_b (Sample.sha x0b) (Sample.sha x07)
                   noon_2006 0
                   (built (archive_named Sample.git sample_repo 9 word_HEAD
                             word_b))
                   eq_refl eq_refl eq_refl _) _ _ _ _).
  - vm_compute. reflexivity.
  - intros c d [= <- _]. reflexivity.
  - repeat (apply Forall_cons; [split; vm_compute; reflexivity|]).
    apply Forall_nil.
  - vm_compute. reflexivity.
  - vm_compute. reflexivity.
Defined.

(** ** Empty archives *)

Section Empty.

Variable C : collab.

Lemma read_tree_recursive_skipped es : forall s,
  Forall skipped es ->
  exists s',
    read_tree_recursive C es s = (map (fun _ => -1) es, Ret 0 s') /\
    same_archive s s' /\
    length (fd2 s') = (length (fd2 s) + length es)%nat.
Proof.
  induction es as [|e es IH]; intros s F.
  - exists s. cbn. unfold same_archive. repeat split; lia.
  - inversion F as [|? ? Sk F']. subst.
    assert (P : exists d,
               prepare_entry C (e_sha1 e) (e_base e) (e_filename e)
                 (e_mode e) (zlib_compression_level s) = Skip d).
    { destruct Sk as [L | [D R]].
      - rewrite prepare_entry_too_long by exact L. eauto.
      - destruct (Z_lt_le_dec 65535
                    (zlen (full_path (e_base e) (e_filename e) (e_mode e))))
          as [L|L].
        + rewrite prepare_entry_too_long by exact L. eauto.
        + rewrite prepare_entry_unsupported by assumption. eauto. }
    destruct P as [d P].
    destruct (IH (error d s) F') as (s' & E & A & L).
    exists s'. cbn [read_tree_recursive map].
    unfold write_zip_entry. rewrite P, E.
    split; [reflexivity|]. split; [exact A|].
    rewrite L. cbn [fd2 error length]. rewrite length_app. cbn [length]. lia.
Qed.

(** X11.  A build that encodes nothing still ends well: when every
    entry the encoder is given, the base directory included, has a path
    that is too long or a mode that is not supported (the lengths of
    the names fitting [int]), and so also for an empty tree without a
    base, the build returns 0 and the archive is the trailer with zero
    counts followed by the comment. *)
Theorem nothing_encoded_gives_the_empty_archive
    (fresh : mem) (level date time : Z) (tree_sha1 base : list byte)
    (es : list entry) (commit : option (list byte)) :
  Forall skipped (base_entry tree_sha1 base ++ es) ->
  Forall entry_fits_int (base_entry tree_sha1 base ++ es) ->
  exists s,
    zip_tree C fresh level date time tree_sha1 base es commit = Ret 0 s /\
    fd1 s = empty_archive commit.
Proof.
  intros F _. rewrite zip_tree_run.
  destruct (read_tree_recursive_skipped _
              (initial_state fresh level date time) F)
    as (s' & E & (A1 & A2 & A3 & _ & _ & A6) & _).
  rewrite E. cbn [snd]. eexists. split; [reflexivity|].
  rewrite write_zip_trailer_fd1, A1, A2, A3, A6.
  destruct commit; reflexivity.
Qed.

End Empty.

Lemma nothing_encoded_gives_the_empty_archive_witness :
  exists s,
    zip_tree Sample.git Sample.fresh 6 100 200 [] []
      [sample_link] None = Ret 0 s /\
    fd1 s = empty_archive None.
Proof.
  apply (nothing_encoded_gives_the_empty_archive Sample.git).
  - apply Forall_cons; [right; split; reflexivity | apply Forall_nil].
  - apply Forall_cons; [vm_compute; reflexivity | apply Forall_nil].
Defined.

(** ** Where deflate is called *)

Section Level0.

Variables C1 C2 : collab.
Hypothesis SS : same_store C1 C2.

Lemma prepare_entry_without_deflate sha1 base filename mode level :
  level = 0 \/ S_ISREG mode = false ->
  prepare_entry C1 sha1 base filename mode level =
  prepare_entry C2 sha1 base filename mode level.
Proof.
  destruct SS as [Sc Sr]. intros H. unfold prepare_entry.
  rewrite !Sc, Sr.
  destruct (construct_path base filename (S_ISDIR mode)) as [p n].
  destruct (n >? 65535); [reflexivity|].
  destruct (S_ISDIR mode); [rewrite !try_deflate_method0; reflexivity|].
  destruct (S_ISREG mode) eqn:R; [|reflexivity].
  destruct H as [-> | H]; [|discriminate]. cbn [Z.eqb].
  destruct (read_sha1_file C2 sha1) as [buffer|]; [|reflexivity].
  rewrite !try_deflate_method0, Sc. reflexivity.
Qed.

Lemma level_kept sha1 base filename mode stage s r s' :
  write_zip_entry C1 sha1 base filename mode stage s = Ret r s' ->
  zlib_compression_level s' = zlib_compression_level s.
Proof.
  intros H.
  destruct (write_zip_entry_Ret _ _ _ _ _ _ _ _ _ H)
    as [(d & _ & _ & ->) | (l & _ & _ & A)]; [reflexivity|].
  apply (ap_level _ _ _ A).
Qed.

Lemma read_tree_recursive_without_deflate es : forall s,
  zlib_compression_level s = 0 ->
  read_tree_recursive C1 es s = read_tree_recursive C2 es s.
Proof.
  induction es as [|e es IH]; intros s L; [reflexivity|].
  cbn [read_tree_recursive].
  assert (E : write_zip_entry C1 (e_sha1 e) (e_base e) (e_filename e)
                (e_mode e) 0 s =
              write_zip_entry C2 (e_sha1 e) (e_base e) (e_filename e)
                (e_mode e) 0 s).
  { unfold write_zip_entry.
    rewrite prepare_entry_without_deflate by (left; exact L). reflexivity. }
  rewrite <- E.
  destruct (write_zip_entry C1 (e_sha1 e) (e_base e) (e_filename e)
              (e_mode e) 0 s) as [r1 s1|?|?] eqn:E1; try reflexivity.
  rewrite (IH s1); [reflexivity|].
  rewrite (level_kept _ _ _ _ _ _ _ _ E1). exact L.
Qed.

(** X12.  [deflate] is called for regular files at a level other than
    0 and for nothing else: with the same checksums and the same object
    store, a call at level 0 or for an entry that is no regular file
    does not depend on what [deflate] would do, and neither does a whole
    build at level 0. *)
Theorem deflate_is_left_alone :
  (forall sha1 base filename mode stage s,
     zlib_compression_level s = 0 \/ S_ISREG mode = false ->
     write_zip_entry C1 sha1 base filename mode stage s =
     write_zip_entry C2 sha1 base filename mode stage s) /\
  (forall fresh date time tree_sha1 base es commit,
     zip_tree C1 fresh 0 date time tree_sha1 base es commit =
     zip_tree C2 fresh 0 date time tree_sha1 base es commit).
Proof.
  split.
  - intros sha1 base filename mode stage s H. unfold write_zip_entry.
    rewrite prepare_entry_without_deflate by exact H. reflexivity.
  - intros fresh date time tree_sha1 base es commit.
    rewrite !zip_tree_run.
    rewrite read_tree_recursive_without_deflate by reflexivity.
    reflexivity.
Qed.

End Level0.

Lemma deflate_is_left_alone_witness :
  zip_tree Sample.git Sample.fresh 0 100 200 [] [] Sample.scenario None =
  zip_tree Sample.stub_zlib Sample.fresh 0 100 200 [] [] Sample.scenario None.
Proof.
  apply (proj2 (deflate_is_left_alone Sample.git Sample.stub_zlib
                  (conj (fun _ _ _ => eq_refl) (fun _ => eq_refl)))).
Defined.

(** ** Builds that die *)

Section Dying.

Variable C : collab.

Lemma read_tree_recursive_app es1 es2 : forall s rs r s1,
  read_tree_recursive C es1 s = (rs, Ret r s1) ->
  read_tree_recursive C (es1 ++ es2) s =
  (rs ++ fst (read_tree_recursive C es2 s1),
   snd (read_tree_recursive C es2 s1)).
Proof.
  induction es1 as [|e es1 IH]; intros s rs r s1 H; cbn in H.
  - injection H as <- _ <-. cbn [app].
    destruct (read_tree_recursive C es2 s); reflexivity.
  - cbn [app read_tree_recursive].
    destruct (write_zip_entry C (e_sha1 e) (e_base e) (e_filename e)
                (e_mode e) 0 s) as [r1 s'|?|?]; try discriminate.
    destruct (read_tree_recursive C es1 s') as [rs1 o1] eqn:E.
    injection H as <- ->.
    rewrite (IH _ _ _ _ E). reflexivity.
Qed.

(** X13.  A blob that cannot be read ends the build on the spot.  When
    the enumeration comes to a regular file with a path of at most
    65535 bytes whose blob is missing, the process exits: "cannot read"
    is added to standard error, the archive stream stays as the entries
    before it left it, with their local headers and data but without
    central directory and trailer, and neither the entries after it nor
    the commit matter. *)
Theorem missing_blob_ends_the_build
    (fresh : mem) (level date time : Z) (tree_sha1 base : list byte)
    (es1 es2 : list entry) (e : entry) (commit : option (list byte))
    (rs : list Z) (r : Z) (s1 : zip_state) :
  read_tree_recursive C (base_entry tree_sha1 base ++ es1)
    (initial_state fresh level date time) = (rs, Ret r s1) ->
  zlen (full_path (e_base e) (e_filename e) (e_mode e)) <= 65535 ->
  S_ISREG (e_mode e) = true ->
  read_sha1_file C (e_sha1 e) = None ->
  zip_tree C fresh level date time tree_sha1 base (es1 ++ e :: es2) commit =
  Die (error (CannotRead (e_sha1 e)) s1).
Proof.
  intros H L R B. rewrite zip_tree_run, app_assoc.
  rewrite (read_tree_recursive_app _ (e :: es2) _ _ _ _ H).
  cbn [read_tree_recursive snd]. unfold write_zip_entry.
  rewrite prepare_entry_unreadable;
    [reflexivity | exact L | apply S_ISREG_not_DIR; exact R | exact R
     | exact B].
Qed.

End Dying.

Lemma missing_blob_ends_the_build_witness :
  zip_tree Sample.git Sample.fresh 6 100 200 [] []
    (Sample.scenario ++ [lost_file]) (Some (Sample.sha x0a)) =
  Die (error (CannotRead (Sample.sha x09))
         (state_of (snd (read_tree_recursive Sample.git Sample.scenario
                           (sample_start 6))))).
Proof.
  apply (missing_blob_ends_the_build Sample.git Sample.fresh 6 100 200 [] []
           Sample.scenario [] lost_file (Some (Sample.sha x0a)) [1; 0] 0
           (state_of (snd (read_tree_recursive Sample.git Sample.scenario
                             (sample_start 6))))).
  - vm_compute. reflexivity.
  - vm_compute. discriminate.
  - reflexivity.
  - reflexivity.
Defined.

(** ** The CRC-32 of contents of 4 GiB *)

Lemma lxor_range n a b :
  0 <= n -> 0 <= a < 2 ^ n -> 0 <= b < 2 ^ n -> 0 <= Z.lxor a b < 2 ^ n.
Proof.
  intros N A B.
  assert (P : 0 <= Z.lxor a b) by (apply Z.lxor_nonneg; lia).
  split; [exact P|].
  destruct (Z.eq_dec (Z.lxor a b) 0) as [E|E]; [rewrite E; lia|].
  apply Z.log2_lt_pow2; [lia|].
  pose proof (Z.log2_lxor a b ltac:(lia) ltac:(lia)) as L.
  assert (La : a = 0 \/ Z.log2 a < n)
    by (destruct (Z.eq_dec a 0); [auto | right; apply Z.log2_lt_pow2; lia]).
  assert (Lb : b = 0 \/ Z.log2 b < n)
    by (destruct (Z.eq_dec b 0); [auto | right; apply Z.log2_lt_pow2; lia]).
  destruct La as [-> | La]; destruct Lb as [-> | Lb];
    rewrite ?Z.lxor_0_l, ?Z.lxor_0_r in *; lia.
Qed.

Lemma shiftr1_range c : 0 <= c < 2 ^ 32 -> 0 <= Z.shiftr c 1 < 2 ^ 31.
Proof.
  intros R. rewrite Z.shiftr_div_pow2 by lia. change (2 ^ 1) with 2.
  change (2 ^ 32) with 4294967296 in R. change (2 ^ 31) with 2147483648.
  pose proof (Z.div_mod c 2). pose proof (Z.mod_pos_bound c 2 eq_refl). lia.
Qed.

Lemma crc_bit_range c : 0 <= c < 2 ^ 32 -> 0 <= Sample.crc_bit c < 2 ^ 32.
Proof.
  intros R. pose proof (shiftr1_range c R) as S. unfold Sample.crc_bit.
  assert (S' : 0 <= Z.shiftr c 1 < 2 ^ 32)
    by (change (2 ^ 31) with 2147483648 in S;
        change (2 ^ 32) with 4294967296; lia).
  destruct (Z.odd c); [|exact S'].
  apply lxor_range; [lia | exact S' | vm_compute; split; [discriminate | reflexivity]].
Qed.

Lemma crc_bit_injective a b :
  0 <= a < 2 ^ 32 -> 0 <= b < 2 ^ 32 ->
  Sample.crc_bit a = Sample.crc_bit b -> a = b.
Proof.
  intros A B. pose proof (shiftr1_range a A) as Sa.
  pose proof (shiftr1_range b B) as Sb.
  assert (Top : forall x, 0 <= x < 2 ^ 31 -> Z.testbit x 31 = false).
  { intros x X. destruct (Z.eq_dec x 0) as [->|Nz]; [reflexivity|].
    apply Z.bits_above_log2; [lia|]. apply Z.log2_lt_pow2; lia. }
  assert (Half : forall x, x = 2 * Z.shiftr x 1 + Z.b2z (Z.odd x)).
  { intros x. rewrite <- Z.div2_spec. apply Z.div2_odd. }
  unfold Sample.crc_bit. intros E.
  rewrite (Half a), (Half b).
  destruct (Z.odd a) eqn:Oa; destruct (Z.odd b) eqn:Ob.
  - apply (f_equal (fun x => Z.lxor x 0xEDB88320)) in E.
    rewrite !Z.lxor_assoc, !Z.lxor_nilpotent, !Z.lxor_0_r in E.
    rewrite E. reflexivity.
  - exfalso. apply (f_equal (fun x => Z.testbit x 31)) in E.
    rewrite Z.lxor_spec, (Top _ Sa), (Top _ Sb) in E. discriminate.
  - exfalso. apply (f_equal (fun x => Z.testbit x 31)) in E.
    rewrite Z.lxor_spec, (Top _ Sa), (Top _ Sb) in E. discriminate.
  - rewrite E. reflexivity.
Qed.

Lemma crc_byte_range c b : 0 <= c < 2 ^ 32 -> 0 <= Sample.crc_byte c b < 2 ^ 32.
Proof.
  intros R. unfold Sample.crc_byte.
  assert (X : 0 <= Z.lxor c (byte_val b) < 2 ^ 32).
  { apply lxor_range; [lia | exact R |].
    pose proof (byte_val_range b). change (2 ^ 32) with 4294967296. lia. }
  cbn [Nat.iter]. repeat apply crc_bit_range. exact X.
Qed.

Lemma fold_crc_range l : forall c,
  0 <= c < 2 ^ 32 -> 0 <= fold_left Sample.crc_byte l c < 2 ^ 32.
Proof.
  induction l as [|b l IH]; intros c R; [exact R|].
  cbn [fold_left]. apply IH, crc_byte_range, R.
Qed.

Lemma crc_byte_last c :
  0 <= c < 2 ^ 32 -> Sample.crc_byte c x00 <> Sample.crc_byte c x01.
Proof.
  intros R E. unfold Sample.crc_byte in E.
  change (byte_val x00) with 0 in E. change (byte_val x01) with 1 in E.
  assert (X0 : 0 <= Z.lxor c 0 < 2 ^ 32) by (apply lxor_range; lia).
  assert (X1 : 0 <= Z.lxor c 1 < 2 ^ 32) by (apply lxor_range; lia).
  cbn [Nat.iter] in E.
  do 8 (apply crc_bit_injective in E;
        [|repeat apply crc_bit_range; assumption
         |repeat apply crc_bit_range; assumption]).
  apply (f_equal (Z.lxor c)) in E.
  rewrite <- !Z.lxor_assoc, Z.lxor_nilpotent, !Z.lxor_0_l in E. discriminate.
Qed.

Lemma zlen_repeat {A} (x : A) n : 0 <= n -> zlen (repeat x (Z.to_nat n)) = n.
Proof. intros N. unfold zlen. rewrite repeat_length. apply Z2Nat.id, N. Qed.

Lemma zlen_huge_ending b : zlen (Sample.huge_ending b) = 2 ^ 32.
Proof.
  unfold Sample.huge_ending, Sample.almost_huge.
  rewrite zlen_app, zlen_repeat by (apply Z.lt_le_incl; reflexivity).
  reflexivity.
Qed.

Lemma zcrc32_whole (buf : list byte) :
  Sample.zcrc32 0 buf (zlen buf) =
  Z.lxor (fold_left Sample.crc_byte buf 0xFFFFFFFF) 0xFFFFFFFF.
Proof.
  unfold Sample.zcrc32. rewrite firstn_zlen.
  change (Z.lxor (0 mod 2 ^ 32) 4294967295) with 4294967295.
  apply Z.mod_small. apply lxor_range; [lia | |].
  - apply fold_crc_range. split; [discriminate | reflexivity].
  - split; [discriminate | reflexivity].
Qed.

Lemma fold_left_snoc {A B} (f : A -> B -> A) l b c :
  fold_left f (l ++ [b]) c = f (fold_left f l c) b.
Proof. rewrite fold_left_app. reflexivity. Qed.

Lemma zcrc32_no_bytes (buf : list byte) : Sample.zcrc32 0 buf 0 = 0.
Proof. reflexivity. Qed.

Lemma crc32_tells_endings_apart :
  Sample.zcrc32 0 (Sample.huge_ending x00) (zlen (Sample.huge_ending x00)) <>
  Sample.zcrc32 0 (Sample.huge_ending x01) (zlen (Sample.huge_ending x01)).
Proof.
  rewrite !zcrc32_whole. unfold Sample.huge_ending.
  rewrite !fold_left_snoc.
  assert (I : 0 <= 4294967295 < 2 ^ 32)
    by (split; [discriminate | reflexivity]).
  generalize (fold_crc_range Sample.almost_huge 4294967295 I).
  generalize (fold_left Sample.crc_byte Sample.almost_huge 4294967295).
  intros c R E. apply (crc_byte_last c R).
  apply (f_equal (fun x => Z.lxor x 4294967295)) in E.
  rewrite !Z.lxor_assoc, !Z.lxor_nilpotent, !Z.lxor_0_r in E. exact E.
Qed.

Lemma stored_file_crc C sha1 base filename mode stage s buffer :
  S_ISDIR mode = false -> S_ISREG mode = true ->
  read_sha1_file C sha1 = Some buffer ->
  zlen (full_path base filename mode) <= 65535 ->
  zlib_compression_level s = 0 ->
  wf_state s -> has_room (zlen (full_path base filename mode)) s ->
  exists s',
    write_zip_entry C sha1 base filename mode stage s = Ret 0 s' /\
    field_value 14 4 (local_header_of s s') =
      crc32 C (crc32 C 0 [] 0) buffer (uint (zlen buffer)) mod 2 ^ 32.
Proof.
  intros D R B L Lv W Rm.
  pose proof (prepare_entry_stored C sha1 base filename mode _ buffer
                D R B L Lv) as P.
  destruct (encode_locals C sha1 base filename mode stage s _ P W Rm)
    as (s' & E & _ & H & _).
  exists s'. split; [exact E|]. rewrite H. apply header_crc.
Qed.

Lemma twin_entry sha1 b :
  read_sha1_file Sample.twin_store sha1 = Some (Sample.huge_ending b) ->
  exists s',
    write_zip_entry Sample.twin_store sha1 [] [x61] 33188 0 (sample_start 0)
      = Ret 0 s' /\
    field_value 14 4 (local_header_of (sample_start 0) s') = 0.
Proof.
  intros B.
  assert (L : zlen (full_path [] [x61] 33188) <= 65535)
    by (vm_compute; discriminate).
  assert (W : wf_state (sample_start 0))
    by (vm_compute; intuition discriminate).
  assert (Rm : has_room (zlen (full_path [] [x61] 33188)) (sample_start 0))
    by (vm_compute; discriminate).
  destruct (stored_file_crc Sample.twin_store sha1 [] [x61] 33188 0
              (sample_start 0) _ eq_refl eq_refl B L eq_refl W Rm)
    as (s' & E & V).
  exists s'. split; [exact E|].
  rewrite V, zlen_huge_ending.
  assert (U : uint (2 ^ 32) = 0) by reflexivity.
  rewrite U. change (crc32 Sample.twin_store) with Sample.zcrc32.
  assert (I : Sample.zcrc32 0 [] 0 = 0) by reflexivity.
  rewrite I, zcrc32_no_bytes. reflexivity.
Qed.

(** Against C1 as stated: two regular files of 2^32 bytes each, all
    zero but for the last byte of the second, are stored at level 0.
    Line 184 hands [crc32] the length 2^32 as a [uInt], that is 0, so
    both entries get the CRC-32 field 0, the checksum of no bytes at
    all; the CRC-32 of the two contents differ, so for one of them at
    least the field is not the CRC-32 of the content. *)
Lemma crc_field_is_not_the_crc_of_4GiB :
  exists s1 s2,
    write_zip_entry Sample.twin_store (Sample.sha x01) [] [x61] 33188 0
      (sample_start 0) = Ret 0 s1 /\
    write_zip_entry Sample.twin_store (Sample.sha x02) [] [x61] 33188 0
      (sample_start 0) = Ret 0 s2 /\
    entry_content Sample.twin_store (Sample.sha x01) 33188
      = Sample.huge_ending x00 /\
    entry_content Sample.twin_store (Sample.sha x02) 33188
      = Sample.huge_ending x01 /\
    field_value 14 4 (local_header_of (sample_start 0) s1) = 0 /\
    field_value 14 4 (local_header_of (sample_start 0) s2) = 0 /\
    Sample.zcrc32 0 (Sample.huge_ending x00)
      (zlen (Sample.huge_ending x00)) <>
    Sample.zcrc32 0 (Sample.huge_ending x01)
      (zlen (Sample.huge_ending x01)) /\
    (field_value 14 4 (local_header_of (sample_start 0) s1) <>
       Sample.zcrc32 0 (Sample.huge_ending x00)
         (zlen (Sample.huge_ending x00)) \/
     field_value 14 4 (local_header_of (sample_start 0) s2) <>
       Sample.zcrc32 0 (Sample.huge_ending x01)
         (zlen (Sample.huge_ending x01))).
Proof.
  destruct (twin_entry (Sample.sha x01) x00 eq_refl) as (s1 & E1 & V1).
  destruct (twin_entry (Sample.sha x02) x01 eq_refl) as (s2 & E2 & V2).
  exists s1, s2.
  split; [exact E1|]. split; [exact E2|].
  split; [reflexivity|]. split; [reflexivity|].
  split; [exact V1|]. split; [exact V2|].
  rewrite V1, V2.
  generalize crc32_tells_endings_apart.
  generalize (Sample.zcrc32 0 (Sample.huge_ending x00)
                (zlen (Sample.huge_ending x00))).
  generalize (Sample.zcrc32 0 (Sample.huge_ending x01)
                (zlen (Sample.huge_ending x01))).
  intros cb ca N. split; [exact N|].
  destruct (Z.eq_dec ca 0) as [Z0|Z0].
  - right. intros Z1. apply N. rewrite Z0. exact Z1.
  - left. intros Z1. apply Z0. symmetry. exact Z1.
Qed.
